(** * nodeflow: the workflow execution engine

    A shallow embedding of [WorkflowExecutor] (src/lib/constructorParser.ts,
    second document of the file): the execution-order builder
    ([buildExecutionOrder], Kahn's algorithm over insertion-ordered JavaScript
    [Map]s), the run loop ([execute]), the per-node dispatcher ([executeNode])
    with its handlers, and the type-keyed store lookup ([findPreviousData]).

    Conventions.
    - A JavaScript [Map] is an association list in insertion order with unique
      keys ([JsMap]): [set] on a present key replaces the value in place, on an
      absent key appends an entry; iteration follows the list.
    - JavaScript numbers that count edges are [Z] (a degree can go negative).
    - Strings are Rocq strings; [String.length] and [substring] stand for the
      [length] and [substring] of the source (one character per code unit).
    - Values of TypeScript type [any] are [Value]s.
    - Callbacks of the execution context are recorded as a trace of [Event]s.
    - Answers of the external collaborators (compiler service, wallet, chain
      client, AI service, clock, browser globals) are parameters of the
      executor, indexed by the id of the node in flight. *)

From Stdlib Require Import List String Ascii ZArith Lia Bool Arith Relations.
From Stdlib Require Import DecimalString.
Import ListNotations.
Open Scope string_scope.
Open Scope list_scope.

Set Implicit Arguments.
Set Warnings "-register-all".

(** String concatenation ([+] on strings, template literals). *)
Infix "+++" := String.append (right associativity, at level 60).

(* ================================================================== *)
(** ** Insertion-ordered maps (JavaScript [Map] with string keys) *)
(* ================================================================== *)

Module JsMap.

Section Ops.
Variable V : Type.

Definition t := list (string * V).

Definition empty : t := [].

(** [Map.prototype.get]: [None] stands for [undefined]. *)
Fixpoint get (k : string) (m : t) : option V :=
  match m with
  | [] => None
  | (k', v) :: m' => if String.eqb k' k then Some v else get k m'
  end.

(** [Map.prototype.set]: a present key keeps its position. *)
Fixpoint set (k : string) (v : V) (m : t) : t :=
  match m with
  | [] => [(k, v)]
  | (k', v') :: m' =>
      if String.eqb k' k then (k', v) :: m' else (k', v') :: set k v m'
  end.

Definition keys (m : t) : list string := map fst m.

End Ops.

End JsMap.

(* ================================================================== *)
(** ** The graph: nodes and edges *)
(* ================================================================== *)

(** Values of type [any]: node payload fields, handler outputs, collaborator
    answers. *)
Inductive Value : Type :=
| VUndefined
| VNull
| VBool (b : bool)
| VNum (n : Z)
| VStr (s : string)
| VArr (items : list Value)
| VObj (fields : list (string * Value)).

(** [NodeData], restricted to the fields the executor reads. [type] is the
    node-type tag; an absent optional field is [None]. *)
Record NodeData := {
  label : string;
  type : string;
  projectTitle : option string;
  projectDescription : option string;
  contractCode : option string;
  contractName : option string;
  constructorArgs : Value;
  aiPrompt : option string
}.

Record Node := { id : string; data : NodeData }.

(** An edge with the two status annotations [updateEdgeStatus] writes into
    [edge.data]. *)
Inductive Status := Idle | Running | Success | Error.

Record Edge := {
  source : string;
  target : string;
  sourceStatus : option Status;
  targetStatus : option Status
}.

Definition mkEdge (s t : string) : Edge :=
  {| source := s; target := t; sourceStatus := None; targetStatus := None |}.

(** What a call can do: return a value, or throw an [Error] with a message. *)
Inductive Outcome (A : Type) : Type :=
| Returned (a : A)
| Thrown (message : string).

Arguments Returned {A} a.
Arguments Thrown {A} message.

(* ================================================================== *)
(** ** buildExecutionOrder *)
(* ================================================================== *)

(** [x || 0] on an in-degree read from the map: [undefined] gives 0, a number
    gives itself (the only falsy number that occurs is 0). *)
Definition orZero (o : option Z) : Z :=
  match o with
  | Some d => d
  | None => 0%Z
  end.

(** State of Kahn's loop: the in-degree map, the work queue, the result. *)
Record Kahn := {
  inDegree : JsMap.t Z;
  queue : list string;
  result : list string
}.

(** "Initialize": every node gets in-degree 0 and an empty successor list. *)
Definition initInDegree (nodes : list Node) : JsMap.t Z :=
  fold_left (fun m n => JsMap.set (id n) 0%Z m) nodes (JsMap.empty Z).

Definition initAdjacency (nodes : list Node) : JsMap.t (list string) :=
  fold_left (fun m n => JsMap.set (id n) [] m) nodes (JsMap.empty (list string)).

(** "Build graph", one edge:
    [adjacencyList.get(edge.source)?.push(edge.target)] and
    [inDegree.set(edge.target, (inDegree.get(edge.target) || 0) + 1)]. *)
Definition addAdjacency (adj : JsMap.t (list string)) (e : Edge)
  : JsMap.t (list string) :=
  match JsMap.get (source e) adj with
  | Some succs => JsMap.set (source e) (succs ++ [target e]) adj
  | None => adj
  end.

Definition addInDegree (deg : JsMap.t Z) (e : Edge) : JsMap.t Z :=
  JsMap.set (target e) (orZero (JsMap.get (target e) deg) + 1)%Z deg.

Definition buildAdjacency (nodes : list Node) (edges : list Edge) :=
  fold_left addAdjacency edges (initAdjacency nodes).

Definition buildInDegree (nodes : list Node) (edges : list Edge) :=
  fold_left addInDegree edges (initInDegree nodes).

(** [inDegree.forEach((degree, nodeId) => if (degree === 0) queue.push(nodeId))] *)
Definition seedQueue (deg : JsMap.t Z) : list string :=
  map fst (filter (fun kv => Z.eqb (snd kv) 0) deg).

(** The body of [adjacencyList.get(nodeId)?.forEach(neighbor => ...)]. *)
Definition visit (st : Kahn) (neighbor : string) : Kahn :=
  let newDegree := (orZero (JsMap.get neighbor (inDegree st)) - 1)%Z in
  {| inDegree := JsMap.set neighbor newDegree (inDegree st);
     queue := if Z.eqb newDegree 0 then queue st ++ [neighbor] else queue st;
     result := result st |}.

(** One iteration of [while (queue.length > 0)], [nodeId] being the queue's
    head and [rest] its tail after [queue.shift()]. *)
Definition iteration (adj : JsMap.t (list string)) (st : Kahn)
  (nodeId : string) (rest : list string) : Kahn :=
  let st1 := {| inDegree := inDegree st; queue := rest;
                result := result st ++ [nodeId] |} in
  match JsMap.get nodeId adj with
  | Some succs => fold_left visit succs st1
  | None => st1
  end.

(** The [while] loop, cut after [fuel] iterations. *)
Fixpoint kahnLoop (fuel : nat) (adj : JsMap.t (list string)) (st : Kahn)
  : Kahn :=
  match fuel with
  | O => st
  | S fuel' =>
      match queue st with
      | [] => st
      | nodeId :: rest => kahnLoop fuel' adj (iteration adj st nodeId rest)
      end
  end.

(** The state the loop starts from, and the loop given as many iterations as
    the in-degree map has keys. That is always enough: the loop leaves by its
    own test ([kahn_queue_empty]) and more iterations change nothing
    ([kahn_enough_fuel]). *)
Definition kahnStart (nodes : list Node) (edges : list Edge) : Kahn :=
  let deg := buildInDegree nodes edges in
  {| inDegree := deg; queue := seedQueue deg; result := [] |}.

Definition kahn (nodes : list Node) (edges : list Edge) : Kahn :=
  kahnLoop (List.length (buildInDegree nodes edges))
           (buildAdjacency nodes edges) (kahnStart nodes edges).

Definition cycleMessage : string :=
  "Workflow contains a cycle. Please check your connections.".

Definition buildExecutionOrder (nodes : list Node) (edges : list Edge)
  : Outcome (list string) :=
  let st := kahn nodes edges in
  if negb (Nat.eqb (List.length (result st)) (List.length nodes))
  then Thrown cycleMessage
  else Returned (result st).

(* ================================================================== *)
(** ** JavaScript operations on values *)
(* ================================================================== *)

(** Truthiness, as tested by [!x], [x || y] and [if (x)]. *)
Definition truthy (v : Value) : bool :=
  match v with
  | VUndefined | VNull => false
  | VBool b => b
  | VNum n => negb (Z.eqb n 0)
  | VStr s => negb (String.eqb s "")
  | VArr _ | VObj _ => true
  end.

(** [x || y] *)
Definition orElse (x y : Value) : Value := if truthy x then x else y.

(** [v?.name] (and [v.name] where [v] is known to be an object): a missing
    field, or a value that is not an object, gives [undefined]. *)
Definition field (name : string) (v : Value) : Value :=
  match v with
  | VObj fs =>
      match JsMap.get name fs with Some x => x | None => VUndefined end
  | _ => VUndefined
  end.

(** An optional string field read as a value, and its truthiness. *)
Definition ofOption (o : option string) : Value :=
  match o with Some s => VStr s | None => VUndefined end.

Definition present (o : option string) : bool := truthy (ofOption o).

(** [typeof v] *)
Definition typeOf (v : Value) : string :=
  match v with
  | VUndefined => "undefined"
  | VBool _ => "boolean"
  | VNum _ => "number"
  | VStr _ => "string"
  | VNull | VArr _ | VObj _ => "object"
  end.

Definition natToString (n : nat) : string :=
  NilEmpty.string_of_uint (Nat.to_uint n).

Definition numToString (n : Z) : string :=
  if Z.ltb n 0 then "-" +++ natToString (Z.abs_nat n) else natToString (Z.abs_nat n).

(** [Array.prototype.join] on strings. *)
Fixpoint join (sep : string) (items : list string) : string :=
  match items with
  | [] => ""
  | [x] => x
  | x :: rest => x +++ sep +++ join sep rest
  end.

(** [String(v)], the conversion a template literal applies. *)
Fixpoint toStr (v : Value) : string :=
  match v with
  | VUndefined => "undefined"
  | VNull => "null"
  | VBool b => if b then "true" else "false"
  | VNum n => numToString n
  | VStr s => s
  | VArr items =>
      join "," (map (fun x => match x with
                              | VUndefined | VNull => ""
                              | _ => toStr x
                              end) items)
  | VObj _ => "[object Object]"
  end.

(** The double-quote character, and a line feed. *)
Definition dquote : string := String (ascii_of_nat 34) "".
Definition newline : string := String (ascii_of_nat 10) "".

(** ['='.repeat(n)] and the like. *)
Fixpoint repeatString (s : string) (n : nat) : string :=
  match n with
  | O => ""
  | S n' => s +++ repeatString s n'
  end.

(* ================================================================== *)
(** ** Execution context, results, collaborators *)
(* ================================================================== *)

Record Network := { name : string }.

(** [ExecutionContext]. The three callbacks are not fields: calling one
    appends an [Event] to the executor's trace. [hasOnEdgeUpdate] tells
    whether the optional [onEdgeUpdate] was supplied. *)
Record ExecutionContext := {
  nodes : list Node;
  edges : list Edge;
  selectedNetwork : option Network;
  hasOnEdgeUpdate : bool
}.

(** [ExecutionResult]; [payload] is its [data] field, [VUndefined] when the
    field is omitted. *)
Record ExecutionResult := {
  success : bool;
  message : string;
  payload : Value
}.

Definition failure (msg : string) : ExecutionResult :=
  {| success := false; message := msg; payload := VUndefined |}.

Definition succeeded (msg : string) (d : Value) : ExecutionResult :=
  {| success := true; message := msg; payload := d |}.

(** A callback invocation. [HandlerCall] is not a callback: it marks the
    point where [executeNode] calls the handler named in it. *)
Inductive Event :=
| OnNodeStatus (nodeId : string) (status : Status)
| OnEdgeUpdate (updatedEdges : list Edge)
| OnNodeUpdate (nodeId : string) (patch : Value)
| HandlerCall (nodeId : string) (handler : string).

(** [CompilationResult] of the compiler service. *)
Record CompilationResult := {
  compiled : bool;                       (* success *)
  bytecode : option string;
  metadataBytes : option string;
  abi : Value;
  errors : option (list string);
  warnings : option (list string)
}.

Definition optField {A} (k : string) (f : A -> Value) (o : option A)
  : list (string * Value) :=
  match o with Some a => [(k, f a)] | None => [] end.

Definition stringsValue (l : list string) : Value := VArr (map VStr l).

(** The compiler's answer as the object the compile node stores. *)
Definition compilationValue (r : CompilationResult) : Value :=
  VObj ([("success", VBool (compiled r))]
        ++ optField "bytecode" VStr (bytecode r)
        ++ optField "metadataBytes" VStr (metadataBytes r)
        ++ (match abi r with VUndefined => [] | a => [("abi", a)] end)
        ++ optField "errors" stringsValue (errors r)
        ++ optField "warnings" stringsValue (warnings r)).

(** [DeploymentResult] of the chain client. *)
Record DeploymentResult := {
  deployed : bool;                       (* success *)
  contractAddress : option string;
  transactionHash : option string;
  deployError : option string            (* error *)
}.

Definition deploymentValue (r : DeploymentResult) : Value :=
  VObj ([("success", VBool (deployed r))]
        ++ optField "contractAddress" VStr (contractAddress r)
        ++ optField "transactionHash" VStr (transactionHash r)
        ++ optField "error" VStr (deployError r)).

(** The answer of [analyzeContract]. *)
Record AnalysisResult := {
  analyzed : bool;                       (* success *)
  response : Value;
  analysisError : option string          (* error *)
}.

(** What the world outside the executor answers while one node is in flight.
    [walletAddress] is the outcome of the wallet lookup of [executeCompile]
    ([window.aptos.account()] with the [localStorage] fallback); [account] of
    a wallet connection is all [executeDeploy] uses of it. *)
Record Collaborators := {
  isoTime : string;                      (* new Date().toISOString() *)
  localeTime : string;                   (* new Date().toLocaleString() *)
  validateMoveCode : string -> bool * option string;
  extractContractName : string -> option string;
  walletAddress : option string;
  compileContract : Value -> Value -> string -> CompilationResult;
  connectWallet : Outcome (option Value);
  jsonParse : Value -> Outcome Value;
  deployContract :
    string -> Value -> Value -> Value -> Value -> Outcome DeploymentResult;
  analyzeContract : Value -> string -> Outcome AnalysisResult
}.

(** The executor's own fields, and the trace of callbacks made so far. *)
Record Executor := {
  executionData : JsMap.t Value;
  stopped : bool;
  trace : list Event
}.

(** What a handler does: the [onNodeUpdate] calls it makes, then its
    result or the error it throws. *)
Definition Handler := (list Event * Outcome ExecutionResult)%type.

Definition ret (r : ExecutionResult) : Handler := ([], Returned r).

(* ================================================================== *)
(** ** The executor *)
(* ================================================================== *)

Section WorkflowExecutor.

(** [this.context]. *)
Variable context : ExecutionContext.

(** The collaborators' answers while the node with the given id is in
    flight. *)
Variable world : string -> Collaborators.

(** Whether [stop()] is called while the node with the given id is in flight,
    that is at one of the suspension points of its [executeNode]: the
    handler's calls to collaborators and the pacing delay after it. *)
Variable stopDuring : string -> bool.

(** [this.context.nodes.find((n) => n.id === nodeId)] *)
Definition findNode (nodeId : string) : option Node :=
  find (fun n => String.eqb (id n) nodeId) (nodes context).

(** [findPreviousData]: the first entry of the store, in insertion order,
    whose node has the given type; [null] when there is none. *)
Fixpoint findPreviousDataIn (entries : JsMap.t Value) (nodeType : string)
  : Value :=
  match entries with
  | [] => VNull
  | (nodeId, d) :: rest =>
      match findNode nodeId with
      | Some node =>
          if String.eqb (type (data node)) nodeType then d
          else findPreviousDataIn rest nodeType
      | None => findPreviousDataIn rest nodeType
      end
  end.

Definition findPreviousData (this : Executor) (nodeType : string) : Value :=
  findPreviousDataIn (executionData this) nodeType.

(** [updateEdgeStatus] *)
Definition updateEdge (nodeId : string) (status : Status) (edge : Edge) : Edge :=
  if String.eqb (source edge) nodeId then
    {| source := source edge; target := target edge;
       sourceStatus := Some status; targetStatus := targetStatus edge |}
  else if String.eqb (target edge) nodeId then
    {| source := source edge; target := target edge;
       sourceStatus := sourceStatus edge; targetStatus := Some status |}
  else edge.

Definition updateEdgeStatus (nodeId : string) (status : Status) : list Event :=
  if hasOnEdgeUpdate context
  then [OnEdgeUpdate (map (updateEdge nodeId status) (edges context))]
  else [].

(** *** generateSummary *)

Definition summaryLines (this : Executor) (now : string) : list string :=
  let projectData := findPreviousData this "projectCreate" in
  let contractData := findPreviousData this "contractInput" in
  let compileData := findPreviousData this "compile" in
  let deployData := findPreviousData this "deploy" in
  let aiData := findPreviousData this "aiAudit" in
  ["Workflow Execution Summary"; repeatString "=" 40; ""]
  ++ (if truthy projectData then
        ["Project: " +++ toStr (field "title" projectData)]
        ++ (if truthy (field "description" projectData)
            then ["Description: " +++ toStr (field "description" projectData)]
            else [])
        ++ [""]
      else [])
  ++ (if truthy contractData
      then ["Contract Name: " +++ toStr (field "contractName" contractData)]
      else [])
  ++ (if truthy compileData then ["✓ Compilation: Success"] else [])
  ++ (if truthy deployData then
        ["✓ Deployment: Success"]
        ++ (if truthy (field "contractAddress" deployData)
            then ["  Contract Address: "
                    +++ toStr (field "contractAddress" deployData)]
            else [])
        ++ (if truthy (field "transactionHash" deployData)
            then ["  Transaction Hash: "
                    +++ toStr (field "transactionHash" deployData)]
            else [])
        ++ (match selectedNetwork context with
            | Some network => ["  Network: " +++ name network]
            | None => []
            end)
      else [])
  ++ (if truthy aiData then ["✓ AI Analysis: Completed"] else [])
  ++ [""; "Execution completed at: " +++ now].

Definition generateSummary (this : Executor) (now : string) : string :=
  join newline (summaryLines this now).

(** *** The eight handlers *)

Definition executeProjectCreate (node : Node) : Handler :=
  let nodeData := data node in
  match projectTitle nodeData with
  | Some title =>
      if negb (present (projectTitle nodeData))
      then ret (failure "Project title is required")
      else ret (succeeded "Project initialized"
             (VObj [("title", VStr title);
                    ("description",
                     orElse (ofOption (projectDescription nodeData)) (VStr ""));
                    ("timestamp", VStr (isoTime (world (id node))))]))
  | None => ret (failure "Project title is required")
  end.

Definition executeContractInput (node : Node) : Handler :=
  let nodeData := data node in
  match contractCode nodeData with
  | None => ret (failure "Contract code is required")
  | Some code =>
      if negb (present (contractCode nodeData))
      then ret (failure "Contract code is required")
      else
        let validation := validateMoveCode (world (id node)) code in
        if negb (fst validation) then
          ret (failure (toStr (orElse (ofOption (snd validation))
                                      (VStr "Invalid Move code"))))
        else if present (contractName nodeData) then
          ret (succeeded "Contract code validated"
                 (VObj [("contractCode", VStr code);
                        ("contractName", ofOption (contractName nodeData))]))
        else
          let extracted := extractContractName (world (id node)) code in
          if negb (present extracted) then
            ret (failure
              "Could not extract contract name. Please specify it manually.")
          else
            ([OnNodeUpdate (id node)
                (VObj [("contractName", ofOption extracted)])],
             Returned (succeeded "Contract code validated"
                 (VObj [("contractCode", VStr code);
                        ("contractName", ofOption extracted)])))
  end.

(** The formatting of one compiler error: "Truncate very long errors". *)
Definition formatError (err : string) : string :=
  if Nat.ltb 500 (String.length err)
  then substring 0 500 err +++ "... (truncated)"
  else err.

Definition executeCompile (this : Executor) (node : Node) : Handler :=
  let contractData := findPreviousData this "contractInput" in
  if negb (truthy (field "contractCode" contractData)) then
    ret (failure
      "No contract code found. Please add a Contract Input node before compilation.")
  else
    match walletAddress (world (id node)) with
    | None =>
        ret (failure
          ("Wallet not connected. Please connect your wallet before compiling. Click "
           +++ dquote +++ "Connect Wallet" +++ dquote +++ " in the top bar."))
    | Some address =>
        if negb (present (Some address)) then
          ret (failure
            ("Wallet not connected. Please connect your wallet before compiling. Click "
             +++ dquote +++ "Connect Wallet" +++ dquote +++ " in the top bar."))
        else
          let result := compileContract (world (id node))
                          (field "contractCode" contractData)
                          (orElse (field "contractName" contractData)
                                  (VStr "MyModule"))
                          address in
          if negb (compiled result) then
            let errorMessage :=
              match errors result with
              | Some errs =>
                  if Nat.ltb 0 (List.length errs)
                  then join (newline +++ newline) (map formatError errs)
                  else "Compilation failed"
              | None => "Compilation failed"
              end in
            ret (failure errorMessage)
          else
            ([OnNodeUpdate (id node)
                (VObj [("compilationResult", compilationValue result)])],
             Returned (succeeded "Contract compiled successfully"
                                 (compilationValue result)))
    end.

Definition executeGenerateABI (this : Executor) (node : Node) : Handler :=
  let compilationResult := findPreviousData this "compile" in
  if negb (truthy (field "abi" compilationResult)) then
    ret (failure
      "No compilation result found. Please compile the contract first.")
  else
    ([OnNodeUpdate (id node) (VObj [("abi", field "abi" compilationResult)])],
     Returned (succeeded "ABI generated successfully"
                         (VObj [("abi", field "abi" compilationResult)]))).

Definition executeGenerateBytecode (this : Executor) (node : Node) : Handler :=
  let compilationResult := findPreviousData this "compile" in
  if negb (truthy compilationResult) then
    ret (failure
      "No compilation result found. Please compile the contract first.")
  else
    let bytecode :=
      orElse (field "bytecode" compilationResult)
        (orElse (field "bytecode" (field "data" compilationResult))
                (field "bytecode" (field "compilationResult" compilationResult)))
    in
    if negb (truthy bytecode) then
      ret (failure
        "No bytecode found in compilation result. Please ensure compilation completed successfully.")
    else
      match bytecode with
      | VStr "" | VStr "0x" =>
          ret (failure
            "Bytecode is empty. Please ensure compilation completed successfully.")
      | _ =>
          ([OnNodeUpdate (id node) (VObj [("bytecode", bytecode)])],
           Returned (succeeded "Bytecode generated successfully"
                               (VObj [("bytecode", bytecode)])))
      end.

Definition isString (v : Value) : bool :=
  match v with VStr _ => true | _ => false end.

Definition isArray (v : Value) : bool :=
  match v with VArr _ => true | _ => false end.

Definition executeDeploy (this : Executor) (node : Node) : Handler :=
  let nodeData := data node in
  let bytecodeData := findPreviousData this "generateBytecode" in
  let contractData := findPreviousData this "contractInput" in
  let compilationResult := findPreviousData this "compile" in
  let fromBytecodeNode :=
    orElse (field "bytecode" bytecodeData)
           (field "bytecode" (field "data" bytecodeData)) in
  let bytecode :=
    if truthy fromBytecodeNode then fromBytecodeNode
    else orElse (field "bytecode" compilationResult)
                (field "bytecode" (field "data" compilationResult)) in
  if negb (truthy bytecode) then
    ret (failure
      "Bytecode is required. Please compile the contract and generate bytecode first. Check console for details.")
  else
    let metadata :=
      orElse (field "metadataBytes" compilationResult)
             (field "metadataBytes" (field "data" compilationResult)) in
    (* the log line calls [metadataBytes.substring(0, 50)] *)
    if truthy metadata && negb (isString metadata) then
      ([], Thrown "metadataBytes.substring is not a function")
    else if negb (truthy (field "contractName" contractData)) then
      ret (failure "Module name is required for deployment.")
    else
      match selectedNetwork context with
      | None =>
          ret (failure
            "No network selected. Please select a network from the top bar.")
      | Some _ =>
          match connectWallet (world (id node)) with
          | Thrown e => ([], Thrown e)
          | Returned None =>
              ret (failure
                "Failed to connect wallet. Please connect Petra wallet.")
          | Returned (Some account) =>
              let given := orElse (constructorArgs nodeData) (VArr []) in
              let args :=
                if isArray given then given
                else match jsonParse (world (id node)) given with
                     | Returned parsed => parsed
                     | Thrown _ => VArr []
                     end in
              match bytecode with
              | VStr code =>
                  if String.eqb code "" || String.eqb code "0x"
                     || Nat.leb (String.length code) 2
                  then
                    ret (failure
                      ("Bytecode is empty or invalid (length: "
                       +++ natToString (String.length code)
                       +++ "). Please ensure compilation completed successfully and generated valid bytecode."))
                  else
                    match deployContract (world (id node)) code
                            (field "contractName" contractData)
                            args account metadata with
                    | Thrown e => ([], Thrown e)
                    | Returned deployResult =>
                        if negb (deployed deployResult) then
                          ret (failure
                            (toStr (orElse (ofOption (deployError deployResult))
                                           (VStr "Deployment failed"))))
                        else
                          ([OnNodeUpdate (id node)
                              (VObj [("deployedAddress",
                                      ofOption (contractAddress deployResult));
                                     ("transactionHash",
                                      ofOption (transactionHash deployResult))])],
                           Returned
                             (succeeded "Contract deployed successfully"
                                        (deploymentValue deployResult)))
                    end
              | other =>
                  ret (failure
                    ("Invalid bytecode type: " +++ typeOf other
                     +++ ". Expected string."))
              end
          end
      end.

Definition executeAIAudit (this : Executor) (node : Node) : Handler :=
  let nodeData := data node in
  let contractData := findPreviousData this "contractInput" in
  if negb (truthy (field "contractCode" contractData)) then
    ret (failure "No contract code found for analysis.")
  else
    let prompt :=
      toStr (orElse (ofOption (aiPrompt nodeData))
        (VStr "Analyze this smart contract for security vulnerabilities and suggest improvements."))
    in
    match analyzeContract (world (id node))
            (field "contractCode" contractData) prompt with
    | Thrown e => ([], Thrown e)
    | Returned result =>
        if negb (analyzed result) then
          ret (failure (toStr (orElse (ofOption (analysisError result))
                                      (VStr "AI analysis failed"))))
        else
          ([OnNodeUpdate (id node) (VObj [("aiResponse", response result)])],
           Returned (succeeded "AI analysis completed"
                               (VObj [("response", response result)])))
    end.

Definition executeCompletion (this : Executor) (node : Node) : Handler :=
  let summary := generateSummary this (localeTime (world (id node))) in
  ([OnNodeUpdate (id node) (VObj [("summary", VStr summary)])],
   Returned (succeeded "Workflow completed" (VObj [("summary", VStr summary)]))).

(** *** executeNode *)

(** The [switch (nodeType)]: the handler's name and what it does, or [None]
    in the [default] case. *)
Definition dispatch (this : Executor) (node : Node)
  : option (string * Handler) :=
  let nodeType := type (data node) in
  if String.eqb nodeType "projectCreate" then
    Some ("executeProjectCreate", executeProjectCreate node)
  else if String.eqb nodeType "contractInput" then
    Some ("executeContractInput", executeContractInput node)
  else if String.eqb nodeType "compile" then
    Some ("executeCompile", executeCompile this node)
  else if String.eqb nodeType "generateABI" then
    Some ("executeGenerateABI", executeGenerateABI this node)
  else if String.eqb nodeType "generateBytecode" then
    Some ("executeGenerateBytecode", executeGenerateBytecode this node)
  else if String.eqb nodeType "deploy" then
    Some ("executeDeploy", executeDeploy this node)
  else if String.eqb nodeType "aiAudit" then
    Some ("executeAIAudit", executeAIAudit this node)
  else if String.eqb nodeType "completion" then
    Some ("executeCompletion", executeCompletion this node)
  else None.

(** The events of the [try] block up to [result] being assigned, and the
    outcome of that part. *)
Definition runHandler (this : Executor) (node : Node) : Handler :=
  match dispatch this node with
  | Some (handler, (updates, outcome)) =>
      (HandlerCall (id node) handler :: updates, outcome)
  | None =>
      ret (failure ("Unknown node type: " +++ type (data node)))
  end.

(** The status callbacks after the handler: on a result, by its [success]
    flag; in the [catch] block, [error]. *)
Definition settle (node : Node) (outcome : Outcome ExecutionResult)
  : list Event :=
  match outcome with
  | Returned result =>
      if success result then
        [OnNodeStatus (id node) Success]
        ++ updateEdgeStatus (id node) Success
        ++ [OnNodeUpdate (id node) (VObj [("output", payload result)])]
      else
        [OnNodeStatus (id node) Error]
        ++ updateEdgeStatus (id node) Error
        ++ [OnNodeUpdate (id node) (VObj [("error", VStr (message result))])]
  | Thrown e =>
      [OnNodeStatus (id node) Error]
      ++ updateEdgeStatus (id node) Error
      ++ [OnNodeUpdate (id node) (VObj [("error", VStr e)])]
  end.

(** What [executeNode] returns: the handler's result, or in the [catch]
    block [error.message || 'Node execution failed']. *)
Definition nodeResult (outcome : Outcome ExecutionResult) : ExecutionResult :=
  match outcome with
  | Returned result => result
  | Thrown e =>
      failure (if String.eqb e "" then "Node execution failed" else e)
  end.

Definition executeNode (this : Executor) (node : Node)
  : Executor * ExecutionResult :=
  let started :=
    [OnNodeStatus (id node) Running] ++ updateEdgeStatus (id node) Running in
  let handled := runHandler this node in
  ({| executionData := executionData this;
      stopped := stopped this || stopDuring (id node);
      trace := trace this ++ started ++ fst handled
                 ++ settle node (snd handled) |},
   nodeResult (snd handled)).

(** *** execute *)

Definition stoppedMessage : string := "Workflow execution stopped by user".

Definition failedAt (node : Node) (result : ExecutionResult) : string :=
  "Failed at node " +++ dquote +++ label (data node) +++ dquote +++ ": "
  +++ message result.

(** [this.executionData.set(nodeId, result.data)] *)
Definition recordOutput (this : Executor) (nodeId : string)
  (result : ExecutionResult) : Executor :=
  {| executionData := JsMap.set nodeId (payload result) (executionData this);
     stopped := stopped this;
     trace := trace this |}.

(** The [for (const nodeId of executionOrder)] loop: [Some] result when the
    loop body returns from [execute], [None] when the loop runs to its end. *)
Fixpoint runNodes (executionOrder : list string) (this : Executor)
  : Executor * option ExecutionResult :=
  match executionOrder with
  | [] => (this, None)
  | nodeId :: rest =>
      if stopped this then (this, Some (failure stoppedMessage))
      else
        match findNode nodeId with
        | None => runNodes rest this
        | Some node =>
            let (this1, result) := executeNode this node in
            if negb (success result) then
              (this1, Some (failure (failedAt node result)))
            else runNodes rest (recordOutput this1 nodeId result)
        end
  end.

(** The executor as [execute] resets it; the trace of a run starts empty. *)
Definition fresh : Executor :=
  {| executionData := JsMap.empty Value; stopped := false; trace := [] |}.

(** The clock reading of the final [generateSummary]. *)
Variable finishedAt : string.

Definition execute : Executor * ExecutionResult :=
  match buildExecutionOrder (nodes context) (edges context) with
  | Thrown e =>
      (fresh,
       failure (if String.eqb e ""
                then "Unknown error during workflow execution" else e))
  | Returned executionOrder =>
      if Nat.eqb (List.length executionOrder) 0 then
        (fresh,
         failure "No nodes to execute. Please add nodes to your workflow.")
      else
        match runNodes executionOrder fresh with
        | (this, Some failed) => (this, failed)
        | (this, None) =>
            let summary := generateSummary this finishedAt in
            (this,
             succeeded "Workflow executed successfully"
               (VObj [("summary", VStr summary);
                      ("executionData", VObj (executionData this))]))
        end
  end.

End WorkflowExecutor.

(* ================================================================== *)
(** ** Vocabulary of the properties *)
(* ================================================================== *)

Definition ids (nodes : list Node) : list string := map id nodes.

(** The in-degree the loop reads for a key: [inDegree.get(k) || 0]. *)
Definition deg (st : Kahn) (k : string) : Z :=
  orZero (JsMap.get k (inDegree st)).

Definition occurrences (ns : list string) (k : string) : Z :=
  Z.of_nat (count_occ string_dec ns k).

(** [adjacencyList.get(h)], an absent entry read as no successor. *)
Definition successors (adj : JsMap.t (list string)) (h : string)
  : list string :=
  match JsMap.get h adj with Some succs => succs | None => [] end.

(** The state an iteration works on once the head is moved to the result. *)
Definition dequeued (st : Kahn) (h : string) (rest : list string) : Kahn :=
  {| inDegree := inDegree st; queue := rest; result := result st ++ [h] |}.

(** Edges reference only existing node ids. *)
Definition wellFormed (nodes : list Node) (edges : list Edge) : Prop :=
  forall e, In e edges ->
    In (source e) (ids nodes) /\ In (target e) (ids nodes).

(** The dependency relation of the edges, cycles, acyclic graphs. *)
Definition edgeRel (edges : list Edge) : relation string :=
  fun s t => exists e, In e edges /\ source e = s /\ target e = t.

Definition onCycle (edges : list Edge) (v : string) : Prop :=
  clos_trans string (edgeRel edges) v v.

Definition acyclic (edges : list Edge) : Prop :=
  forall v, ~ onCycle edges v.

Definition cyclic (edges : list Edge) : Prop :=
  exists v, onCycle edges v.

(** [Array.prototype.indexOf], [None] for -1. *)
Fixpoint indexOf (x : string) (l : list string) : option nat :=
  match l with
  | [] => None
  | y :: l' =>
      if String.eqb y x then Some O
      else match indexOf x l' with Some i => Some (S i) | None => None end
  end.

(** Both are in [l], and [a]'s index is strictly smaller than [b]'s. *)
Definition precedes (l : list string) (a b : string) : Prop :=
  exists i j, indexOf a l = Some i /\ indexOf b l = Some j /\ i < j.

(** Number of edges into [k] (the in-degree of [k] in the graph). *)
Definition incoming (edges : list Edge) (k : string) : nat :=
  List.length (filter (fun e => String.eqb (target e) k) edges).

(** Number of edges into [k] whose source is not in [done]. *)
Definition pending (edges : list Edge) (done : list string) (k : string)
  : nat :=
  List.length
    (filter (fun e => String.eqb (target e) k
                      && negb (existsb (String.eqb (source e)) done)) edges).

(** Number of edges from [h] to [k]. *)
Definition links (edges : list Edge) (h k : string) : nat :=
  List.length
    (filter (fun e => String.eqb (source e) h && String.eqb (target e) k)
            edges).

(** What holds of every state of Kahn's loop, on any input: nothing is
    queued or output twice, whatever is queued or output has in-degree at most
    0, and keys with a positive in-degree belong to the fixed list [K]. *)
Definition LoopInv (K : list string) (st : Kahn) : Prop :=
  NoDup (result st ++ queue st)
  /\ (forall k, In k (result st ++ queue st) -> (deg st k <= 0)%Z /\ In k K)
  /\ (forall k, (1 <= deg st k)%Z -> In k K).

(** What holds in addition on a well-formed graph. *)
Definition GraphInv (nodes : list Node) (edges : list Edge) (st : Kahn)
  : Prop :=
  (forall k, In k (result st ++ queue st) -> In k (ids nodes))
  /\ (forall k, deg st k = Z.of_nat (pending edges (result st) k))
  /\ (forall k, In k (ids nodes) -> deg st k = 0%Z ->
        In k (result st ++ queue st))
  /\ (forall e, In e edges -> In (target e) (result st) ->
        precedes (result st) (source e) (target e)).

(** The targets of the edges that leave [h], in edge order. *)
Definition targetsFrom (edges : list Edge) (h : string) : list string :=
  map target (filter (fun e => String.eqb (source e) h) edges).

(** Consecutive elements of the list are related. *)
Fixpoint linked (R : relation string) (path : list string) : Prop :=
  match path with
  | a :: (b :: _) as path' => R a b /\ linked R path'
  | _ => True
  end.


(* ================================================================== *)
(** ** Sample nodes and collaborators, used to exercise the statements *)
(* ================================================================== *)

(** A node that carries nothing but its id (also its label) and its type. *)
Definition plainNode (i ty : string) : Node :=
  {| id := i;
     data := {| label := i; type := ty;
                projectTitle := None; projectDescription := None;
                contractCode := None; contractName := None;
                constructorArgs := VUndefined; aiPrompt := None |} |}.

(** A project-create node with a title. *)
Definition projectNode (i title : string) : Node :=
  {| id := i;
     data := {| label := i; type := "projectCreate";
                projectTitle := Some title; projectDescription := None;
                contractCode := None; contractName := None;
                constructorArgs := VUndefined; aiPrompt := None |} |}.

(** Collaborators that refuse everything. *)
Definition offline : Collaborators :=
  {| isoTime := "2024-01-01T00:00:00.000Z";
     localeTime := "1/1/2024, 12:00:00 AM";
     validateMoveCode := fun _ => (false, None);
     extractContractName := fun _ => None;
     walletAddress := None;
     compileContract := fun _ _ _ =>
       {| compiled := false; bytecode := None; metadataBytes := None;
          abi := VUndefined; errors := None; warnings := None |};
     connectWallet := Thrown "Failed to connect wallet";
     jsonParse := fun _ => Thrown "Unexpected token";
     deployContract := fun _ _ _ _ _ => Thrown "offline";
     analyzeContract := fun _ _ => Thrown "offline" |}.

Definition graphOf (ns : list Node) (es : list Edge) : ExecutionContext :=
  {| nodes := ns; edges := es; selectedNetwork := None;
     hasOnEdgeUpdate := true |}.

(** A loop state whose in-degree map has further entries after its own. *)
Definition withEntries (st : Kahn) (tail : JsMap.t Z) : Kahn :=
  {| inDegree := inDegree st ++ tail; queue := queue st;
     result := result st |}.

(* ================================================================== *)
(** ** Reading a trace *)
(* ================================================================== *)

(** The status a listener holds for a node after the callbacks of a trace,
    starting from [s]: the status of the last [onNodeStatus] for that node. *)
Fixpoint statusFrom (s : Status) (events : list Event) (nodeId : string)
  : Status :=
  match events with
  | [] => s
  | OnNodeStatus n s' :: rest =>
      if String.eqb n nodeId then statusFrom s' rest nodeId
      else statusFrom s rest nodeId
  | _ :: rest => statusFrom s rest nodeId
  end.

(** Every node is [idle] when a run starts. *)
Definition statusOf (events : list Event) (nodeId : string) : Status :=
  statusFrom Idle events nodeId.

(** What happens to one node along a trace: the statuses it is given and
    the calls of its handler, in order. *)
Inductive Step := Became (s : Status) | Called.

Fixpoint lifecycle (events : list Event) (nodeId : string) : list Step :=
  match events with
  | [] => []
  | OnNodeStatus n s :: rest =>
      if String.eqb n nodeId then Became s :: lifecycle rest nodeId
      else lifecycle rest nodeId
  | HandlerCall n _ :: rest =>
      if String.eqb n nodeId then Called :: lifecycle rest nodeId
      else lifecycle rest nodeId
  | _ :: rest => lifecycle rest nodeId
  end.

(** The ids of the nodes whose handler was called, in order. *)
Fixpoint handlerCalls (events : list Event) : list string :=
  match events with
  | [] => []
  | HandlerCall n _ :: rest => n :: handlerCalls rest
  | _ :: rest => handlerCalls rest
  end.

(** Events that neither set a node status nor call a handler. *)
Definition isUpdate (ev : Event) : Prop :=
  match ev with
  | OnNodeUpdate _ _ | OnEdgeUpdate _ => True
  | OnNodeStatus _ _ | HandlerCall _ _ => False
  end.

(** The life of a node within one run: untouched; or set to running, its
    handler called, then set to success or to error; or, for a node of
    unknown type, set to running then to error with no handler called. *)
Definition strictLifecycle (steps : list Step) : Prop :=
  steps = []
  \/ steps = [Became Running; Called; Became Success]
  \/ steps = [Became Running; Called; Became Error]
  \/ steps = [Became Running; Became Error].

(** A handler outcome that makes the node fail: a result with
    [success: false], or a thrown error. *)
Definition fails (outcome : Outcome ExecutionResult) : Prop :=
  match outcome with
  | Returned r => success r = false
  | Thrown _ => True
  end.

(** The eight node types [executeNode] knows. *)
Definition knownTypes : list string :=
  ["projectCreate"; "contractInput"; "compile"; "generateABI";
   "generateBytecode"; "deploy"; "aiAudit"; "completion"].

(** The status a node ends in, read off its life, starting from [s]. *)
Definition finalStatus (s : Status) (steps : list Step) : Status :=
  fold_left (fun acc step => match step with
                             | Became s' => s'
                             | Called => acc
                             end) steps s.

(** Sample workflows. *)

(** A project, then a project-create node with no title, then a completion
    node. *)
Definition sampleFailing : ExecutionContext :=
  graphOf [projectNode "p" "Demo"; plainNode "q" "projectCreate";
           plainNode "r" "completion"]
          [mkEdge "p" "q"; mkEdge "q" "r"].

(** A contract-input node that holds code and a name. *)
Definition codeNode (i code moduleName : string) : Node :=
  {| id := i;
     data := {| label := i; type := "contractInput";
                projectTitle := None; projectDescription := None;
                contractCode := Some code; contractName := Some moduleName;
                constructorArgs := VUndefined; aiPrompt := None |} |}.

(** Collaborators that accept any code and whose AI service throws. *)
Definition auditDown : Collaborators :=
  {| isoTime := isoTime offline;
     localeTime := localeTime offline;
     validateMoveCode := fun _ => (true, None);
     extractContractName := extractContractName offline;
     walletAddress := walletAddress offline;
     compileContract := compileContract offline;
     connectWallet := connectWallet offline;
     jsonParse := jsonParse offline;
     deployContract := deployContract offline;
     analyzeContract := fun _ _ => Thrown "AI service unavailable" |}.

(** A contract, then an AI audit whose service throws, then a completion
    node. *)
Definition sampleThrowing : ExecutionContext :=
  graphOf [codeNode "s" "module Deployer::m {}" "m"; plainNode "a" "aiAudit";
           plainNode "r" "completion"]
          [mkEdge "s" "a"; mkEdge "a" "r"].

(** A project, then a node of a type the executor does not know. *)
Definition sampleUnknown : ExecutionContext :=
  graphOf [projectNode "p" "Demo"; plainNode "u" "mystery"]
          [mkEdge "p" "u"].

(** A chain of three project-create nodes. *)
Definition sampleChain : ExecutionContext :=
  graphOf [projectNode "one" "First"; projectNode "two" "Second";
           projectNode "three" "Third"]
          [mkEdge "one" "two"; mkEdge "two" "three"].

(** A self-loop on [a], and an edge from [b] to an id that is no node. *)
Definition sampleLoopAndDangling : ExecutionContext :=
  graphOf [plainNode "a" "completion"; projectNode "b" "Demo"]
          [mkEdge "a" "a"; mkEdge "b" "y"].

(** One node and an edge from it to an id that is no node. *)
Definition sampleDangling : ExecutionContext :=
  graphOf [projectNode "a" "Demo"] [mkEdge "a" "y"].

Definition everywhere (c : Collaborators) : string -> Collaborators :=
  fun _ => c.

Definition never : string -> bool := fun _ => false.

(** Two project-create nodes, then a completion node. *)
Definition sampleTwoProjects : ExecutionContext :=
  graphOf [projectNode "one" "First"; projectNode "two" "Second";
           plainNode "done" "completion"]
          [mkEdge "one" "two"; mkEdge "two" "done"].

(** No entry of [front] belongs to a node of type [T]. *)
Definition typeFree (context : ExecutionContext) (T : string)
  (front : JsMap.t Value) : Prop :=
  forall j n, In j (JsMap.keys front) -> findNode context j = Some n ->
              type (data n) <> T.

(** The store holds [d1] for [i1], and no entry before it belongs to a node
    of type [T]. *)
Definition firstOfType (context : ExecutionContext) (T i1 : string)
  (d1 : Value) (store : JsMap.t Value) : Prop :=
  exists front back,
    store = front ++ (i1, d1) :: back
    /\ ~ In i1 (JsMap.keys front)
    /\ typeFree context T front.

(** The same context with other edges. *)
Definition withEdges (context : ExecutionContext) (es : list Edge)
  : ExecutionContext :=
  {| nodes := nodes context; edges := es;
     selectedNetwork := selectedNetwork context;
     hasOnEdgeUpdate := hasOnEdgeUpdate context |}.

(** Two executor states that differ at most in their trace. *)
Definition sameFields (a b : Executor) : Prop :=
  executionData a = executionData b /\ stopped a = stopped b.

(** A compile node, a store that holds the output of a contract-input node
    "src", and a compiler that reports one error of 1000 characters and a
    short one. *)
Definition sampleCompile : ExecutionContext :=
  graphOf [plainNode "src" "contractInput"; plainNode "cc" "compile"]
          [mkEdge "src" "cc"].

Definition afterContractInput : Executor :=
  {| executionData :=
       [("src", VObj [("contractCode", VStr "module Deployer::m {}");
                      ("contractName", VStr "m")])];
     stopped := false;
     trace := [] |}.

Definition longError : string := repeatString "e" 1000.

Definition rejecting : Collaborators :=
  {| isoTime := isoTime offline;
     localeTime := localeTime offline;
     validateMoveCode := validateMoveCode offline;
     extractContractName := extractContractName offline;
     walletAddress := Some "0x1";
     compileContract := fun _ _ _ =>
       {| compiled := false; bytecode := None; metadataBytes := None;
          abi := VUndefined; errors := Some [longError; "error[E1]: bad type"];
          warnings := None |};
     connectWallet := connectWallet offline;
     jsonParse := jsonParse offline;
     deployContract := deployContract offline;
     analyzeContract := analyzeContract offline |}.




(* ================================================================== *)
(** ** Strings as the parsers read them *)
(* ================================================================== *)

(** Character classes of the regular expressions in the source. *)
Definition charCode (c : ascii) : nat := nat_of_ascii c.

Definition between (lo hi n : nat) : bool := Nat.leb lo n && Nat.leb n hi.

(** [\d] and [0-9] *)
Definition isDigit (c : ascii) : bool := between 48 57 (charCode c).

(** [0-9a-fA-F] *)
Definition isHexDigit (c : ascii) : bool :=
  isDigit c || between 65 70 (charCode c) || between 97 102 (charCode c).

(** [\w]: letters, digits and the underscore. *)
Definition isWordChar (c : ascii) : bool :=
  isDigit c || between 65 90 (charCode c) || between 97 122 (charCode c)
  || Nat.eqb (charCode c) 95.

(** [\s], also what [trim] removes: tab, line feed, vertical tab, form feed,
    carriage return, space, no-break space (the white space and line
    terminators among the code units below 256). *)
Definition isWhiteSpace (c : ascii) : bool :=
  between 9 13 (charCode c) || Nat.eqb (charCode c) 32
  || Nat.eqb (charCode c) 160.

Fixpoint allChars (p : ascii -> bool) (s : string) : bool :=
  match s with
  | EmptyString => true
  | String c s' => p c && allChars p s'
  end.

(** [s.startsWith(p)] *)
Fixpoint startsWith (s p : string) {struct p} : bool :=
  match p, s with
  | EmptyString, _ => true
  | String c p', String d s' => Ascii.eqb d c && startsWith s' p'
  | String _ _, EmptyString => false
  end.

(** [hay.includes(needle)] *)
Fixpoint includes (hay needle : string) : bool :=
  startsWith hay needle
  || match hay with
     | EmptyString => false
     | String _ hay' => includes hay' needle
     end.

(** [s.slice(n)] for a non-negative [n]. *)
Fixpoint drop (n : nat) (s : string) : string :=
  match n, s with
  | O, _ => s
  | S n', String _ s' => drop n' s'
  | S _, EmptyString => EmptyString
  end.

(** [toLowerCase] on code units below 256: A-Z and the accented capitals
    192-222 (but the multiplication sign 215) move up by 32. *)
Definition lowerChar (c : ascii) : ascii :=
  let n := charCode c in
  if between 65 90 n || (between 192 222 n && negb (Nat.eqb n 215))
  then ascii_of_nat (n + 32) else c.

Fixpoint toLowerCase (s : string) : string :=
  match s with
  | EmptyString => EmptyString
  | String c s' => String (lowerChar c) (toLowerCase s')
  end.

(** The longest run of characters of a class at the head of a string, and
    what follows it. *)
Fixpoint takeWhile (p : ascii -> bool) (s : string) : string :=
  match s with
  | String c s' => if p c then String c (takeWhile p s') else EmptyString
  | EmptyString => EmptyString
  end.

Fixpoint dropWhile (p : ascii -> bool) (s : string) : string :=
  match s with
  | String c s' => if p c then dropWhile p s' else s
  | EmptyString => EmptyString
  end.

Definition isEmpty (s : string) : bool := String.eqb s "".

(* ================================================================== *)
(** ** Constructor parameters (src/lib/constructorParser.ts, first part) *)
(* ================================================================== *)

Module ConstructorParam.

(** [ConstructorParam] *)
Record t := {
  name : string;
  type : string;
  description : option string;
  placeholder : option string
}.

End ConstructorParam.

(** The callback [(f) => f.includes('init')] applied to one element: a
    string searches itself, an array searches its elements for the string
    'init'; anything else has no [includes] and the call throws. *)
Definition includesInit (f : Value) : Outcome bool :=
  match f with
  | VStr s => Returned (includes s "init")
  | VArr items =>
      Returned (existsb (fun x => match x with
                                  | VStr s => String.eqb s "init"
                                  | _ => false
                                  end) items)
  | VUndefined | VNull =>
      Thrown "Cannot read properties of undefined (reading 'includes')"
  | _ => Thrown "f.includes is not a function"
  end.

(** [functions.find((f) => f.includes('init'))] on an array. *)
Fixpoint findInit (items : list Value) : Outcome (option Value) :=
  match items with
  | [] => Returned None
  | f :: rest =>
      match includesInit f with
      | Thrown e => Thrown e
      | Returned true => Returned (Some f)
      | Returned false => findInit rest
      end
  end.

Definition extractConstructorParams (abi : Value) : list ConstructorParam.t :=
  if negb (truthy abi) || negb (truthy (field "functions" abi)) then []
  else
    match (match field "functions" abi with
           | VArr items => findInit items
           | _ => Thrown "abi.functions.find is not a function"
           end) with
    | Returned None => []
    | Returned (Some initModule) =>
        if negb (truthy initModule) then [] else []
    | Thrown _ => []
    end.

(** The defaults by type that end [getDefaultValue]. *)
Definition defaultByType (type : string) : string :=
  if String.eqb type "address" then "0x0"
  else if String.eqb type "u64" || String.eqb type "u128"
          || String.eqb type "u256" || startsWith type "u" then "0"
  else if String.eqb type "string" then ""
  else if String.eqb type "bool" then "false"
  else if String.eqb type "vector" then "[]"
  else "".

(** [getDefaultValue(type, name)]; [nowMs] is the reading of [Date.now()]
    (printed in decimal, as JavaScript prints integers below 10^21). *)
Definition getDefaultValue (nowMs : Z) (type : string) (name : option string)
  : string :=
  match name with
  | Some n =>
      if isEmpty n then defaultByType type
      else
        let lowerName := toLowerCase n in
        if includes lowerName "name" && String.eqb type "string"
        then "MyToken"
        else if includes lowerName "symbol" && String.eqb type "string"
        then "MTK"
        else if includes lowerName "supply" then "1000000"
        else if includes lowerName "timestamp" || includes lowerName "startat"
        then numToString (nowMs / 1000)
        else if includes lowerName "endat" || includes lowerName "deadline"
        then numToString (nowMs / 1000 + 30 * 24 * 60 * 60)
        else if includes lowerName "price"
                && (String.eqb type "u64" || String.eqb type "u128")
        then "10000000"
        else if includes lowerName "goal"
                && (String.eqb type "u64" || String.eqb type "u128")
        then "10000000000"
        else defaultByType type
  | None => defaultByType type
  end.

(** [/^0x[0-9a-fA-F]+$/.test(value)] *)
Definition isHexAddress (value : string) : bool :=
  startsWith value "0x"
  && negb (isEmpty (drop 2 value)) && allChars isHexDigit (drop 2 value).

(** [/^\d+$/.test(value)] *)
Definition isDigits (value : string) : bool :=
  negb (isEmpty value) && allChars isDigit value.

(** [validateConstructorArg(value, type)]: the pair is [valid] and [error].
    [parse] stands for [JSON.parse]. [BigInt(value)] does not throw on a
    string of digits, so the outer [catch] is never entered. *)
Definition validateConstructorArg (parse : string -> Outcome Value)
  (value type : string) : bool * option string :=
  if isEmpty value && negb (String.eqb type "string")
  then (false, Some "Value is required")
  else if String.eqb type "address" then
    if negb (startsWith value "0x") || Nat.ltb (String.length value) 3
    then (false, Some "Invalid Aptos address")
    else if negb (isHexAddress value)
    then (false, Some "Invalid hex address format")
    else (true, None)
  else if startsWith type "u" || startsWith type "u64"
          || startsWith type "u128" || startsWith type "u256" then
    if negb (isDigits value) then (false, Some "Must be a number")
    else (true, None)
  else if String.eqb type "bool" then
    if negb (String.eqb value "true") && negb (String.eqb value "false")
    then (false, Some "Must be true or false")
    else (true, None)
  else if String.eqb type "vector" then
    match parse value with
    | Returned _ => (true, None)
    | Thrown _ => (false, Some "Must be valid JSON array")
    end
  else (true, None).








(* ================================================================== *)
(** ** The summary as text *)
(* ================================================================== *)





(* ================================================================== *)
(** ** The contract compiler client (contractCompiler.ts) *)
(* ================================================================== *)

Module ContractCompiler.

(** [String.prototype.trim] *)
Fixpoint trimEnd (s : string) : string :=
  match s with
  | EmptyString => EmptyString
  | String c s' =>
      let t := trimEnd s' in
      if isEmpty t && isWhiteSpace c then EmptyString else String c t
  end.

Definition trim (s : string) : string := trimEnd (dropWhile isWhiteSpace s).

(** What [/module\s+(\w+)::(\w+)/] matches when the match has to begin at
    the head of the string: the two words, and the text after the second.
    Every quantifier is greedy and is followed by something that no
    character of its class begins, so the longest run is the only choice
    that can lead to a match. *)
Record Declaration := {
  declAddress : string;
  declName : string;
  declRest : string
}.

Definition declarationAt (s : string) : option Declaration :=
  if negb (startsWith s "module") then None else
  let afterKeyword := drop 6 s in
  if isEmpty (takeWhile isWhiteSpace afterKeyword) then None else
  let afterSpace := dropWhile isWhiteSpace afterKeyword in
  let namedAddress := takeWhile isWordChar afterSpace in
  let afterAddress := dropWhile isWordChar afterSpace in
  if isEmpty namedAddress || negb (startsWith afterAddress "::") then None
  else
    let afterColons := drop 2 afterAddress in
    let moduleName := takeWhile isWordChar afterColons in
    if isEmpty moduleName then None
    else Some {| declAddress := namedAddress;
                 declName := moduleName;
                 declRest := dropWhile isWordChar afterColons |}.

(** The same followed by [\s*\{]. *)
Definition definitionAt (s : string) : option Declaration :=
  match declarationAt s with
  | Some d =>
      if startsWith (dropWhile isWhiteSpace (declRest d)) "{" then Some d
      else None
  | None => None
  end.

(** [String.prototype.match] with a pattern that has no [g] flag: the
    match that begins at the leftmost position where one begins. *)
Fixpoint search (A : Type) (matchAt : string -> option A) (s : string)
  : option A :=
  match matchAt s with
  | Some m => Some m
  | None =>
      match s with
      | EmptyString => None
      | String _ s' => search matchAt s'
      end
  end.

(** [extractContractName(sourceCode)]: [None] stands for [null]. *)
Definition extractContractName (sourceCode : string) : option string :=
  match search definitionAt sourceCode with
  | Some moduleMatch => Some (declName moduleMatch)
  | None => None
  end.

Definition missingModule : string :=
  "Missing " +++ dquote +++ "module" +++ dquote
  +++ " declaration. Please specify a Move module.".

Definition invalidDeclaration : string :=
  "Invalid module declaration. Expected format: module Deployer::<module_name>".

Definition wrongAddress (namedAddress : string) : string :=
  "Module must use " +++ dquote +++ "Deployer" +++ dquote
  +++ " as named address. Found: " +++ namedAddress.

(** [validateMoveCode(sourceCode)]: the pair is [valid] and [message]. *)
Definition validateMoveCode (sourceCode : string) : bool * option string :=
  if isEmpty sourceCode || Nat.eqb (String.length (trim sourceCode)) 0
  then (false, Some "Source code is empty")
  else if negb (includes sourceCode "module")
  then (false, Some missingModule)
  else
    match search declarationAt sourceCode with
    | None => (false, Some invalidDeclaration)
    | Some match_ =>
        let namedAddress := declAddress match_ in
        if negb (String.eqb namedAddress "Deployer")
        then (false, Some (wrongAddress namedAddress))
        else (true, None)
    end.

(** [/^0x[a-fA-F0-9]{1,64}$/.test(walletAddress)] *)
Definition isWalletAddress (walletAddress : string) : bool :=
  startsWith walletAddress "0x"
  && Nat.leb 1 (String.length (drop 2 walletAddress))
  && Nat.leb (String.length (drop 2 walletAddress)) 64
  && allChars isHexDigit (drop 2 walletAddress).

(** The body posted to [/api/compile]. *)
Record Request := {
  sourceCode : string;
  moduleName : string;
  walletAddress : string
}.

(** What [fetch] resolves to; [body] is the outcome of [response.json()]. *)
Record Response := {
  ok : bool;
  status : Z;
  statusText : string;
  body : Outcome Value
}.

(** [{ success: false, errors }] *)
Definition failed (errors : list Value) : Value :=
  VObj [("success", VBool false); ("errors", VArr errors)].

(** The [catch] clause of [compileContract]. *)
Definition caught (message : string) : Value :=
  failed [VStr "Failed to connect to compilation service";
          orElse (VStr message) (VStr "Unknown error occurred")].

(** [errorData.errors?.[0]]: reading [errors] of [null] throws; the first
    element of an array, the first character of a string, the field "0" of
    an object; [undefined] otherwise. *)
Definition firstError (errorData : Value) : Outcome Value :=
  match errorData with
  | VUndefined | VNull =>
      Thrown "Cannot read properties of null (reading 'errors')"
  | _ =>
      Returned
        match field "errors" errorData with
        | VArr (e :: _) => e
        | VStr (String c _) => VStr (String c EmptyString)
        | VObj fs => field "0" (VObj fs)
        | _ => VUndefined
        end
  end.

(** [compileContract(sourceCode, moduleName, walletAddress)]: the requests
    sent to the backend, and the result. [fetch] answers a request with a
    response or rejects with an error. *)
Definition compileContract (fetch : Request -> Outcome Response)
  (sourceCode moduleName walletAddress : string) : list Request * Value :=
  if isEmpty walletAddress then
    ([], failed [VStr "Wallet address is required for compilation.";
                 VStr "Please connect your wallet before compiling."])
  else if negb (isWalletAddress walletAddress) then
    ([], failed [VStr "Invalid wallet address format"])
  else
    let validation := validateMoveCode sourceCode in
    if negb (fst validation) then
      ([], failed [orElse (ofOption (snd validation))
                          (VStr "Invalid Move code")])
    else
      let request := {| sourceCode := sourceCode;
                        moduleName := moduleName;
                        walletAddress := walletAddress |} in
      ([request],
       match fetch request with
       | Thrown error => caught error
       | Returned response =>
           if negb (ok response) then
             let errorData :=
               match body response with
               | Returned v => v
               | Thrown _ => VObj []
               end in
             match firstError errorData with
             | Thrown error => caught error
             | Returned first =>
                 failed [orElse first
                           (VStr ("HTTP " +++ numToString (status response)
                                  +++ ": " +++ statusText response))]
             end
           else
             match body response with
             | Returned result => result
             | Thrown error => caught error
             end
       end).

(** An element of the array given to [batchCompileContracts]. *)
Record Contract := {
  contractSource : string;               (* sourceCode *)
  contractModule : string                (* moduleName *)
}.

(** The loop of [batchCompileContracts], from [contracts] on, with the map
    filled and the requests sent so far. Reading [success] of a [null]
    result throws. *)
Fixpoint batchLoop (fetch : Request -> Outcome Response)
  (contracts : list Contract) (walletAddress : string)
  (results : JsMap.t Value) (sent : list Request)
  : list Request * Outcome (JsMap.t Value) :=
  match contracts with
  | [] => (sent, Returned results)
  | contract :: rest =>
      let answer := compileContract fetch (contractSource contract)
                      (contractModule contract) walletAddress in
      let result := snd answer in
      let results' := JsMap.set (contractModule contract) result results in
      let sent' := sent ++ fst answer in
      match result with
      | VUndefined | VNull =>
          (sent', Thrown "Cannot read properties of null (reading 'success')")
      | _ =>
          if negb (truthy (field "success" result))
          then (sent', Returned results')
          else batchLoop fetch rest walletAddress results' sent'
      end
  end.

Definition batchCompileContracts (fetch : Request -> Outcome Response)
  (contracts : list Contract) (walletAddress : string)
  : list Request * Outcome (JsMap.t Value) :=
  batchLoop fetch contracts walletAddress (JsMap.empty Value) [].

(** What [compileContract] answers for one contract of a batch, and
    whether [success] is truthy in it. *)
Definition answer (fetch : Request -> Outcome Response)
  (walletAddress : string) (c : Contract) : Value :=
  snd (compileContract fetch (contractSource c) (contractModule c)
         walletAddress).

Definition compiles (fetch : Request -> Outcome Response)
  (walletAddress : string) (c : Contract) : bool :=
  truthy (field "success" (answer fetch walletAddress c)).

(** A backend that compiles everything. *)
Definition backendOk : Request -> Outcome Response :=
  fun _ =>
    Returned {| ok := true; status := 200; statusText := "OK";
                body := Returned (VObj [("success", VBool true);
                                        ("bytecode", VStr "0xa11ceb0b")]) |}.

Definition counterContract : Contract :=
  {| contractSource := "module Deployer::counter { }";
     contractModule := "counter" |}.

Definition strayContract : Contract :=
  {| contractSource := "module 0x1::stray { }";
     contractModule := "stray" |}.

Definition vaultContract : Contract :=
  {| contractSource := "module Deployer::vault { }";
     contractModule := "vault" |}.

(** The source declares a module at the named address [a]: it contains
    [module], white space, [a], [::] and a word, in this order and with
    nothing in between. *)
Definition Declares (source a : string) : Prop :=
  exists before space name rest,
    source = before +++ "module" +++ space +++ a +++ "::" +++ name +++ rest
    /\ space <> "" /\ allChars isWhiteSpace space = true
    /\ a <> "" /\ allChars isWordChar a = true
    /\ name <> "" /\ allChars isWordChar name = true.

End ContractCompiler.

(** The collaborators [c] with the two checks of the compiler client put
    in place of the ones it answers with. *)
Definition withCompiler (c : Collaborators) : Collaborators :=
  {| isoTime := isoTime c;
     localeTime := localeTime c;
     validateMoveCode := ContractCompiler.validateMoveCode;
     extractContractName := ContractCompiler.extractContractName;
     walletAddress := walletAddress c;
     compileContract := compileContract c;
     connectWallet := connectWallet c;
     jsonParse := jsonParse c;
     deployContract := deployContract c;
     analyzeContract := analyzeContract c |}.

(** A contract-input node that holds code and no name. *)
Definition contractNode (i code : string) : Node :=
  {| id := i;
     data := {| label := i; type := "contractInput";
                projectTitle := None; projectDescription := None;
                contractCode := Some code; contractName := None;
                constructorArgs := VUndefined; aiPrompt := None |} |}.

(** Collaborators with a known wallet address and a compiler that
    succeeds. *)
Definition compiling : Collaborators :=
  {| isoTime := isoTime offline;
     localeTime := localeTime offline;
     validateMoveCode := validateMoveCode offline;
     extractContractName := extractContractName offline;
     walletAddress := Some "0x1";
     compileContract := fun _ _ _ =>
       {| compiled := true; bytecode := Some "0xa11ceb0b";
          metadataBytes := None; abi := VUndefined; errors := None;
          warnings := None |};
     connectWallet := connectWallet offline;
     jsonParse := jsonParse offline;
     deployContract := deployContract offline;
     analyzeContract := analyzeContract offline |}.

(* ================================================================== *)
(** ** The workflow generator *)
(* ================================================================== *)

Module ContractTemplate.

(** [ContractTemplate], the fields the generator reads. *)
Record t := {
  id : string;
  name : string;
  description : string;
  code : string
}.

End ContractTemplate.

Module WorkflowGenerator.

(** The generator's own [extractContractName(sourceCode)]: the second word
    of the leftmost match of [/module\s+\w+::(\w+)/], or MyModule. *)
Definition extractContractName (sourceCode : string) : string :=
  match ContractCompiler.search ContractCompiler.declarationAt sourceCode with
  | Some match_ => ContractCompiler.declName match_
  | None => "MyModule"
  end.

(** [getDefaultConstructorArgs(template)] *)
Definition getDefaultConstructorArgs (template : ContractTemplate.t)
  : list Value :=
  let templateId := ContractTemplate.id template in
  if String.eqb templateId "simple-token" then []
  else if String.eqb templateId "simple-nft" then []
  else if String.eqb templateId "crowdfunding" then
    let goalOctas := numToString (10 * 100000000) in
    let durationSeconds := numToString (30 * 24 * 60 * 60) in
    [VStr "My Campaign"; VStr "Description of my campaign";
     VStr goalOctas; VStr durationSeconds]
  else if String.eqb templateId "multisig-wallet" then [VArr []; VStr "2"]
  else if String.eqb templateId "voting" then []
  else if String.eqb templateId "staking" then []
  else [].

Section Generator.

(** [nodeConfigs[type].label], and the successive readings of
    [Date.now()]: [now k] is reading number [k]. *)
Variable nodeConfigs : string -> string.
Variable now : nat -> Z.

(** [`${prefix}-${Date.now()}`] at reading [k]. *)
Definition stamped (prefix : string) (k : nat) : string :=
  prefix +++ "-" +++ numToString (now k).

(** A generated node: the payload fields the executor reads are kept,
    [icon], [status] and the position on the canvas are left out. *)
Definition generated (i ty : string) (title description code name
  : option string) (args : Value) (prompt : option string) : Node :=
  {| id := i;
     data := {| label := nodeConfigs ty; type := ty;
                projectTitle := title; projectDescription := description;
                contractCode := code; contractName := name;
                constructorArgs := args; aiPrompt := prompt |} |}.

(** [generateWorkflowFromTemplate(template)]: the nodes and the edges. *)
Definition generateWorkflowFromTemplate (template : ContractTemplate.t)
  : list Node * list Edge :=
  let projectNode :=
    generated (stamped "project" 0) "projectCreate"
      (Some (ContractTemplate.name template +++ " Project"))
      (Some (ContractTemplate.description template))
      None None VUndefined None in
  let contractNode :=
    generated (stamped "contract" 1) "contractInput" None None
      (Some (ContractTemplate.code template))
      (Some (extractContractName (ContractTemplate.code template)))
      VUndefined None in
  let compileNode :=
    generated (stamped "compile" 2) "compile"
      None None None None VUndefined None in
  let abiNode :=
    generated (stamped "abi" 3) "generateABI"
      None None None None VUndefined None in
  let bytecodeNode :=
    generated (stamped "bytecode" 4) "generateBytecode"
      None None None None VUndefined None in
  let defaultConstructorArgs := getDefaultConstructorArgs template in
  let deployNode :=
    generated (stamped "deploy" 5) "deploy" None None None None
      (VArr defaultConstructorArgs) None in
  let completionNode :=
    generated (stamped "completion" 6) "completion"
      None None None None VUndefined None in
  ([projectNode; contractNode; compileNode; abiNode; bytecodeNode;
    deployNode; completionNode],
   [mkEdge (id projectNode) (id contractNode);
    mkEdge (id contractNode) (id compileNode);
    mkEdge (id compileNode) (id abiNode);
    mkEdge (id compileNode) (id bytecodeNode);
    mkEdge (id abiNode) (id deployNode);
    mkEdge (id bytecodeNode) (id deployNode);
    mkEdge (id deployNode) (id completionNode)]).

Definition hasType (ty : string) (n : Node) : bool :=
  String.eqb (type (data n)) ty.

(** [generateWorkflowWithAI(template)] *)
Definition generateWorkflowWithAI (template : ContractTemplate.t)
  : list Node * list Edge :=
  let (nodes, edges) := generateWorkflowFromTemplate template in
  match find (hasType "contractInput") nodes,
        find (hasType "compile") nodes with
  | Some contractNode, Some _ =>
      let aiNode :=
        generated (stamped "ai" 7) "aiAudit" None None None None VUndefined
          (Some "Analyze this smart contract for security vulnerabilities and suggest improvements.")
      in
      (nodes ++ [aiNode],
       edges ++ [mkEdge (id contractNode) (id aiNode)])
  | _, _ => (nodes, edges)
  end.

End Generator.

(** The place of a generated id in the pipeline, read off its prefix. *)
Definition stage (v : string) : nat :=
  if startsWith v "project-" then 0
  else if startsWith v "contract-" then 1
  else if startsWith v "compile-" then 2
  else if startsWith v "abi-" then 3
  else if startsWith v "ai-" then 3
  else if startsWith v "bytecode-" then 4
  else if startsWith v "deploy-" then 5
  else 6.

(** A sample template and sample readings of the clock. *)
Definition counterTemplate : ContractTemplate.t :=
  {| ContractTemplate.id := "counter";
     ContractTemplate.name := "Counter";
     ContractTemplate.description := "A counter";
     ContractTemplate.code := "module Deployer::counter { }" |}.

Definition sampleClock (k : nat) : Z := (1700000000000 + Z.of_nat k)%Z.

End WorkflowGenerator.
(* ================================================================== *)
(** ** Insertion-ordered maps: lemmas *)
(* ================================================================== *)

Unset Implicit Arguments.

Module JsMapFacts.
Import JsMap.

Section Facts.
Variable V : Type.
Implicit Types (m : t V) (k : string) (v : V).

Lemma get_set_same m k v : get k (set k v m) = Some v.
Proof.
  induction m as [|[k' v'] m IH]; simpl.
  - now rewrite String.eqb_refl.
  - destruct (String.eqb k' k) eqn:E; simpl; rewrite E; auto.
Qed.

Lemma get_set_other m k k' v : k <> k' -> get k (set k' v m) = get k m.
Proof.
  intros Hne. induction m as [|[k0 v0] m IH]; simpl.
  - destruct (String.eqb_spec k' k); congruence.
  - destruct (String.eqb_spec k0 k'); simpl.
    + subst. destruct (String.eqb_spec k' k); congruence.
    + destruct (String.eqb_spec k0 k); auto.
Qed.

Lemma get_None m k : get k m = None <-> ~ In k (keys m).
Proof.
  induction m as [|[k0 v0] m IH]; simpl.
  - tauto.
  - destruct (String.eqb_spec k0 k).
    + split; [discriminate | intros H; exfalso; apply H; auto].
    + rewrite IH. tauto.
Qed.

Lemma get_Some_key m k v : get k m = Some v -> In k (keys m).
Proof.
  intros H. destruct (in_dec string_dec k (keys m)) as [|Hn]; auto.
  apply get_None in Hn. congruence.
Qed.

Lemma set_present m k v : In k (keys m) -> keys (set k v m) = keys m.
Proof.
  induction m as [|[k0 v0] m IH]; simpl; [tauto|].
  intros H. destruct (String.eqb_spec k0 k); simpl; auto.
  f_equal. apply IH. destruct H; congruence.
Qed.

Lemma set_absent m k v : ~ In k (keys m) -> set k v m = m ++ [(k, v)].
Proof.
  induction m as [|[k0 v0] m IH]; simpl; auto.
  intros H. destruct (String.eqb_spec k0 k).
  - exfalso; auto.
  - f_equal. apply IH. tauto.
Qed.

Lemma keys_set m k v :
  keys (set k v m) = if in_dec string_dec k (keys m) then keys m
                     else keys m ++ [k].
Proof.
  destruct (in_dec string_dec k (keys m)).
  - now apply set_present.
  - rewrite set_absent by assumption. unfold keys. now rewrite map_app.
Qed.

Lemma keys_set_incl m k v x : In x (keys m) -> In x (keys (set k v m)).
Proof.
  rewrite keys_set. destruct (in_dec _ _ _); auto.
  intros. apply in_or_app. auto.
Qed.

Lemma NoDup_keys_set m k v : NoDup (keys m) -> NoDup (keys (set k v m)).
Proof.
  intros H. rewrite keys_set. destruct (in_dec _ _ _); auto.
  apply NoDup_app; auto.
  - constructor; [simpl; tauto | constructor].
  - intros a Ha [<-|[]]. contradiction.
Qed.

Lemma get_Some_In m k v : get k m = Some v -> In (k, v) m.
Proof.
  induction m as [|[k0 v0] m IH]; simpl; [discriminate|].
  destruct (String.eqb_spec k0 k); intros H.
  - inversion H; subst. now left.
  - right. auto.
Qed.

Lemma get_In m k v : NoDup (keys m) -> In (k, v) m -> get k m = Some v.
Proof.
  induction m as [|[k0 v0] m IH]; simpl; [tauto|].
  intros Hnd [Heq|Hin].
  - inversion Heq; subst. now rewrite String.eqb_refl.
  - inversion Hnd; subst.
    destruct (String.eqb_spec k0 k).
    + subst. exfalso. apply H1. change k with (fst (k, v)). now apply in_map.
    + auto.
Qed.

End Facts.
End JsMapFacts.

(* ================================================================== *)
(** ** Kahn's loop on any input *)
(* ================================================================== *)

Import JsMapFacts.

Lemma occurrences_nil k : occurrences [] k = 0%Z.
Proof. reflexivity. Qed.

Lemma occurrences_cons n ns k :
  occurrences (n :: ns) k
  = ((if string_dec n k then 1 else 0) + occurrences ns k)%Z.
Proof.
  unfold occurrences. simpl. destruct (string_dec n k); lia.
Qed.

Lemma occurrences_nonneg ns k : (0 <= occurrences ns k)%Z.
Proof. unfold occurrences. lia. Qed.

Lemma occurrences_pos_In ns k : (1 <= occurrences ns k)%Z -> In k ns.
Proof.
  unfold occurrences. intros H.
  apply (count_occ_In string_dec). lia.
Qed.

Lemma deg_visit_same st n : deg (visit st n) n = (deg st n - 1)%Z.
Proof. unfold deg, visit; simpl. now rewrite get_set_same. Qed.

Lemma deg_visit_other st n k : k <> n -> deg (visit st n) k = deg st k.
Proof.
  intros H. unfold deg, visit; simpl. now rewrite get_set_other.
Qed.

(** The effect of visiting a list of successors: every in-degree drops by
    the number of occurrences, and the keys whose in-degree reaches 0 on
    the way are appended to the queue, once each. *)
Lemma fold_visit_spec ns : forall st,
  let st' := fold_left visit ns st in
  result st' = result st
  /\ (forall k, deg st' k = (deg st k - occurrences ns k)%Z)
  /\ exists fresh,
       queue st' = queue st ++ fresh
       /\ NoDup fresh
       /\ forall k, In k fresh <-> (1 <= deg st k <= occurrences ns k)%Z.
Proof.
  induction ns as [|n ns IH]; intros st; simpl.
  - split; [reflexivity|]. split.
    + intros k. rewrite occurrences_nil. lia.
    + exists []. rewrite app_nil_r. split; [reflexivity|].
      split; [constructor|]. intros k. rewrite occurrences_nil.
      simpl. lia.
  - destruct (IH (visit st n)) as (Hres & Hdeg & fresh & Hq & Hnd & Hin).
    split; [now rewrite Hres|]. split.
    + intros k. rewrite Hdeg, occurrences_cons.
      destruct (string_dec n k) as [->|Hne].
      * rewrite deg_visit_same. lia.
      * rewrite deg_visit_other by congruence. lia.
    + destruct (Z.eqb_spec (deg st n - 1) 0) as [Hz|Hnz].
      * exists (n :: fresh). split; [|split].
        -- rewrite Hq. unfold visit; simpl.
           fold (deg st n). rewrite (proj2 (Z.eqb_eq _ _) Hz).
           now rewrite <- app_assoc.
        -- constructor; auto. rewrite Hin, deg_visit_same. lia.
        -- intros k. simpl. rewrite Hin, occurrences_cons.
           destruct (string_dec n k) as [->|Hne].
           ++ rewrite deg_visit_same.
              pose proof (occurrences_nonneg ns k). split; intros; [lia|auto].
           ++ rewrite deg_visit_other by congruence.
              split; [intros [?|?]; [congruence|lia] | intros; right; lia].
      * exists fresh. split; [|split; auto].
        -- rewrite Hq. unfold visit; simpl.
           fold (deg st n). now rewrite (proj2 (Z.eqb_neq _ _) Hnz).
        -- intros k. rewrite Hin, occurrences_cons.
           destruct (string_dec n k) as [->|Hne].
           ++ rewrite deg_visit_same. lia.
           ++ rewrite deg_visit_other by congruence. lia.
Qed.

Lemma iteration_fold adj st h rest :
  iteration adj st h rest
  = fold_left visit (successors adj h) (dequeued st h rest).
Proof.
  unfold iteration, successors, dequeued.
  destruct (JsMap.get h adj); reflexivity.
Qed.

(** One iteration, summarised. *)
Lemma iteration_spec adj st h rest :
  let st' := iteration adj st h rest in
  result st' = result st ++ [h]
  /\ (forall k, deg st' k = (deg st k - occurrences (successors adj h) k)%Z)
  /\ exists fresh,
       queue st' = rest ++ fresh
       /\ NoDup fresh
       /\ forall k, In k fresh <->
            (1 <= deg st k <= occurrences (successors adj h) k)%Z.
Proof.
  simpl. rewrite iteration_fold.
  destruct (fold_visit_spec (successors adj h) (dequeued st h rest))
    as (Hres & Hdeg & fresh & Hq & Hnd & Hin).
  split; [exact Hres|]. split; [exact Hdeg|].
  exists fresh. auto.
Qed.

Lemma app_cons_shift (A : Type) (l : list A) h rest fresh :
  (l ++ [h]) ++ rest ++ fresh = (l ++ h :: rest) ++ fresh.
Proof. now rewrite <- !app_assoc. Qed.

Lemma iteration_LoopInv K adj st h rest :
  LoopInv K st -> queue st = h :: rest ->
  LoopInv K (iteration adj st h rest).
Proof.
  intros (Hnd & Hold & Hpos) Hq.
  destruct (iteration_spec adj st h rest)
    as (Hres & Hdeg & fresh & Hq' & Hndf & Hin).
  rewrite Hq in *.
  unfold LoopInv. rewrite Hres, Hq', app_cons_shift.
  split; [|split].
  - apply NoDup_app; auto.
    intros a Ha Hf. apply Hin in Hf. apply Hold in Ha. lia.
  - intros k Hk. rewrite Hdeg.
    pose proof (occurrences_nonneg (successors adj h) k).
    apply in_app_or in Hk. destruct Hk as [Hk|Hk].
    + apply Hold in Hk. split; [lia|tauto].
    + apply Hin in Hk. split; [lia|]. apply Hpos. lia.
  - intros k Hk. rewrite Hdeg in Hk.
    pose proof (occurrences_nonneg (successors adj h) k).
    apply Hpos. lia.
Qed.

(** An invariant of the iterations is an invariant of the loop. *)
Lemma kahnLoop_invariant (P : Kahn -> Prop) adj :
  (forall st h rest, P st -> queue st = h :: rest ->
     P (iteration adj st h rest)) ->
  forall fuel st, P st -> P (kahnLoop fuel adj st).
Proof.
  intros Hstep. induction fuel as [|fuel IH]; intros st HP; simpl; auto.
  destruct (queue st) as [|h rest] eqn:Hq; auto.
Qed.

Lemma LoopInv_bound K st :
  LoopInv K st -> List.length (result st) + List.length (queue st)
                  <= List.length K.
Proof.
  intros (Hnd & Hold & _). rewrite <- length_app.
  apply NoDup_incl_length; auto.
  intros k Hk. now apply Hold.
Qed.

(** With enough iterations allowed, the loop leaves by its own test. *)
Lemma kahnLoop_queue_empty K adj : forall fuel st,
  LoopInv K st ->
  List.length K <= fuel + List.length (result st) ->
  queue (kahnLoop fuel adj st) = [].
Proof.
  induction fuel as [|fuel IH]; intros st Hinv Hlen; simpl.
  - pose proof (LoopInv_bound _ _ Hinv).
    destruct (queue st); auto. simpl in *. lia.
  - destruct (queue st) as [|h rest] eqn:Hq; auto.
    apply IH.
    + now apply iteration_LoopInv.
    + destruct (iteration_spec adj st h rest) as (Hres & _).
      rewrite Hres, last_length. lia.
Qed.

Lemma kahnLoop_more_fuel adj extra : forall fuel st,
  queue (kahnLoop fuel adj st) = [] ->
  kahnLoop (fuel + extra) adj st = kahnLoop fuel adj st.
Proof.
  induction fuel as [|fuel IH]; intros st H; simpl in *.
  - destruct extra; simpl; auto. now rewrite H.
  - destruct (queue st); auto.
Qed.

Lemma fold_left_preserves (A B : Type) (P : A -> Prop) (f : A -> B -> A) :
  (forall a b, P a -> P (f a b)) ->
  forall l a, P a -> P (fold_left f l a).
Proof.
  intros Hf. induction l as [|b l IH]; simpl; auto.
Qed.

Lemma NoDup_keys_buildInDegree nodes edges :
  NoDup (JsMap.keys (buildInDegree nodes edges)).
Proof.
  unfold buildInDegree, initInDegree.
  apply fold_left_preserves.
  - intros m e. apply NoDup_keys_set.
  - apply fold_left_preserves.
    + intros m n. apply NoDup_keys_set.
    + constructor.
Qed.

Lemma seedQueue_In m k : In k (seedQueue m) -> In (k, 0%Z) m.
Proof.
  unfold seedQueue. rewrite in_map_iff.
  intros ([k' v] & Hk & Hin). simpl in Hk. subst k'.
  apply filter_In in Hin. destruct Hin as [Hin Hv]. simpl in Hv.
  apply Z.eqb_eq in Hv. now subst.
Qed.

Lemma seedQueue_keys m k : In k (seedQueue m) -> In k (JsMap.keys m).
Proof.
  intros H. apply seedQueue_In in H.
  change k with (fst (k, 0%Z)). now apply in_map.
Qed.

Lemma seedQueue_NoDup m : NoDup (JsMap.keys m) -> NoDup (seedQueue m).
Proof.
  induction m as [|[k v] m IH]; simpl; intros H.
  - constructor.
  - inversion H; subst. unfold seedQueue in *. simpl.
    destruct (Z.eqb v 0); simpl; auto.
    constructor; auto.
    intros Hin. apply H2. now apply (seedQueue_keys m).
Qed.

Lemma kahnStart_LoopInv nodes edges :
  LoopInv (JsMap.keys (buildInDegree nodes edges)) (kahnStart nodes edges).
Proof.
  pose proof (NoDup_keys_buildInDegree nodes edges) as Hnd.
  unfold LoopInv, kahnStart, deg; simpl. split; [|split].
  - now apply seedQueue_NoDup.
  - intros k Hk. split.
    + apply seedQueue_In in Hk. rewrite (get_In _ _ _ _ Hnd Hk). simpl. lia.
    + now apply seedQueue_keys.
  - intros k Hk.
    destruct (JsMap.get k (buildInDegree nodes edges)) eqn:E.
    + now apply get_Some_key in E.
    + simpl in Hk. lia.
Qed.

Lemma kahn_LoopInv nodes edges :
  LoopInv (JsMap.keys (buildInDegree nodes edges)) (kahn nodes edges).
Proof.
  unfold kahn. apply kahnLoop_invariant.
  - intros st h rest. apply iteration_LoopInv.
  - apply kahnStart_LoopInv.
Qed.

(** The loop of [buildExecutionOrder] always ends with an empty queue:
    the bound on its iterations never cuts it short. *)
Lemma kahn_queue_empty nodes edges : queue (kahn nodes edges) = [].
Proof.
  unfold kahn.
  apply kahnLoop_queue_empty
    with (K := JsMap.keys (buildInDegree nodes edges)).
  - apply kahnStart_LoopInv.
  - unfold JsMap.keys. rewrite length_map. lia.
Qed.

(** Allowing more iterations changes nothing. *)
Lemma kahn_enough_fuel nodes edges extra :
  kahnLoop (List.length (buildInDegree nodes edges) + extra)
           (buildAdjacency nodes edges) (kahnStart nodes edges)
  = kahn nodes edges.
Proof.
  apply kahnLoop_more_fuel. apply kahn_queue_empty.
Qed.

(** No id is scheduled twice, on any input. *)
Lemma kahn_result_NoDup nodes edges : NoDup (result (kahn nodes edges)).
Proof.
  destruct (kahn_LoopInv nodes edges) as (Hnd & _).
  now apply NoDup_app_remove_r in Hnd.
Qed.

Lemma buildExecutionOrder_NoDup nodes edges order :
  buildExecutionOrder nodes edges = Returned order -> NoDup order.
Proof.
  unfold buildExecutionOrder.
  destruct (negb _); [discriminate|].
  intros H. inversion H. apply kahn_result_NoDup.
Qed.

(* ================================================================== *)
(** ** The maps built from the graph *)
(* ================================================================== *)

Lemma incoming_cons e es k :
  incoming (e :: es) k
  = (if String.eqb (target e) k then 1 else 0) + incoming es k.
Proof.
  unfold incoming. simpl. destruct (String.eqb (target e) k); reflexivity.
Qed.

Lemma fold_addInDegree es : forall m k,
  orZero (JsMap.get k (fold_left addInDegree es m))
  = (orZero (JsMap.get k m) + Z.of_nat (incoming es k))%Z.
Proof.
  induction es as [|e es IH]; intros m k; simpl.
  - unfold incoming; simpl. lia.
  - rewrite IH, incoming_cons. unfold addInDegree.
    destruct (String.eqb_spec (target e) k) as [->|Hne].
    + rewrite get_set_same. simpl. lia.
    + rewrite get_set_other by congruence. lia.
Qed.

Lemma fold_set_const (V : Type) (c : V) nodes : forall m h,
  JsMap.get h (fold_left (fun m n => JsMap.set (id n) c m) nodes m)
  = if in_dec string_dec h (ids nodes) then Some c else JsMap.get h m.
Proof.
  induction nodes as [|n ns IH]; intros m h; simpl.
  - reflexivity.
  - rewrite IH.
    destruct (in_dec string_dec h (ids ns)) as [Hin|Hnin];
      destruct (string_dec (id n) h) as [Heq|Hne]; auto.
    + subst. now rewrite get_set_same.
    + now rewrite get_set_other by congruence.
Qed.

Lemma deg_kahnStart nodes edges k :
  deg (kahnStart nodes edges) k = Z.of_nat (incoming edges k).
Proof.
  unfold deg, kahnStart, buildInDegree; simpl.
  rewrite fold_addInDegree. unfold initInDegree.
  rewrite fold_set_const. destruct (in_dec _ _ _); simpl; lia.
Qed.

Lemma fold_addAdjacency es : forall m h,
  JsMap.get h (fold_left addAdjacency es m)
  = match JsMap.get h m with
    | Some succs => Some (succs ++ targetsFrom es h)
    | None => None
    end.
Proof.
  unfold targetsFrom.
  induction es as [|e es IH]; intros m h; simpl.
  - destruct (JsMap.get h m); [now rewrite app_nil_r | reflexivity].
  - rewrite IH. unfold addAdjacency.
    destruct (String.eqb_spec (source e) h) as [->|Hne].
    + destruct (JsMap.get h m) as [succs|] eqn:E.
      * rewrite get_set_same. simpl. now rewrite <- app_assoc.
      * now rewrite E.
    + destruct (JsMap.get (source e) m).
      * now rewrite get_set_other by congruence.
      * reflexivity.
Qed.

Lemma successors_buildAdjacency nodes edges h :
  successors (buildAdjacency nodes edges) h
  = if in_dec string_dec h (ids nodes) then targetsFrom edges h else [].
Proof.
  unfold successors, buildAdjacency. rewrite fold_addAdjacency.
  unfold initAdjacency. rewrite fold_set_const.
  destruct (in_dec _ _ _); reflexivity.
Qed.

Lemma occurrences_targetsFrom edges h k :
  occurrences (targetsFrom edges h) k = Z.of_nat (links edges h k).
Proof.
  unfold occurrences, targetsFrom, links. f_equal.
  induction edges as [|e es IH]; simpl; auto.
  destruct (String.eqb (source e) h); simpl; auto.
  destruct (string_dec (target e) k) as [Heq|Hne].
  - rewrite (proj2 (String.eqb_eq _ _) Heq). simpl. now rewrite IH.
  - rewrite (proj2 (String.eqb_neq _ _) Hne). exact IH.
Qed.

Lemma In_targetsFrom edges h k :
  In k (targetsFrom edges h) ->
  exists e, In e edges /\ source e = h /\ target e = k.
Proof.
  unfold targetsFrom. rewrite in_map_iff.
  intros (e & Ht & Hin). apply filter_In in Hin. destruct Hin as [Hin Hs].
  apply String.eqb_eq in Hs. eauto.
Qed.

Lemma existsb_eqb_In x l : existsb (String.eqb x) l = true <-> In x l.
Proof.
  rewrite existsb_exists. split.
  - intros (y & Hin & Heq). apply String.eqb_eq in Heq. now subst.
  - intros H. exists x. split; auto. apply String.eqb_refl.
Qed.

Lemma existsb_eqb_not_In x l : existsb (String.eqb x) l = false <-> ~ In x l.
Proof.
  rewrite <- existsb_eqb_In. destruct (existsb _ _); split; congruence.
Qed.

Lemma pending_nil edges k : pending edges [] k = incoming edges k.
Proof.
  unfold pending, incoming. f_equal. apply filter_ext.
  intros e. simpl. now rewrite andb_true_r.
Qed.

(** Dequeuing [h] settles exactly the edges that leave [h]. *)
Lemma pending_snoc edges done h k :
  ~ In h done ->
  pending edges done k = pending edges (done ++ [h]) k + links edges h k.
Proof.
  intros Hh. unfold pending, links.
  induction edges as [|e es IH]; simpl; auto.
  rewrite existsb_app. simpl. rewrite orb_false_r.
  destruct (String.eqb_spec (target e) k) as [Ht|Ht]; simpl;
    [|rewrite andb_false_r; exact IH].
  rewrite andb_true_r.
  destruct (String.eqb_spec (source e) h) as [Hs|Hs]; simpl.
  - rewrite orb_true_r. simpl.
    rewrite (proj2 (existsb_eqb_not_In (source e) done)) by congruence.
    simpl. rewrite IH. lia.
  - rewrite orb_false_r.
    destruct (existsb (String.eqb (source e)) done); simpl; rewrite IH; lia.
Qed.

Lemma pending_zero edges done k e :
  pending edges done k = 0 -> In e edges -> target e = k ->
  In (source e) done.
Proof.
  unfold pending. intros H Hin Ht.
  destruct (in_dec string_dec (source e) done) as [|Hn]; auto.
  exfalso.
  assert (Hf : In e (filter (fun e => String.eqb (target e) k
              && negb (existsb (String.eqb (source e)) done)) edges)).
  { apply filter_In. split; auto.
    rewrite (proj2 (String.eqb_eq _ _) Ht).
    now rewrite (proj2 (existsb_eqb_not_In _ _) Hn). }
  destruct (filter _ edges); [contradiction | discriminate].
Qed.

Lemma pending_pos edges done k :
  1 <= pending edges done k ->
  exists e, In e edges /\ target e = k /\ ~ In (source e) done.
Proof.
  unfold pending. intros H.
  destruct (filter _ edges) as [|e l] eqn:E; [simpl in H; lia|].
  assert (Hin : In e (e :: l)) by (left; reflexivity).
  rewrite <- E in Hin. apply filter_In in Hin. destruct Hin as [Hin Hb].
  apply andb_true_iff in Hb. destruct Hb as [Ht Hs].
  exists e. split; auto. split.
  - now apply String.eqb_eq.
  - apply existsb_eqb_not_In. now destruct (existsb _ done).
Qed.

(* ================================================================== *)
(** ** Positions in the schedule *)
(* ================================================================== *)

Lemma indexOf_In x l :
  In x l -> exists i, indexOf x l = Some i /\ i < List.length l.
Proof.
  induction l as [|y l IH]; simpl; [tauto|].
  intros H. destruct (String.eqb_spec y x) as [|Hne].
  - exists 0. split; [reflexivity | lia].
  - destruct IH as (i & Hi & Hlt); [destruct H; congruence|].
    exists (S i). rewrite Hi. split; [reflexivity | lia].
Qed.

Lemma indexOf_Some_In x l i : indexOf x l = Some i -> In x l.
Proof.
  revert i. induction l as [|y l IH]; simpl; intros i H; [discriminate|].
  destruct (String.eqb_spec y x); auto.
  destruct (indexOf x l) eqn:E; [eauto | discriminate].
Qed.

Lemma indexOf_app_l x l l' i :
  indexOf x l = Some i -> indexOf x (l ++ l') = Some i.
Proof.
  revert i. induction l as [|y l IH]; simpl; intros i H; [discriminate|].
  destruct (String.eqb y x); auto.
  destruct (indexOf x l) eqn:E; [|discriminate].
  now rewrite (IH n eq_refl).
Qed.

Lemma indexOf_snoc_new x l :
  ~ In x l -> indexOf x (l ++ [x]) = Some (List.length l).
Proof.
  induction l as [|y l IH]; simpl; intros H.
  - now rewrite String.eqb_refl.
  - destruct (String.eqb_spec y x); [tauto|].
    rewrite IH by tauto. reflexivity.
Qed.

Lemma precedes_app_l l l' a b : precedes l a b -> precedes (l ++ l') a b.
Proof.
  intros (i & j & Hi & Hj & Hlt). exists i, j.
  split; [|split]; auto using indexOf_app_l.
Qed.

Lemma precedes_snoc l a b : In a l -> ~ In b l -> precedes (l ++ [b]) a b.
Proof.
  intros Ha Hb. destruct (indexOf_In a l Ha) as (i & Hi & Hlt).
  exists i, (List.length l). split; [|split]; auto.
  - now apply indexOf_app_l.
  - now apply indexOf_snoc_new.
Qed.

Lemma get_fold_addInDegree es : forall m k,
  JsMap.get k (fold_left addInDegree es m)
  = if Nat.eqb (incoming es k) 0 then JsMap.get k m
    else Some (orZero (JsMap.get k m) + Z.of_nat (incoming es k))%Z.
Proof.
  induction es as [|e es IH]; intros m k; simpl.
  - reflexivity.
  - rewrite IH, incoming_cons. unfold addInDegree.
    destruct (String.eqb_spec (target e) k) as [->|Hne].
    + rewrite get_set_same. simpl.
      destruct (Nat.eqb_spec (incoming es k) 0) as [->|]; f_equal; lia.
    + now rewrite get_set_other by congruence.
Qed.

Lemma get_buildInDegree nodes edges k :
  JsMap.get k (buildInDegree nodes edges)
  = if Nat.eqb (incoming edges k) 0
    then (if in_dec string_dec k (ids nodes) then Some 0%Z else None)
    else Some (Z.of_nat (incoming edges k)).
Proof.
  unfold buildInDegree. rewrite get_fold_addInDegree.
  unfold initInDegree. rewrite fold_set_const.
  destruct (Nat.eqb _ 0); auto.
  destruct (in_dec _ _ _); reflexivity.
Qed.

Lemma seedQueue_iff m k :
  NoDup (JsMap.keys m) ->
  (In k (seedQueue m) <-> JsMap.get k m = Some 0%Z).
Proof.
  intros Hnd. split.
  - intros H. apply get_In; auto. now apply seedQueue_In.
  - intros H. apply get_Some_In in H.
    unfold seedQueue. apply in_map_iff. exists (k, 0%Z).
    split; auto. apply filter_In. split; auto.
Qed.

(** The queue is seeded with the nodes that have no incoming edge. *)
Lemma queue_kahnStart nodes edges k :
  In k (queue (kahnStart nodes edges))
  <-> In k (ids nodes) /\ incoming edges k = 0.
Proof.
  unfold kahnStart; simpl.
  rewrite seedQueue_iff by apply NoDup_keys_buildInDegree.
  rewrite get_buildInDegree.
  destruct (Nat.eqb_spec (incoming edges k) 0) as [Hz|Hnz].
  - destruct (in_dec _ _ _); split; try tauto; try discriminate.
  - split.
    + intros H. inversion H. lia.
    + intros [_ ?]. contradiction.
Qed.

(* ================================================================== *)
(** ** Kahn's loop on a well-formed graph *)
(* ================================================================== *)

Section WellFormedGraph.

Variables (nodes : list Node) (edges : list Edge).
Hypothesis Hwf : wellFormed nodes edges.

Let adj := buildAdjacency nodes edges.

Lemma iteration_GraphInv K st h rest :
  LoopInv K st -> GraphInv nodes edges st -> queue st = h :: rest ->
  GraphInv nodes edges (iteration adj st h rest).
Proof.
  intros (Hnd & Hold & Hpos) (G1 & G2 & G3 & G4) Hq.
  destruct (iteration_spec adj st h rest)
    as (Hres & Hdeg & added & Hq' & Hnda & Hin).
  rewrite Hq in *.
  assert (Hh : In h (ids nodes)).
  { apply G1. apply in_or_app. right. now left. }
  assert (Hhr : ~ In h (result st)).
  { apply NoDup_remove_2 in Hnd. intros H. apply Hnd.
    apply in_or_app. now left. }
  assert (Hocc : forall k, occurrences (successors adj h) k
                           = Z.of_nat (links edges h k)).
  { intros k. unfold adj. rewrite successors_buildAdjacency.
    destruct (in_dec _ _ _); [|contradiction].
    apply occurrences_targetsFrom. }
  assert (Hdeg' : forall k,
            deg (iteration adj st h rest) k
            = Z.of_nat (pending edges (result st ++ [h]) k)).
  { intros k. rewrite Hdeg, Hocc, G2.
    rewrite (pending_snoc edges (result st) h k Hhr). lia. }
  unfold GraphInv. rewrite Hres, Hq', app_cons_shift.
  split; [|split; [|split]].
  - intros k Hk. apply in_app_or in Hk. destruct Hk as [Hk|Hk]; auto.
    apply Hin in Hk. rewrite Hocc in Hk.
    assert (Hk' : In k (targetsFrom edges h)).
    { apply occurrences_pos_In. rewrite occurrences_targetsFrom. lia. }
    apply In_targetsFrom in Hk'. destruct Hk' as (e & He & _ & <-).
    now apply Hwf.
  - exact Hdeg'.
  - intros k Hk Hz. rewrite Hdeg, Hocc in Hz.
    destruct (Z.eq_dec (deg st k) 0) as [H0|H0].
    + apply in_or_app. left. now apply G3.
    + apply in_or_app. right. apply Hin. rewrite Hocc.
      rewrite G2 in *. lia.
  - intros e He Ht. apply in_app_or in Ht. destruct Ht as [Ht|Ht].
    + apply precedes_app_l. now apply G4.
    + destruct Ht as [Ht|[]]. rewrite <- Ht.
      apply precedes_snoc; [|congruence].
      apply pending_zero with (edges := edges) (k := h); auto.
      assert (Hle : (deg st h <= 0)%Z).
      { apply Hold. apply in_or_app. right. now left. }
      rewrite G2 in Hle. lia.
Qed.

Lemma kahnStart_GraphInv : GraphInv nodes edges (kahnStart nodes edges).
Proof.
  unfold GraphInv. split; [|split; [|split]].
  - intros k Hk. simpl in Hk. now apply (queue_kahnStart nodes edges) in Hk.
  - intros k. rewrite deg_kahnStart. simpl. now rewrite pending_nil.
  - intros k Hk Hz. simpl. apply queue_kahnStart.
    rewrite deg_kahnStart in Hz. split; [assumption | lia].
  - intros e _ [].
Qed.

(** The invariants at the end of the loop. *)
Lemma kahn_GraphInv :
  LoopInv (JsMap.keys (buildInDegree nodes edges)) (kahn nodes edges)
  /\ GraphInv nodes edges (kahn nodes edges).
Proof.
  unfold kahn. fold adj.
  apply (kahnLoop_invariant
           (fun st => LoopInv (JsMap.keys (buildInDegree nodes edges)) st
                      /\ GraphInv nodes edges st)).
  - intros st h rest [HL HG] Hq. split.
    + now apply iteration_LoopInv.
    + now apply iteration_GraphInv with (K := JsMap.keys (buildInDegree nodes edges)).
  - split; [apply kahnStart_LoopInv | apply kahnStart_GraphInv].
Qed.

End WellFormedGraph.

(* ================================================================== *)
(** ** Cycles *)
(* ================================================================== *)

Section Cycles.

Variable R : relation string.

Lemma linked_reach : forall p a b,
  linked R (a :: p) -> In b p -> clos_trans string R a b.
Proof.
  induction p as [|c p IH]; intros a b Hl Hb; [contradiction|].
  destruct Hl as [Hac Hl]. destruct Hb as [<-|Hb].
  - now apply t_step.
  - apply t_trans with c; [now apply t_step | now apply IH].
Qed.

Lemma linked_cycle_or_NoDup : forall p,
  linked R p -> (exists v, clos_trans string R v v) \/ NoDup p.
Proof.
  induction p as [|a p IH]; intros Hl.
  - right. constructor.
  - assert (Hl' : linked R p) by (destruct p; [exact I | apply Hl]).
    destruct (IH Hl') as [Hc|Hnd]; [now left|].
    destruct (in_dec string_dec a p) as [Hin|Hnin].
    + left. exists a. now apply linked_reach with p.
    + right. now constructor.
Qed.

(** In a finite set each of whose elements has a predecessor in the set,
    walking backwards eventually closes a cycle. *)
Lemma predecessors_cycle (S : list string) (k0 : string) :
  In k0 S ->
  (forall k, In k S -> exists p, In p S /\ R p k) ->
  exists v, clos_trans string R v v.
Proof.
  intros Hk0 Hpred.
  assert (Hpath : forall n, exists a p,
            List.length (a :: p) = Datatypes.S n
            /\ incl (a :: p) S /\ linked R (a :: p)).
  { induction n as [|n (a & p & Hlen & Hincl & Hl)].
    - exists k0, []. split; [reflexivity|]. split; [|exact I].
      intros x [<-|[]]. exact Hk0.
    - destruct (Hpred a) as (q & Hq & Hqa); [apply Hincl; now left|].
      exists q, (a :: p). split; [simpl in *; lia|]. split.
      + intros x [<-|Hx]; auto.
      + split; assumption. }
  destruct (Hpath (List.length S)) as (a & p & Hlen & Hincl & Hl).
  destruct (linked_cycle_or_NoDup _ Hl) as [Hc|Hnd]; auto.
  pose proof (NoDup_incl_length Hnd Hincl). lia.
Qed.

(** A node on a cycle has a predecessor on a cycle. *)
Lemma cycle_predecessor k :
  clos_trans string R k k ->
  exists p, R p k /\ clos_trans string R p p.
Proof.
  intros H. apply clos_trans_tn1 in H.
  inversion H as [Hkk | p ? Hpk Hkp]; subst.
  - exists k. split; auto. now apply t_step.
  - exists p. split; auto.
    apply clos_tn1_trans in Hkp.
    apply t_trans with k; [now apply t_step | assumption].
Qed.

(** A rank that grows along every related pair rules cycles out. *)
Lemma ranked_no_cycle (rank : string -> nat) :
  (forall a b, R a b -> rank a < rank b) ->
  forall v, ~ clos_trans string R v v.
Proof.
  intros Hr.
  assert (H : forall a b, clos_trans string R a b -> rank a < rank b).
  { induction 1; [auto | lia]. }
  intros v Hv. apply H in Hv. lia.
Qed.

End Cycles.

(* ================================================================== *)
(** ** Claims on buildExecutionOrder *)
(* ================================================================== *)

Lemma same_length_of_mutual_incl (l l' : list string) :
  NoDup l -> NoDup l' -> incl l l' -> incl l' l ->
  List.length l = List.length l'.
Proof.
  intros H1 H2 H12 H21.
  pose proof (NoDup_incl_length H1 H12).
  pose proof (NoDup_incl_length H2 H21). lia.
Qed.

(** On a well-formed acyclic graph the loop outputs every node. *)
Lemma kahn_complete nodes edges :
  wellFormed nodes edges -> acyclic edges ->
  forall k, In k (ids nodes) -> In k (result (kahn nodes edges)).
Proof.
  intros Hwf Hac k0 Hk0.
  destruct (kahn_GraphInv nodes edges Hwf) as [_ (G1 & G2 & G3 & G4)].
  pose proof (kahn_queue_empty nodes edges) as Hq.
  rewrite Hq, app_nil_r in *.
  set (res := result (kahn nodes edges)) in *.
  destruct (in_dec string_dec k0 res) as [|Hn]; auto.
  exfalso.
  set (S := filter (fun k => negb (existsb (String.eqb k) res)) (ids nodes)).
  assert (HS : forall k, In k S <-> In k (ids nodes) /\ ~ In k res).
  { intros k. unfold S. rewrite filter_In, negb_true_iff.
    now rewrite existsb_eqb_not_In. }
  destruct (predecessors_cycle (edgeRel edges) S k0) as (v & Hv).
  - now apply HS.
  - intros k Hk. apply HS in Hk. destruct Hk as [Hk Hnk].
    assert (Hpos : 1 <= pending edges res k).
    { destruct (Nat.eq_dec (pending edges res k) 0) as [Hz|]; [|lia].
      exfalso. apply Hnk. apply G3; auto. rewrite G2. lia. }
    apply pending_pos in Hpos. destruct Hpos as (e & He & Ht & Hs).
    exists (source e). split.
    + apply HS. split; auto. now apply Hwf.
    + exists e. auto.
  - exact (Hac v Hv).
Qed.

(** C1. For every acyclic graph with unique node ids whose edges reference
    only existing node ids, [buildExecutionOrder] returns a sequence that
    holds exactly the node ids, whose length is the number of nodes, and in
    which the source of every edge has a strictly smaller index than its
    target. *)
Theorem C1_buildExecutionOrder_topological nodes edges :
  NoDup (ids nodes) -> wellFormed nodes edges -> acyclic edges ->
  exists order,
    buildExecutionOrder nodes edges = Returned order
    /\ List.length order = List.length nodes
    /\ (forall k, In k order <-> In k (ids nodes))
    /\ forall e, In e edges -> precedes order (source e) (target e).
Proof.
  intros Hids Hwf Hac.
  destruct (kahn_GraphInv nodes edges Hwf) as [_ (G1 & G2 & G3 & G4)].
  pose proof (kahn_queue_empty nodes edges) as Hq.
  pose proof (kahn_result_NoDup nodes edges) as Hnd.
  pose proof (kahn_complete nodes edges Hwf Hac) as Hall.
  rewrite Hq, app_nil_r in G1.
  assert (Hlen : List.length (result (kahn nodes edges)) = List.length nodes).
  { rewrite <- (length_map id nodes). fold (ids nodes).
    apply same_length_of_mutual_incl; auto. }
  exists (result (kahn nodes edges)). split; [|split; [|split]].
  - unfold buildExecutionOrder. rewrite Hlen, Nat.eqb_refl. reflexivity.
  - exact Hlen.
  - intros k. split; auto.
  - intros e He. apply G4; auto. apply Hall. now apply Hwf.
Qed.

Lemma chain_graph_acyclic :
  acyclic [mkEdge "c" "a"; mkEdge "a" "b"].
Proof.
  unfold acyclic, onCycle.
  apply (ranked_no_cycle (edgeRel [mkEdge "c" "a"; mkEdge "a" "b"])
           (fun v => match indexOf v ["c"; "a"; "b"] with
                     | Some i => i | None => 0 end)).
  intros a b (e & [<-|[<-|[]]] & <- & <-); simpl; lia.
Qed.

Lemma C1_witness :
  exists order,
    buildExecutionOrder
      [plainNode "a" "compile"; plainNode "b" "deploy";
       plainNode "c" "contractInput"]
      [mkEdge "c" "a"; mkEdge "a" "b"] = Returned order
    /\ List.length order = 3
    /\ (forall k, In k order <-> In k ["a"; "b"; "c"])
    /\ forall e, In e [mkEdge "c" "a"; mkEdge "a" "b"] ->
         precedes order (source e) (target e).
Proof.
  apply (C1_buildExecutionOrder_topological
           [plainNode "a" "compile"; plainNode "b" "deploy";
            plainNode "c" "contractInput"]
           [mkEdge "c" "a"; mkEdge "a" "b"]).
  - repeat constructor; simpl; intuition discriminate.
  - intros e [<-|[<-|[]]]; simpl; tauto.
  - exact chain_graph_acyclic.
Defined.

(** On a well-formed graph no node that lies on a cycle is ever output. *)
Lemma kahn_avoids_cycles nodes edges :
  wellFormed nodes edges ->
  forall k, onCycle edges k -> ~ In k (result (kahn nodes edges)).
Proof.
  intros Hwf.
  destruct (kahn_GraphInv nodes edges Hwf) as [_ (_ & _ & _ & G4)].
  assert (H : forall i k, indexOf k (result (kahn nodes edges)) = Some i ->
                          ~ onCycle edges k).
  { induction i as [i IH] using lt_wf_ind. intros k Hi Hc.
    destruct (cycle_predecessor _ _ Hc) as (p & (e & He & Hs & Ht) & Hp).
    destruct (G4 e He) as (i' & j & Hi' & Hj & Hlt).
    - rewrite Ht. now apply indexOf_Some_In with i.
    - rewrite Ht, Hi in Hj. inversion Hj; subst j.
      apply (IH i' Hlt (source e)); auto. now rewrite Hs. }
  intros k Hc Hin. destruct (indexOf_In _ _ Hin) as (i & Hi & _).
  exact (H i k Hi Hc).
Qed.

Lemma kahn_cycle_short nodes edges :
  wellFormed nodes edges -> cyclic edges ->
  List.length (result (kahn nodes edges)) < List.length nodes.
Proof.
  intros Hwf (v & Hv).
  destruct (kahn_GraphInv nodes edges Hwf) as [_ (G1 & _)].
  rewrite kahn_queue_empty, app_nil_r in G1.
  assert (Hvin : In v (ids nodes)).
  { destruct (cycle_predecessor _ _ Hv) as (p & (e & He & _ & <-) & _).
    now apply Hwf. }
  assert (Hnd : NoDup (v :: result (kahn nodes edges))).
  { constructor; [now apply kahn_avoids_cycles | apply kahn_result_NoDup]. }
  assert (Hincl : incl (v :: result (kahn nodes edges)) (ids nodes)).
  { intros x [<-|Hx]; auto. }
  pose proof (NoDup_incl_length Hnd Hincl) as Hle.
  unfold ids in Hle. rewrite length_map in Hle. simpl in Hle. lia.
Qed.

Lemma buildExecutionOrder_cycle nodes edges :
  wellFormed nodes edges -> cyclic edges ->
  buildExecutionOrder nodes edges = Thrown cycleMessage.
Proof.
  intros Hwf Hc. pose proof (kahn_cycle_short nodes edges Hwf Hc) as Hlt.
  unfold buildExecutionOrder.
  destruct (Nat.eqb_spec (List.length (result (kahn nodes edges)))
                         (List.length nodes)); [lia | reflexivity].
Qed.

(* ================================================================== *)
(** ** Seeding order *)
(* ================================================================== *)

Lemma seedQueue_as_filter (m : JsMap.t Z) :
  NoDup (JsMap.keys m) ->
  seedQueue m
  = filter (fun k => match JsMap.get k m with
                     | Some d => Z.eqb d 0 | None => false end)
           (JsMap.keys m).
Proof.
  unfold seedQueue.
  induction m as [|[k0 v0] m IH]; simpl; intros Hnd; [reflexivity|].
  inversion Hnd as [|? ? Hk0 Hnd']; subst.
  rewrite String.eqb_refl.
  assert (Hrest : filter (fun k => match (if String.eqb k0 k then Some v0
                                          else JsMap.get k m) with
                                   | Some d => Z.eqb d 0 | None => false end)
                         (JsMap.keys m)
                  = filter (fun k => match JsMap.get k m with
                                     | Some d => Z.eqb d 0 | None => false end)
                           (JsMap.keys m)).
  { apply filter_ext_in. intros k Hk.
    destruct (String.eqb_spec k0 k); [subst; contradiction | reflexivity]. }
  rewrite Hrest, <- (IH Hnd').
  destruct (Z.eqb v0 0); reflexivity.
Qed.

Lemma keys_fold_addInDegree es : forall m,
  exists extras,
    JsMap.keys (fold_left addInDegree es m) = JsMap.keys m ++ extras
    /\ forall x, In x extras -> ~ In x (JsMap.keys m).
Proof.
  induction es as [|e es IH]; intros m; simpl.
  - exists []. rewrite app_nil_r. split; [reflexivity | intros x []].
  - destruct (IH (addInDegree m e)) as (extras & Hk & Hex).
    unfold addInDegree in *. rewrite keys_set in *.
    destruct (in_dec string_dec (target e) (JsMap.keys m)).
    + exists extras. auto.
    + exists (target e :: extras). split.
      * rewrite Hk, <- app_assoc. reflexivity.
      * intros x [<-|Hx]; auto.
        intros Hin. apply (Hex x Hx). apply in_or_app. now left.
Qed.

Lemma fold_set_fresh nodes : forall (m : JsMap.t Z),
  NoDup (ids nodes) ->
  (forall k, In k (ids nodes) -> ~ In k (JsMap.keys m)) ->
  JsMap.keys (fold_left (fun m n => JsMap.set (id n) 0%Z m) nodes m)
  = JsMap.keys m ++ ids nodes.
Proof.
  induction nodes as [|n ns IH]; intros m Hnd Hdis; simpl.
  - now rewrite app_nil_r.
  - inversion Hnd as [|? ? Hn Hnd']; subst.
    rewrite IH; auto.
    + rewrite keys_set. destruct (in_dec _ _ _) as [Hin|_].
      * exfalso. apply (Hdis (id n)); [now left | assumption].
      * now rewrite <- app_assoc.
    + intros k Hk. rewrite keys_set. destruct (in_dec _ _ _).
      * apply Hdis. now right.
      * intros Hin. apply in_app_or in Hin. destruct Hin as [Hin|[<-|[]]].
        -- apply (Hdis k); [now right | assumption].
        -- contradiction.
Qed.

Lemma keys_initInDegree nodes :
  NoDup (ids nodes) -> JsMap.keys (initInDegree nodes) = ids nodes.
Proof.
  intros Hnd. unfold initInDegree. now rewrite fold_set_fresh.
Qed.

Lemma queue_kahnStart_order nodes edges :
  NoDup (ids nodes) ->
  queue (kahnStart nodes edges)
  = filter (fun k => Nat.eqb (incoming edges k) 0) (ids nodes).
Proof.
  intros Hnd. unfold kahnStart; simpl.
  rewrite seedQueue_as_filter by apply NoDup_keys_buildInDegree.
  unfold buildInDegree at 2.
  destruct (keys_fold_addInDegree edges (initInDegree nodes))
    as (extras & Hk & Hex).
  rewrite Hk, keys_initInDegree in * by assumption.
  rewrite filter_app.
  assert (Hno : filter (fun k => match JsMap.get k (buildInDegree nodes edges)
                                 with Some d => Z.eqb d 0 | None => false end)
                       extras = []).
  { rewrite <- (filter_false extras). apply filter_ext_in. intros x Hx.
    rewrite get_buildInDegree.
    destruct (Nat.eqb_spec (incoming edges x) 0).
    - destruct (in_dec _ _ _); [exfalso; now apply (Hex x) | reflexivity].
    - apply Z.eqb_neq. lia. }
  rewrite Hno, app_nil_r.
  apply filter_ext_in. intros k Hk'.
  rewrite get_buildInDegree.
  destruct (Nat.eqb_spec (incoming edges k) 0).
  - destruct (in_dec _ _ _); [reflexivity | contradiction].
  - apply Z.eqb_neq. lia.
Qed.

Lemma kahnLoop_no_successors adj :
  (forall h, successors adj h = []) ->
  forall fuel st, List.length (queue st) <= fuel ->
    kahnLoop fuel adj st
    = {| inDegree := inDegree st; queue := [];
         result := result st ++ queue st |}.
Proof.
  intros Hadj. induction fuel as [|fuel IH]; intros st Hlen; simpl.
  - destruct st as [d q r]; simpl in *.
    destruct q; [now rewrite app_nil_r | simpl in Hlen; lia].
  - destruct st as [d q r]; simpl in *.
    destruct q as [|h rest]; [now rewrite app_nil_r|].
    rewrite iteration_fold, Hadj. simpl.
    rewrite IH; simpl; [|simpl in Hlen; lia].
    now rewrite <- app_assoc.
Qed.

Lemma buildExecutionOrder_no_edges nodes :
  NoDup (ids nodes) -> buildExecutionOrder nodes [] = Returned (ids nodes).
Proof.
  intros Hnd.
  assert (Hq : queue (kahnStart nodes []) = ids nodes).
  { rewrite queue_kahnStart_order by assumption.
    apply forallb_filter_id. apply forallb_forall. reflexivity. }
  assert (Hk : kahn nodes [] =
               {| inDegree := inDegree (kahnStart nodes []); queue := [];
                  result := ids nodes |}).
  { unfold kahn. rewrite kahnLoop_no_successors.
    - rewrite Hq. reflexivity.
    - intros h. rewrite successors_buildAdjacency.
      destruct (in_dec _ _ _); reflexivity.
    - rewrite Hq. unfold buildInDegree; simpl.
      rewrite <- (length_map fst (initInDegree nodes)).
      fold (JsMap.keys (initInDegree nodes)).
      now rewrite keys_initInDegree. }
  unfold buildExecutionOrder. rewrite Hk. simpl.
  unfold ids. now rewrite length_map, Nat.eqb_refl.
Qed.

Lemma NoDup_app_disjoint (l1 l2 : list string) x :
  NoDup (l1 ++ l2) -> In x l1 -> In x l2 -> False.
Proof.
  induction l1 as [|a l1 IH]; simpl; intros Hnd H1 H2; [contradiction|].
  inversion Hnd as [|? ? Ha Hnd']; subst. destruct H1 as [->|H1].
  - apply Ha. apply in_or_app. now right.
  - now apply IH.
Qed.

Lemma keys_buildInDegree nodes edges k :
  In k (JsMap.keys (buildInDegree nodes edges)) ->
  In k (ids nodes) \/ exists e, In e edges /\ target e = k.
Proof.
  intros Hk.
  destruct (in_dec string_dec k (ids nodes)) as [|Hn]; [now left|]. right.
  destruct (Nat.eq_dec (incoming edges k) 0) as [Hz|Hz].
  - exfalso. apply (proj1 (get_None _ _ k)) in Hk; [exact Hk|].
    rewrite get_buildInDegree, Hz. simpl.
    destruct (in_dec _ _ _); [contradiction | reflexivity].
  - unfold incoming in Hz.
    destruct (filter _ edges) as [|e l] eqn:E; [contradiction|].
    assert (Hin : In e (e :: l)) by now left.
    rewrite <- E in Hin. apply filter_In in Hin. destruct Hin as [Hin Ht].
    apply String.eqb_eq in Ht. eauto.
Qed.

(** The queue is first in, first out: whatever the loop does, the ids
    already output followed by the ids waiting stay at the head of what is
    output and waiting later. *)
Lemma kahnLoop_fifo adj : forall fuel st,
  exists later,
    result (kahnLoop fuel adj st) ++ queue (kahnLoop fuel adj st)
    = (result st ++ queue st) ++ later.
Proof.
  induction fuel as [|fuel IH]; intros st; simpl.
  - exists []. now rewrite app_nil_r.
  - destruct (queue st) as [|h rest] eqn:Hq.
    + exists []. now rewrite Hq, !app_nil_r.
    + destruct (IH (iteration adj st h rest)) as (later & Hlater).
      destruct (iteration_spec adj st h rest) as (Hres & _ & added & Hqueue & _).
      rewrite Hlater, Hres, Hqueue.
      exists (added ++ later). now rewrite <- !app_assoc.
Qed.

(** The output begins with the seeds, in the order they were seeded. *)
Lemma kahn_seeds_first nodes edges :
  exists later,
    result (kahn nodes edges) = queue (kahnStart nodes edges) ++ later.
Proof.
  destruct (kahnLoop_fifo (buildAdjacency nodes edges)
              (List.length (buildInDegree nodes edges))
              (kahnStart nodes edges)) as (later & H).
  fold (kahn nodes edges) in H.
  rewrite kahn_queue_empty, app_nil_r in H.
  exists later. exact H.
Qed.

(** C6. [buildExecutionOrder] is a function of the node and edge arrays. On
    a graph with unique node ids its work queue is seeded with the nodes of
    in-degree 0 in the order the nodes were supplied, and every order it
    returns begins with exactly these nodes, in that order: among the nodes
    that wait for nothing the original node order decides, the nodes that
    wait for another come after them. With no edges at all the output is
    the node ids in their original array order. *)
Theorem C6_seed_order_and_no_edges nodes edges :
  NoDup (ids nodes) ->
  queue (kahnStart nodes edges)
  = filter (fun k => Nat.eqb (incoming edges k) 0) (ids nodes)
  /\ buildExecutionOrder nodes [] = Returned (ids nodes)
  /\ forall order,
       buildExecutionOrder nodes edges = Returned order ->
       exists later,
         order
         = filter (fun k => Nat.eqb (incoming edges k) 0) (ids nodes)
           ++ later
         /\ forall k, In k later -> incoming edges k <> 0.
Proof.
  intros Hnd. split; [|split].
  - now apply queue_kahnStart_order.
  - now apply buildExecutionOrder_no_edges.
  - intros order Hb.
    pose proof (buildExecutionOrder_NoDup nodes edges order Hb) as Hdistinct.
    unfold buildExecutionOrder in Hb.
    destruct (negb _); [discriminate|]. injection Hb as <-.
    destruct (kahn_seeds_first nodes edges) as (later & Hlater).
    rewrite queue_kahnStart_order in Hlater by assumption.
    exists later. split; [exact Hlater|].
    intros k Hk Hzero.
    rewrite Hlater in Hdistinct.
    apply (NoDup_app_disjoint _ _ k Hdistinct); [|exact Hk].
    apply filter_In. split; [|now apply Nat.eqb_eq].
    assert (Hin : In k (ids nodes) \/ exists e, In e edges /\ target e = k).
    { apply keys_buildInDegree.
      destruct (kahn_LoopInv nodes edges) as (_ & Hold & _).
      apply Hold. apply in_or_app. left. rewrite Hlater.
      apply in_or_app. now right. }
    destruct Hin as [Hin|(e & He & Ht)]; [exact Hin|].
    exfalso. unfold incoming in Hzero.
    assert (Hf : In e (filter (fun e => String.eqb (target e) k) edges)).
    { apply filter_In. split; [exact He|]. now apply String.eqb_eq. }
    destruct (filter _ edges); [destruct Hf|discriminate].
Qed.

Lemma C6_witness :
  queue (kahnStart [plainNode "z" "deploy"; plainNode "m" "compile";
                    plainNode "a" "contractInput"]
                   [mkEdge "a" "m"])
  = ["z"; "a"]
  /\ buildExecutionOrder [plainNode "z" "deploy"; plainNode "m" "compile";
                          plainNode "a" "contractInput"] []
     = Returned ["z"; "m"; "a"]
  /\ exists later,
       ["z"; "a"; "m"] = ["z"; "a"] ++ later
       /\ forall k, In k later -> incoming [mkEdge "a" "m"] k <> 0.
Proof.
  destruct (C6_seed_order_and_no_edges
              [plainNode "z" "deploy"; plainNode "m" "compile";
               plainNode "a" "contractInput"] [mkEdge "a" "m"])
    as (Hseed & Hplain & Hfirst).
  - repeat constructor; simpl; intuition discriminate.
  - split; [exact Hseed|]. split; [exact Hplain|].
    exact (Hfirst ["z"; "a"; "m"] eq_refl).
Defined.

(* ================================================================== *)
(** ** Edges between absent nodes *)
(* ================================================================== *)

Lemma get_app_present (V : Type) (m m' : JsMap.t V) k :
  In k (JsMap.keys m) -> JsMap.get k (m ++ m') = JsMap.get k m.
Proof.
  induction m as [|[k0 v0] m IH]; simpl; [tauto|].
  intros H. destruct (String.eqb_spec k0 k); auto.
  apply IH. destruct H; congruence.
Qed.

Lemma set_app_present (V : Type) (m m' : JsMap.t V) k v :
  In k (JsMap.keys m) -> JsMap.set k v (m ++ m') = JsMap.set k v m ++ m'.
Proof.
  induction m as [|[k0 v0] m IH]; simpl; [tauto|].
  intros H. destruct (String.eqb_spec k0 k); auto.
  simpl. f_equal. apply IH. destruct H; congruence.
Qed.

Lemma visit_withEntries st tail n :
  In n (JsMap.keys (inDegree st)) ->
  visit (withEntries st tail) n = withEntries (visit st n) tail.
Proof.
  intros Hn. unfold visit, withEntries; simpl.
  rewrite get_app_present, set_app_present by assumption. reflexivity.
Qed.

Lemma keys_visit st n x :
  In x (JsMap.keys (inDegree st)) -> In x (JsMap.keys (inDegree (visit st n))).
Proof. unfold visit; simpl. apply keys_set_incl. Qed.

Lemma fold_visit_withEntries tail ns : forall st,
  (forall n, In n ns -> In n (JsMap.keys (inDegree st))) ->
  fold_left visit ns (withEntries st tail)
  = withEntries (fold_left visit ns st) tail.
Proof.
  induction ns as [|n ns IH]; intros st Hns; simpl; [reflexivity|].
  rewrite visit_withEntries by (apply Hns; now left).
  apply IH. intros x Hx. apply keys_visit. apply Hns. now right.
Qed.

Lemma keys_fold_visit ns x : forall st,
  In x (JsMap.keys (inDegree st)) ->
  In x (JsMap.keys (inDegree (fold_left visit ns st))).
Proof.
  induction ns as [|n ns IH]; intros st H; simpl; auto.
  apply IH. now apply keys_visit.
Qed.

(** Two adjacency maps with the same successor lists drive the same loop,
    and entries the loop never touches do not disturb it. *)
Lemma kahnLoop_withEntries adj adj' tail (known : list string) :
  (forall h, successors adj' h = successors adj h) ->
  (forall h n, In n (successors adj h) -> In n known) ->
  forall fuel st,
    (forall n, In n known -> In n (JsMap.keys (inDegree st))) ->
    kahnLoop fuel adj' (withEntries st tail)
    = withEntries (kahnLoop fuel adj st) tail.
Proof.
  intros Hsame Hknown. induction fuel as [|fuel IH]; intros st Hkeys; simpl.
  - reflexivity.
  - destruct (queue st) as [|h rest] eqn:Hq; [reflexivity|].
    rewrite !iteration_fold, Hsame.
    change (dequeued (withEntries st tail) h rest)
      with (withEntries (dequeued st h rest) tail).
    rewrite fold_visit_withEntries.
    + apply IH. intros n Hn. apply keys_fold_visit. simpl. auto.
    + intros n Hn. simpl. apply Hkeys. now apply Hknown with h.
Qed.

Lemma targetsFrom_skip E1 E2 d h :
  source d <> h ->
  targetsFrom (E1 ++ d :: E2) h = targetsFrom (E1 ++ E2) h.
Proof.
  intros Hne. unfold targetsFrom. rewrite !filter_app. simpl.
  now rewrite (proj2 (String.eqb_neq _ _) Hne).
Qed.

Lemma incoming_app E1 E2 k :
  incoming (E1 ++ E2) k = incoming E1 k + incoming E2 k.
Proof. unfold incoming. now rewrite filter_app, length_app. Qed.

Lemma incoming_absent nodes es k :
  wellFormed nodes es -> ~ In k (ids nodes) -> incoming es k = 0.
Proof.
  intros Hwf Hk. unfold incoming.
  destruct (filter _ es) as [|e l] eqn:E; [reflexivity|].
  assert (Hin : In e (e :: l)) by now left.
  rewrite <- E in Hin. apply filter_In in Hin. destruct Hin as [Hin Ht].
  apply String.eqb_eq in Ht. subst k. exfalso. apply Hk. now apply Hwf.
Qed.

Lemma ids_keys_buildInDegree nodes es k :
  In k (ids nodes) -> In k (JsMap.keys (buildInDegree nodes es)).
Proof.
  intros Hk.
  destruct (JsMap.get k (buildInDegree nodes es)) eqn:E.
  - now apply get_Some_key in E.
  - rewrite get_buildInDegree in E.
    destruct (Nat.eqb _ 0); [|discriminate].
    destruct (in_dec _ _ _); [discriminate | contradiction].
Qed.

Lemma fold_addInDegree_withTail es : forall m tail,
  (forall e, In e es -> In (target e) (JsMap.keys m)) ->
  fold_left addInDegree es (m ++ tail)
  = fold_left addInDegree es m ++ tail.
Proof.
  induction es as [|e es IH]; intros m tail Hes; simpl; [reflexivity|].
  unfold addInDegree at 2 4.
  rewrite get_app_present, set_app_present by (apply Hes; now left).
  apply IH. intros e' He'. apply keys_set_incl. apply Hes. now right.
Qed.

(** The in-degree map of a graph with one more edge, both of whose
    endpoints are absent: one more entry, with in-degree 0 + 1. *)
Lemma buildInDegree_absent_edge nodes E1 E2 d :
  wellFormed nodes (E1 ++ E2) ->
  ~ In (target d) (ids nodes) ->
  buildInDegree nodes (E1 ++ d :: E2)
  = buildInDegree nodes (E1 ++ E2) ++ [(target d, 1%Z)].
Proof.
  intros Hwf Ht.
  assert (Hwf1 : wellFormed nodes E1).
  { intros e He. apply Hwf. apply in_or_app. now left. }
  assert (Hwf2 : wellFormed nodes E2).
  { intros e He. apply Hwf. apply in_or_app. now right. }
  unfold buildInDegree. rewrite !fold_left_app. simpl.
  fold (buildInDegree nodes E1).
  assert (Hnone : JsMap.get (target d) (buildInDegree nodes E1) = None).
  { rewrite get_buildInDegree, (incoming_absent nodes E1) by assumption.
    simpl. destruct (in_dec _ _ _); [contradiction | reflexivity]. }
  unfold addInDegree at 2. rewrite Hnone. simpl.
  rewrite set_absent by (now apply get_None).
  apply fold_addInDegree_withTail.
  intros e He. apply ids_keys_buildInDegree. now apply Hwf2.
Qed.

Lemma seedQueue_app m tail :
  seedQueue (m ++ tail) = seedQueue m ++ seedQueue tail.
Proof. unfold seedQueue. now rewrite filter_app, map_app. Qed.

Lemma kahn_absent_edge nodes E1 E2 d :
  wellFormed nodes (E1 ++ E2) ->
  ~ In (source d) (ids nodes) -> ~ In (target d) (ids nodes) ->
  kahn nodes (E1 ++ d :: E2)
  = withEntries (kahn nodes (E1 ++ E2)) [(target d, 1%Z)].
Proof.
  intros Hwf Hs Ht.
  unfold kahn at 1.
  assert (Hstart : kahnStart nodes (E1 ++ d :: E2)
                   = withEntries (kahnStart nodes (E1 ++ E2))
                                 [(target d, 1%Z)]).
  { unfold kahnStart, withEntries; simpl.
    rewrite buildInDegree_absent_edge by assumption.
    rewrite seedQueue_app. simpl. now rewrite app_nil_r. }
  rewrite Hstart, buildInDegree_absent_edge by assumption.
  rewrite length_app. simpl.
  rewrite kahnLoop_withEntries
    with (adj := buildAdjacency nodes (E1 ++ E2)) (known := ids nodes).
  - now rewrite kahn_enough_fuel.
  - intros h. rewrite !successors_buildAdjacency.
    destruct (in_dec _ _ _); [|reflexivity].
    apply targetsFrom_skip. congruence.
  - intros h n. rewrite successors_buildAdjacency.
    destruct (in_dec _ _ _); [|intros []].
    intros Hn. apply In_targetsFrom in Hn.
    destruct Hn as (e & He & _ & <-). now apply Hwf.
  - intros n Hn. simpl. now apply ids_keys_buildInDegree.
Qed.

(* ================================================================== *)
(** ** Traces *)
(* ================================================================== *)

Lemma statusFrom_app s l l' k :
  statusFrom s (l ++ l') k = statusFrom (statusFrom s l k) l' k.
Proof.
  revert s. induction l as [|ev l IH]; intros s; simpl; auto.
  destruct ev; auto. destruct (String.eqb nodeId k); auto.
Qed.

Lemma statusFrom_updates s l k : Forall isUpdate l -> statusFrom s l k = s.
Proof.
  induction 1 as [|ev l Hev _ IH]; simpl; auto.
  destruct ev; simpl in Hev; tauto.
Qed.

Lemma lifecycle_app l l' k :
  lifecycle (l ++ l') k = lifecycle l k ++ lifecycle l' k.
Proof.
  induction l as [|ev l IH]; simpl; auto.
  destruct ev; auto; destruct (String.eqb nodeId k); simpl; now rewrite IH.
Qed.

Lemma lifecycle_updates l k : Forall isUpdate l -> lifecycle l k = [].
Proof.
  induction 1 as [|ev l Hev _ IH]; simpl; auto.
  destruct ev; simpl in Hev; tauto.
Qed.

Lemma handlerCalls_app l l' :
  handlerCalls (l ++ l') = handlerCalls l ++ handlerCalls l'.
Proof.
  induction l as [|ev l IH]; simpl; auto.
  destruct ev; simpl; now rewrite ?IH.
Qed.

Lemma handlerCalls_updates l : Forall isUpdate l -> handlerCalls l = [].
Proof.
  induction 1 as [|ev l Hev _ IH]; simpl; auto.
  destruct ev; simpl in Hev; tauto.
Qed.

(* ================================================================== *)
(** ** The executor *)
(* ================================================================== *)

Section ExecutorFacts.

Variable context : ExecutionContext.
Variable world : string -> Collaborators.
Variable stopDuring : string -> bool.
Variable finishedAt : string.

Lemma findNode_id nodeId node :
  findNode context nodeId = Some node -> id node = nodeId.
Proof.
  unfold findNode. intros H. apply find_some in H.
  now apply String.eqb_eq.
Qed.

Lemma updateEdgeStatus_updates nodeId s :
  Forall isUpdate (updateEdgeStatus context nodeId s).
Proof.
  unfold updateEdgeStatus. destruct (hasOnEdgeUpdate context);
    repeat constructor.
Qed.

(** Handlers call [onNodeUpdate] and nothing else. *)
Ltac handler_cases :=
  repeat match goal with
         | |- Forall isUpdate (fst (if ?b then _ else _)) => destruct b
         | |- Forall isUpdate (fst (match ?x with _ => _ end)) =>
             destruct x
         | |- Forall isUpdate (fst (let _ := _ in _)) => cbv zeta
         | |- Forall isUpdate _ => simpl; repeat constructor
         end.

Lemma dispatch_updates this node handler run :
  dispatch context world this node = Some (handler, run) ->
  Forall isUpdate (fst run).
Proof.
  unfold dispatch.
  repeat match goal with
         | |- (if ?b then _ else _) = _ -> _ => destruct b
         end;
    intros H; inversion H; subst; clear H.
  - unfold executeProjectCreate. handler_cases.
  - unfold executeContractInput. handler_cases.
  - unfold executeCompile. handler_cases.
  - unfold executeGenerateABI. handler_cases.
  - unfold executeGenerateBytecode. handler_cases.
  - unfold executeDeploy. handler_cases.
  - unfold executeAIAudit. handler_cases.
  - unfold executeCompletion. handler_cases.
Qed.

Lemma runHandler_shape this node :
  (exists handler updates,
      fst (runHandler context world this node)
      = HandlerCall (id node) handler :: updates
      /\ Forall isUpdate updates)
  \/ (dispatch context world this node = None
      /\ runHandler context world this node
         = ret (failure ("Unknown node type: " +++ type (data node)))).
Proof.
  unfold runHandler.
  destruct (dispatch context world this node) as [[handler [updates o]]|] eqn:E.
  - left. exists handler, updates. split; [reflexivity|].
    now apply (dispatch_updates _ _ _ _ E).
  - right. auto.
Qed.

Lemma settle_shape node outcome :
  exists s updates,
    settle context node outcome = OnNodeStatus (id node) s :: updates
    /\ Forall isUpdate updates
    /\ s = (if success (nodeResult outcome) then Success else Error).
Proof.
  unfold settle, nodeResult.
  destruct outcome as [r|e]; [destruct (success r) eqn:E|]; simpl.
  - exists Success. eexists. split; [reflexivity|]. split; [|reflexivity].
    apply Forall_app. split; [apply updateEdgeStatus_updates|].
    repeat constructor.
  - exists Error. eexists. split; [reflexivity|]. split; [|reflexivity].
    apply Forall_app. split; [apply updateEdgeStatus_updates|].
    repeat constructor.
  - exists Error. eexists. split; [reflexivity|]. split; [|reflexivity].
    apply Forall_app. split; [apply updateEdgeStatus_updates|].
    repeat constructor.
Qed.

(** The trace of one [executeNode]. *)
Lemma executeNode_trace this node :
  trace (fst (executeNode context world stopDuring this node))
  = trace this
    ++ (OnNodeStatus (id node) Running
          :: updateEdgeStatus context (id node) Running)
    ++ fst (runHandler context world this node)
    ++ settle context node (snd (runHandler context world this node)).
Proof. reflexivity. Qed.

Lemma executeNode_result this node :
  snd (executeNode context world stopDuring this node)
  = nodeResult (snd (runHandler context world this node)).
Proof. reflexivity. Qed.

Lemma executeNode_store this node :
  executionData (fst (executeNode context world stopDuring this node))
  = executionData this.
Proof. reflexivity. Qed.

Lemma executeNode_stopped this node :
  stopped (fst (executeNode context world stopDuring this node))
  = stopped this || stopDuring (id node).
Proof. reflexivity. Qed.

(** What one [executeNode] adds to the life of each node. *)
Lemma executeNode_lifecycle this node k :
  exists steps,
    lifecycle (trace (fst (executeNode context world stopDuring this node))) k
    = lifecycle (trace this) k ++ steps
    /\ (k <> id node -> steps = [])
    /\ (k = id node ->
        steps = [Became Running; Called;
                 Became (if success (snd (executeNode context world
                                            stopDuring this node))
                         then Success else Error)]
        \/ (dispatch context world this node = None
            /\ success (snd (executeNode context world stopDuring
                               this node)) = false
            /\ steps = [Became Running; Became Error])).
Proof.
  rewrite executeNode_trace, executeNode_result, lifecycle_app.
  eexists. split; [reflexivity|].
  destruct (settle_shape node (snd (runHandler context world this node)))
    as (s & ups & Hs & Hups & Hstatus).
  rewrite Hs.
  pose proof (updateEdgeStatus_updates (id node) Running) as Hedge.
  destruct (runHandler_shape this node)
    as [(handler & updates & Hh & Hu) | [Hnone Hh]]; rewrite Hh.
  - split; intros Hk.
    + simpl. rewrite (proj2 (String.eqb_neq _ _) (not_eq_sym Hk)).
      rewrite !lifecycle_app. simpl.
      rewrite (proj2 (String.eqb_neq _ _) (not_eq_sym Hk)).
      rewrite !lifecycle_app. simpl.
      rewrite (proj2 (String.eqb_neq _ _) (not_eq_sym Hk)).
      now rewrite !lifecycle_updates.
    + left. subst k. simpl. rewrite String.eqb_refl.
      rewrite !lifecycle_app. simpl. rewrite String.eqb_refl.
      rewrite !lifecycle_app. simpl. rewrite String.eqb_refl.
      rewrite !lifecycle_updates by assumption. simpl.
      now rewrite Hstatus.
  - split; intros Hk.
    + simpl. rewrite (proj2 (String.eqb_neq _ _) (not_eq_sym Hk)).
      rewrite !lifecycle_app. simpl.
      rewrite (proj2 (String.eqb_neq _ _) (not_eq_sym Hk)).
      now rewrite !lifecycle_updates.
    + right. split; auto. split; [reflexivity|].
      subst k. simpl. rewrite String.eqb_refl.
      rewrite !lifecycle_app. simpl. rewrite String.eqb_refl.
      rewrite !lifecycle_updates by assumption. simpl.
      rewrite Hstatus, Hh. reflexivity.
Qed.

End ExecutorFacts.

Lemma statusFrom_lifecycle events k : forall s,
  statusFrom s events k = finalStatus s (lifecycle events k).
Proof.
  unfold finalStatus.
  induction events as [|ev events IH]; intros s; simpl; auto.
  destruct ev; auto; destruct (String.eqb nodeId k); simpl; auto.
Qed.

Lemma handlerCalls_lifecycle events k :
  In k (handlerCalls events) <-> In Called (lifecycle events k).
Proof.
  induction events as [|ev events IH]; simpl; [tauto|].
  destruct ev; auto.
  - destruct (String.eqb nodeId k); simpl; rewrite <- ?IH;
      intuition discriminate.
  - destruct (String.eqb_spec nodeId k); simpl; rewrite <- IH; intuition.
Qed.

(** A node whose life is empty is idle and saw no handler call. *)
Lemma untouched_idle events k :
  lifecycle events k = [] ->
  statusOf events k = Idle /\ ~ In k (handlerCalls events).
Proof.
  intros H. split.
  - unfold statusOf. now rewrite statusFrom_lifecycle, H.
  - rewrite handlerCalls_lifecycle, H. intros [].
Qed.

Section RunFacts.

Variable context : ExecutionContext.
Variable world : string -> Collaborators.
Variable stopDuring : string -> bool.
Variable finishedAt : string.

Local Abbreviation runNodes' := (runNodes context world stopDuring).
Local Abbreviation executeNode' := (executeNode context world stopDuring).
Local Abbreviation execute' := (execute context world stopDuring finishedAt).

Lemma runNodes_nil this : runNodes' [] this = (this, None).
Proof. reflexivity. Qed.

Lemma runNodes_cons nodeId rest this :
  runNodes' (nodeId :: rest) this
  = if stopped this then (this, Some (failure stoppedMessage))
    else match findNode context nodeId with
         | None => runNodes' rest this
         | Some node =>
             let (this1, result) := executeNode' this node in
             if negb (success result)
             then (this1, Some (failure (failedAt node result)))
             else runNodes' rest (recordOutput this1 nodeId result)
         end.
Proof. reflexivity. Qed.

Lemma runNodes_app pre : forall rest this,
  runNodes' (pre ++ rest) this
  = match runNodes' pre this with
    | (this', None) => runNodes' rest this'
    | stop => stop
    end.
Proof.
  induction pre as [|nodeId pre IH]; intros rest this.
  - reflexivity.
  - rewrite <- app_comm_cons, !runNodes_cons.
    destruct (stopped this); [reflexivity|].
    destruct (findNode context nodeId) as [node|]; [|apply IH].
    destruct (executeNode' this node) as [this1 result].
    destruct (negb (success result)); [reflexivity | apply IH].
Qed.

(** Running a part of the schedule leaves the nodes outside it alone. *)
Lemma runNodes_untouched order : forall this k,
  ~ In k order ->
  lifecycle (trace (fst (runNodes' order this))) k = lifecycle (trace this) k.
Proof.
  induction order as [|nodeId order IH]; intros this k Hk.
  - reflexivity.
  - rewrite runNodes_cons.
    destruct (stopped this); [reflexivity|].
    destruct (findNode context nodeId) as [node|] eqn:Hfind;
      [|apply IH; intros H; apply Hk; now right].
    pose proof (findNode_id _ _ _ Hfind) as Hid.
    destruct (executeNode_lifecycle context world stopDuring this node k)
      as (steps & Hlife & Hother & _).
    rewrite Hother, app_nil_r in Hlife
      by (rewrite Hid; intros ->; apply Hk; now left).
    destruct (executeNode' this node) as [this1 result]; simpl in *.
    destruct (negb (success result)); simpl; [exact Hlife|].
    rewrite IH by (intros H; apply Hk; now right). exact Hlife.
Qed.

Lemma runNodes_store_keys order : forall this k,
  In k (JsMap.keys (executionData (fst (runNodes' order this)))) ->
  In k (JsMap.keys (executionData this)) \/ In k order.
Proof.
  induction order as [|nodeId order IH]; intros this k; [simpl; auto|].
  rewrite runNodes_cons.
  destruct (stopped this); [simpl; auto|].
  destruct (findNode context nodeId) as [node|].
  - pose proof (executeNode_store context world stopDuring this node) as Hst.
    destruct (executeNode' this node) as [this1 result]; simpl in *.
    destruct (negb (success result)); simpl.
    + rewrite Hst. auto.
    + intros H. apply IH in H. destruct H as [H|H]; [|right; now right].
      simpl in H. rewrite keys_set, Hst in H.
      destruct (in_dec _ _ _); auto.
      apply in_app_or in H. destruct H as [H|[<-|[]]]; [now left|].
      right. now left.
  - intros H. apply IH in H. simpl. tauto.
Qed.

(** The lives of all nodes stay strict along the loop. *)
Lemma runNodes_strict order : forall this,
  NoDup order ->
  (forall k, In k order -> lifecycle (trace this) k = []) ->
  (forall k, strictLifecycle (lifecycle (trace this) k)) ->
  forall k, strictLifecycle (lifecycle (trace (fst (runNodes' order this))) k).
Proof.
  induction order as [|nodeId order IH]; intros this Hnd Hnew Hall k.
  - apply Hall.
  - inversion Hnd as [|? ? Hnot Hnd']; subst.
    rewrite runNodes_cons.
    destruct (stopped this); [apply Hall|].
    destruct (findNode context nodeId) as [node|] eqn:Hfind.
    2:{ apply IH; auto. intros j Hj. apply Hnew. now right. }
    pose proof (findNode_id _ _ _ Hfind) as Hid.
    assert (Hstep : forall j,
              strictLifecycle
                (lifecycle (trace (fst (executeNode' this node))) j)
              /\ (In j order ->
                  lifecycle (trace (fst (executeNode' this node))) j = [])).
    { intros j.
      destruct (executeNode_lifecycle context world stopDuring this node j)
        as (steps & Hlife & Hother & Hself).
      rewrite Hlife. destruct (string_dec j (id node)) as [Hj|Hj].
      - rewrite Hnew by (left; congruence). simpl. split.
        + destruct (Hself Hj) as [->|(_ & _ & ->)].
          * destruct (success _); unfold strictLifecycle; auto.
          * unfold strictLifecycle; auto.
        + intros Hin. exfalso. apply Hnot. congruence.
      - rewrite (Hother Hj), app_nil_r. split; [apply Hall|].
        intros Hin. apply Hnew. now right. }
    destruct (executeNode' this node) as [this1 result]; simpl in *.
    destruct (negb (success result)); simpl; [apply Hstep|].
    apply IH; auto; intros j; apply Hstep.
Qed.

(** C8. Within one [execute] run the life of every node is strict: it is
    left untouched (idle); or it is set to running once, then its handler is
    called, then it is set to success or to error once; or, its type being
    unknown, it is set to running then to error. No other status callback is
    made for it. *)
Theorem C8_status_transitions_strict nodeId :
  strictLifecycle (lifecycle (trace (fst execute')) nodeId).
Proof.
  unfold execute.
  destruct (buildExecutionOrder (nodes context) (edges context))
    as [order|e] eqn:Hbuild; [|left; reflexivity].
  destruct (Nat.eqb (List.length order) 0); [left; reflexivity|].
  pose proof (runNodes_strict order fresh
                (buildExecutionOrder_NoDup _ _ _ Hbuild)
                (fun _ _ => eq_refl)
                (fun _ => or_introl eq_refl) nodeId) as H.
  destruct (runNodes' order fresh) as [this [failed|]]; exact H.
Qed.

End RunFacts.

Lemma fails_nodeResult outcome :
  fails outcome <-> success (nodeResult outcome) = false.
Proof.
  destruct outcome; simpl; tauto.
Qed.

Section RunClaims.

Variable context : ExecutionContext.
Variable world : string -> Collaborators.
Variable stopDuring : string -> bool.
Variable finishedAt : string.

Local Abbreviation runNodes' := (runNodes context world stopDuring).
Local Abbreviation executeNode' := (executeNode context world stopDuring).
Local Abbreviation execute' := (execute context world stopDuring finishedAt).
Local Abbreviation runHandler' := (runHandler context world).

(** [execute] once the schedule is built and not empty. *)
Lemma execute_run order :
  buildExecutionOrder (nodes context) (edges context) = Returned order ->
  order <> [] ->
  execute'
  = match runNodes' order fresh with
    | (this, Some failed) => (this, failed)
    | (this, None) =>
        (this,
         succeeded "Workflow executed successfully"
           (VObj [("summary", VStr (generateSummary context this finishedAt));
                  ("executionData", VObj (executionData this))]))
    end.
Proof.
  intros Hb Hne. unfold execute. rewrite Hb.
  destruct order; [congruence | reflexivity].
Qed.

(** The nodes of the schedule not reached yet are untouched. *)
Lemma prefix_untouched pre rest this k :
  NoDup (pre ++ rest) -> In k rest ->
  runNodes' pre fresh = (this, None) ->
  lifecycle (trace this) k = []
  /\ ~ In k (JsMap.keys (executionData this)).
Proof.
  intros Hnd Hk Hrun.
  assert (Hpre : ~ In k pre).
  { intros H. exact (NoDup_app_disjoint _ _ _ Hnd H Hk). }
  split.
  - pose proof (runNodes_untouched context world stopDuring pre fresh k Hpre)
      as H.
    rewrite Hrun in H. exact H.
  - intros H.
    pose proof (runNodes_store_keys context world stopDuring pre fresh k) as Hs.
    rewrite Hrun in Hs. destruct (Hs H) as [[]|]; contradiction.
Qed.

(** The run when the node reached next fails. *)
Lemma execute_fails_at order pre nodeId post node this :
  buildExecutionOrder (nodes context) (edges context) = Returned order ->
  order = pre ++ nodeId :: post ->
  runNodes' pre fresh = (this, None) ->
  stopped this = false ->
  findNode context nodeId = Some node ->
  success (snd (executeNode' this node)) = false ->
  execute'
  = (fst (executeNode' this node),
     failure (failedAt node (snd (executeNode' this node))))
  /\ statusOf (trace (fst execute')) nodeId = Error
  /\ JsMap.get nodeId (executionData (fst execute')) = None
  /\ forall k, In k post ->
       ~ In k (handlerCalls (trace (fst execute')))
       /\ statusOf (trace (fst execute')) k = Idle.
Proof.
  intros Hb Hord Hpre Hstop Hfind Hfail.
  pose proof (buildExecutionOrder_NoDup _ _ _ Hb) as Hnd. rewrite Hord in Hnd.
  pose proof (findNode_id _ _ _ Hfind) as Hid.
  assert (Hex : execute' = (fst (executeNode' this node),
                  failure (failedAt node (snd (executeNode' this node))))).
  { rewrite (execute_run order Hb) by (subst; now destruct pre).
    rewrite Hord, runNodes_app, Hpre, runNodes_cons, Hstop, Hfind.
    destruct (executeNode' this node) as [this1 result]; simpl in *.
    now rewrite Hfail. }
  rewrite Hex. cbn [fst snd]. split; [reflexivity|].
  destruct (prefix_untouched pre (nodeId :: post) this nodeId Hnd
              (or_introl eq_refl) Hpre) as [Hlife Hkey].
  split; [|split].
  - destruct (executeNode_lifecycle context world stopDuring this node nodeId)
      as (steps & Hl & _ & Hself).
    unfold statusOf. rewrite statusFrom_lifecycle, Hl, Hlife. simpl.
    destruct (Hself (eq_sym Hid)) as [->|(_ & _ & ->)]; [|reflexivity].
    now rewrite Hfail.
  - apply get_None. now rewrite executeNode_store.
  - intros k Hk.
    destruct (prefix_untouched pre (nodeId :: post) this k Hnd
                (or_intror Hk) Hpre) as [Hlk _].
    destruct (executeNode_lifecycle context world stopDuring this node k)
      as (steps & Hl & Hother & _).
    assert (Hne : k <> id node).
    { rewrite Hid. intros ->.
      apply NoDup_app_remove_l in Hnd. inversion Hnd; contradiction. }
    rewrite (Hother Hne), Hlk in Hl. simpl in Hl.
    destruct (untouched_idle _ _ Hl). auto.
Qed.

(** C3. When the node reached next in the schedule has a handler that
    returns a failure result or throws, [execute] returns at once with a
    failure whose message is [Failed at node "<label>": <message>]: the
    label is the node's, and the message is the one of the result the
    handler returned or, when it threw, the message of the error thrown
    ([Node execution failed] if that is empty). The callbacks of the node
    are: running, the handler's own updates, error, and an update that
    writes the message into the node's [error] field (the thrown message as
    it is), with the edge annotations in between. The state [execute]
    returns in is the one [executeNode] left, the failing node's status is
    error, its output is not in the store, and no node after it in the
    schedule has its handler called or leaves the idle status. *)
Theorem C3_failure_stops_run order pre nodeId post node this :
  buildExecutionOrder (nodes context) (edges context) = Returned order ->
  order = pre ++ nodeId :: post ->
  runNodes' pre fresh = (this, None) ->
  stopped this = false ->
  findNode context nodeId = Some node ->
  fails (snd (runHandler' this node)) ->
  success (snd execute') = false
  /\ message (snd execute')
     = "Failed at node " +++ dquote +++ label (data node) +++ dquote +++ ": "
       +++ message (nodeResult (snd (runHandler' this node)))
  /\ (forall r,
        snd (runHandler' this node) = Returned r ->
        snd execute'
        = failure ("Failed at node " +++ dquote +++ label (data node)
                   +++ dquote +++ ": " +++ message r)
        /\ trace (fst execute')
           = trace this
             ++ [OnNodeStatus nodeId Running]
             ++ updateEdgeStatus context nodeId Running
             ++ fst (runHandler' this node)
             ++ [OnNodeStatus nodeId Error]
             ++ updateEdgeStatus context nodeId Error
             ++ [OnNodeUpdate nodeId (VObj [("error", VStr (message r))])])
  /\ (forall e,
        snd (runHandler' this node) = Thrown e ->
        snd execute'
        = failure ("Failed at node " +++ dquote +++ label (data node)
                   +++ dquote +++ ": "
                   +++ (if String.eqb e "" then "Node execution failed"
                        else e))
        /\ trace (fst execute')
           = trace this
             ++ [OnNodeStatus nodeId Running]
             ++ updateEdgeStatus context nodeId Running
             ++ fst (runHandler' this node)
             ++ [OnNodeStatus nodeId Error]
             ++ updateEdgeStatus context nodeId Error
             ++ [OnNodeUpdate nodeId (VObj [("error", VStr e)])])
  /\ fst execute' = fst (executeNode' this node)
  /\ statusOf (trace (fst execute')) nodeId = Error
  /\ JsMap.get nodeId (executionData (fst execute')) = None
  /\ forall k, In k post ->
       ~ In k (handlerCalls (trace (fst execute')))
       /\ statusOf (trace (fst execute')) k = Idle.
Proof.
  intros Hb Hord Hpre Hstop Hfind Hfails.
  pose proof (findNode_id _ _ _ Hfind) as Hid.
  pose proof Hfails as Hfails'.
  apply fails_nodeResult in Hfails.
  destruct (execute_fails_at order pre nodeId post node this
              Hb Hord Hpre Hstop Hfind Hfails) as (Hex & Hrest).
  rewrite Hex in *. cbn [fst snd] in *.
  split; [reflexivity|].
  split; [unfold failedAt; now rewrite executeNode_result|].
  split; [|split; [|split; [reflexivity | exact Hrest]]].
  - intros r Hr. rewrite executeNode_trace, executeNode_result, Hr.
    rewrite Hr in Hfails'. cbn [fails] in Hfails'.
    cbn [nodeResult settle]. rewrite Hfails', Hid.
    split; reflexivity.
  - intros e He. rewrite executeNode_trace, executeNode_result, He.
    cbn [nodeResult settle]. rewrite Hid.
    split; reflexivity.
Qed.

(** C10. A node whose type is none of the eight known ones is dispatched to
    no handler: [executeNode] returns the failure [Unknown node type: <type>],
    sets the node to running and then to error, and a run that reaches the
    node returns the failure result [Failed at node "<label>": Unknown node
    type: <type>]. *)
Theorem C10_unknown_type_fails this node :
  ~ In (type (data node)) knownTypes ->
  snd (executeNode' this node)
  = failure ("Unknown node type: " +++ type (data node))
  /\ trace (fst (executeNode' this node))
     = trace this
       ++ [OnNodeStatus (id node) Running]
       ++ updateEdgeStatus context (id node) Running
       ++ [OnNodeStatus (id node) Error]
       ++ updateEdgeStatus context (id node) Error
       ++ [OnNodeUpdate (id node)
             (VObj [("error",
                     VStr ("Unknown node type: " +++ type (data node)))])]
  /\ (forall s, statusFrom s (trace (fst (executeNode' this node))) (id node)
                = Error)
  /\ forall order pre post,
       buildExecutionOrder (nodes context) (edges context) = Returned order ->
       order = pre ++ id node :: post ->
       runNodes' pre fresh = (this, None) ->
       stopped this = false ->
       findNode context (id node) = Some node ->
       snd execute'
       = failure ("Failed at node " +++ dquote +++ label (data node)
                  +++ dquote +++ ": " +++ "Unknown node type: "
                  +++ type (data node))
       /\ statusOf (trace (fst execute')) (id node) = Error.
Proof.
  intros Hunknown.
  assert (Hd : dispatch context world this node = None).
  { unfold dispatch. unfold knownTypes in Hunknown. simpl in Hunknown.
    repeat match goal with
           | |- (if String.eqb ?a ?b then _ else _) = _ =>
               destruct (String.eqb_spec a b) as [Heq|_];
               [exfalso; apply Hunknown; rewrite Heq; tauto|]
           end.
    reflexivity. }
  assert (Hh : runHandler' this node
               = ret (failure ("Unknown node type: " +++ type (data node)))).
  { unfold runHandler. now rewrite Hd. }
  assert (Hres : snd (executeNode' this node)
                 = failure ("Unknown node type: " +++ type (data node))).
  { rewrite executeNode_result, Hh. reflexivity. }
  assert (Htr : trace (fst (executeNode' this node))
     = trace this
       ++ [OnNodeStatus (id node) Running]
       ++ updateEdgeStatus context (id node) Running
       ++ [OnNodeStatus (id node) Error]
       ++ updateEdgeStatus context (id node) Error
       ++ [OnNodeUpdate (id node)
             (VObj [("error",
                     VStr ("Unknown node type: " +++ type (data node)))])]).
  { rewrite executeNode_trace, Hh. reflexivity. }
  split; [exact Hres|]. split; [exact Htr|]. split.
  - intros s. rewrite Htr.
    pose proof (updateEdgeStatus_updates context (id node) Running).
    pose proof (updateEdgeStatus_updates context (id node) Error).
    rewrite !statusFrom_app. simpl. rewrite String.eqb_refl.
    rewrite (statusFrom_updates _ (updateEdgeStatus context (id node) Error))
      by assumption.
    reflexivity.
  - intros order pre post Hb Hord Hpre Hstop Hfind.
    assert (Hfail : success (snd (executeNode' this node)) = false)
      by now rewrite Hres.
    destruct (execute_fails_at order pre (id node) post node this
                Hb Hord Hpre Hstop Hfind Hfail) as (Hex & Hst & _).
    split; [|exact Hst].
    rewrite Hex. cbn [fst snd]. rewrite Hres. reflexivity.
Qed.

End RunClaims.

Lemma C3_witness :
  (snd (execute sampleFailing (everywhere offline) never "now")
   = failure ("Failed at node " +++ dquote +++ "q" +++ dquote +++ ": "
              +++ "Project title is required")
   /\ trace (fst (execute sampleFailing (everywhere offline) never "now"))
      = trace (fst (runNodes sampleFailing (everywhere offline) never
                      ["p"] fresh))
        ++ [OnNodeStatus "q" Running]
        ++ updateEdgeStatus sampleFailing "q" Running
        ++ [HandlerCall "q" "executeProjectCreate"]
        ++ [OnNodeStatus "q" Error]
        ++ updateEdgeStatus sampleFailing "q" Error
        ++ [OnNodeUpdate "q"
              (VObj [("error", VStr "Project title is required")])]
   /\ statusOf
        (trace (fst (execute sampleFailing (everywhere offline) never "now")))
        "q" = Error
   /\ JsMap.get "q"
        (executionData
           (fst (execute sampleFailing (everywhere offline) never "now")))
      = None
   /\ forall k, In k ["r"] ->
        ~ In k (handlerCalls
                  (trace (fst (execute sampleFailing (everywhere offline)
                                 never "now"))))
        /\ statusOf
             (trace (fst (execute sampleFailing (everywhere offline)
                            never "now"))) k = Idle)
  /\ (snd (execute sampleThrowing (everywhere auditDown) never "now")
      = failure ("Failed at node " +++ dquote +++ "a" +++ dquote +++ ": "
                 +++ "AI service unavailable")
      /\ trace (fst (execute sampleThrowing (everywhere auditDown) never
                       "now"))
         = trace (fst (runNodes sampleThrowing (everywhere auditDown) never
                         ["s"] fresh))
           ++ [OnNodeStatus "a" Running]
           ++ updateEdgeStatus sampleThrowing "a" Running
           ++ [HandlerCall "a" "executeAIAudit"]
           ++ [OnNodeStatus "a" Error]
           ++ updateEdgeStatus sampleThrowing "a" Error
           ++ [OnNodeUpdate "a"
                 (VObj [("error", VStr "AI service unavailable")])]
      /\ forall k, In k ["r"] ->
           ~ In k (handlerCalls
                     (trace (fst (execute sampleThrowing
                                    (everywhere auditDown) never "now"))))
           /\ statusOf
                (trace (fst (execute sampleThrowing (everywhere auditDown)
                               never "now"))) k = Idle).
Proof.
  split.
  - destruct (C3_failure_stops_run sampleFailing (everywhere offline) never
                "now" ["p"; "q"; "r"] ["p"] "q" ["r"]
                (plainNode "q" "projectCreate")
                (fst (runNodes sampleFailing (everywhere offline) never
                        ["p"] fresh))
                eq_refl eq_refl eq_refl eq_refl eq_refl eq_refl)
      as (_ & _ & Hreturned & _ & _ & Hstatus & Hstore & Hlater).
    destruct (Hreturned (failure "Project title is required") eq_refl)
      as (Hresult & Htrace).
    split; [exact Hresult|]. split; [exact Htrace|].
    split; [exact Hstatus|]. split; [exact Hstore|exact Hlater].
  - destruct (C3_failure_stops_run sampleThrowing (everywhere auditDown)
                never "now" ["s"; "a"; "r"] ["s"] "a" ["r"]
                (plainNode "a" "aiAudit")
                (fst (runNodes sampleThrowing (everywhere auditDown) never
                        ["s"] fresh))
                eq_refl eq_refl eq_refl eq_refl eq_refl I)
      as (_ & _ & _ & Hthrown & _ & _ & _ & Hlater).
    destruct (Hthrown "AI service unavailable" eq_refl)
      as (Hresult & Htrace).
    split; [exact Hresult|]. split; [exact Htrace|exact Hlater].
Defined.

Lemma C10_witness :
  snd (executeNode sampleUnknown (everywhere offline) never
         (fst (runNodes sampleUnknown (everywhere offline) never
                 ["p"] fresh))
         (plainNode "u" "mystery"))
  = failure "Unknown node type: mystery"
  /\ snd (execute sampleUnknown (everywhere offline) never "now")
     = failure ("Failed at node " +++ dquote +++ "u" +++ dquote
                +++ ": Unknown node type: mystery")
  /\ statusOf
       (trace (fst (execute sampleUnknown (everywhere offline) never "now")))
       "u" = Error.
Proof.
  destruct (C10_unknown_type_fails sampleUnknown (everywhere offline) never
              "now"
              (fst (runNodes sampleUnknown (everywhere offline) never
                      ["p"] fresh))
              (plainNode "u" "mystery"))
    as (Hres & _ & _ & Hrun).
  - simpl. intuition discriminate.
  - split; [exact Hres|].
    apply (Hrun ["p"; "u"] ["p"] []); reflexivity.
Defined.

Section StopClaim.

Variable context : ExecutionContext.
Variable world : string -> Collaborators.
Variable stopDuring : string -> bool.
Variable finishedAt : string.

Local Abbreviation runNodes' := (runNodes context world stopDuring).
Local Abbreviation executeNode' := (executeNode context world stopDuring).
Local Abbreviation execute' := (execute context world stopDuring finishedAt).

(** The last step of a part of the schedule that ran to its end. *)
Lemma runNodes_last pre k node this :
  findNode context k = Some node ->
  runNodes' (pre ++ [k]) fresh = (this, None) ->
  exists before,
    runNodes' pre fresh = (before, None)
    /\ stopped before = false
    /\ success (snd (executeNode' before node)) = true
    /\ this = recordOutput (fst (executeNode' before node)) k
                (snd (executeNode' before node)).
Proof.
  intros Hfind. rewrite runNodes_app.
  destruct (runNodes' pre fresh) as [before [stop|]] eqn:Hpre; [discriminate|].
  rewrite runNodes_cons, Hfind.
  destruct (stopped before) eqn:Hstop; [discriminate|].
  destruct (executeNode' before node) as [this1 result] eqn:Hnode.
  destruct (success result) eqn:Hok; cbn [negb]; [|discriminate].
  rewrite runNodes_nil. intros H. inversion H; subst.
  exists before. rewrite Hnode. cbn [fst snd]. repeat split; auto.
Qed.


End StopClaim.



(* ================================================================== *)
(** ** Lookups by node type *)
(* ================================================================== *)

Lemma set_app_absent (V : Type) (m m' : JsMap.t V) k v :
  ~ In k (JsMap.keys m) -> JsMap.set k v (m ++ m') = m ++ JsMap.set k v m'.
Proof.
  induction m as [|[k0 v0] m IH]; simpl; auto.
  intros H. destruct (String.eqb_spec k0 k); [exfalso; auto|].
  f_equal. apply IH. tauto.
Qed.

Section TypeLookup.

Variable context : ExecutionContext.
Variable world : string -> Collaborators.
Variable stopDuring : string -> bool.

Local Abbreviation runNodes' := (runNodes context world stopDuring).
Local Abbreviation executeNode' := (executeNode context world stopDuring).

Variables (T i1 : string) (d1 : Value).

Lemma firstOfType_found node1 store :
  findNode context i1 = Some node1 ->
  type (data node1) = T ->
  firstOfType context T i1 d1 store ->
  findPreviousDataIn context store T = d1 /\ JsMap.get i1 store = Some d1.
Proof.
  intros Hfind1 Htype1 (front & back & -> & Hi1 & Hfree). split.
  - induction front as [|[j d] front IH]; simpl.
    + now rewrite Hfind1, Htype1, String.eqb_refl.
    + assert (Hrest : typeFree context T front).
      { intros j' n Hj'. apply Hfree. now right. }
      assert (Hi1' : ~ In i1 (JsMap.keys front)).
      { intros H. apply Hi1. now right. }
      destruct (findNode context j) as [n|] eqn:Hj; [|now apply IH].
      destruct (String.eqb_spec (type (data n)) T) as [Heq|_];
        [|now apply IH].
      exfalso. apply (Hfree j n); auto. now left.
  - induction front as [|[j d] front IH]; simpl.
    + now rewrite String.eqb_refl.
    + destruct (String.eqb_spec j i1) as [->|_].
      * exfalso. apply Hi1. now left.
      * apply IH.
        -- intros H. apply Hi1. now right.
        -- intros j' n Hj'. apply Hfree. now right.
Qed.

Lemma firstOfType_set store j d :
  j <> i1 -> firstOfType context T i1 d1 store ->
  firstOfType context T i1 d1 (JsMap.set j d store).
Proof.
  intros Hne (front & back & -> & Hi1 & Hfree).
  destruct (in_dec string_dec j (JsMap.keys front)) as [Hin|Hnin].
  - exists (JsMap.set j d front), back.
    split; [now apply set_app_present|].
    unfold typeFree. rewrite set_present by assumption. auto.
  - exists front, (JsMap.set j d back).
    split; [|auto].
    rewrite set_app_absent by assumption. simpl.
    now rewrite (proj2 (String.eqb_neq _ _) (not_eq_sym Hne)).
Qed.

Lemma runNodes_firstOfType order : forall this this',
  ~ In i1 order ->
  firstOfType context T i1 d1 (executionData this) ->
  runNodes' order this = (this', None) ->
  firstOfType context T i1 d1 (executionData this').
Proof.
  induction order as [|j order IH]; intros this this' Hi1 Hfirst.
  - rewrite runNodes_nil. intros H. now inversion H; subst.
  - rewrite runNodes_cons.
    destruct (stopped this); [discriminate|].
    destruct (findNode context j) as [node|].
    + pose proof (executeNode_store context world stopDuring this node) as Hs.
      destruct (executeNode' this node) as [this1 result]; cbn [fst] in Hs.
      destruct (negb (success result)); [discriminate|].
      apply IH; [intros H; apply Hi1; now right|].
      cbn [recordOutput executionData]. rewrite Hs.
      apply firstOfType_set; auto. intros ->. apply Hi1. now left.
    + apply IH; auto. intros H. apply Hi1. now right.
Qed.

End TypeLookup.

(** C2 (amended). When a run has executed two or more nodes of the same type
    successfully, a handler that later looks up predecessor data of that type
    gets the payload of the node of that type executed first: the earliest
    one wins, whatever nodes of that type follow it. *)
Theorem C2_first_executed_wins context world stopDuring
  order p1 i1 p2 node1 T this :
  NoDup order ->
  order = p1 ++ i1 :: p2 ->
  runNodes context world stopDuring order fresh = (this, None) ->
  findNode context i1 = Some node1 ->
  type (data node1) = T ->
  (forall j n, In j p1 -> findNode context j = Some n -> type (data n) <> T) ->
  exists before,
    runNodes context world stopDuring p1 fresh = (before, None)
    /\ JsMap.get i1 (executionData this)
       = Some (payload (snd (executeNode context world stopDuring
                               before node1)))
    /\ findPreviousData context this T
       = payload (snd (executeNode context world stopDuring before node1)).
Proof.
  intros Hnd -> Hrun Hfind Htype Hfree.
  rewrite runNodes_app in Hrun.
  destruct (runNodes context world stopDuring p1 fresh)
    as [before [stop|]] eqn:Hp1; [discriminate|].
  exists before. split; [reflexivity|].
  rewrite runNodes_cons, Hfind in Hrun.
  destruct (stopped before); [discriminate|].
  pose proof (executeNode_store context world stopDuring before node1) as Hs.
  destruct (executeNode context world stopDuring before node1)
    as [this1 result]; cbn [fst snd] in *.
  destruct (negb (success result)); [discriminate|].
  assert (Hi1 : ~ In i1 (JsMap.keys (executionData before))).
  { apply (prefix_untouched context world stopDuring p1 (i1 :: p2) before i1
             Hnd (or_introl eq_refl) Hp1). }
  assert (Hfirst : firstOfType context T i1 (payload result)
                     (executionData (recordOutput this1 i1 result))).
  { exists (executionData before), [].
    cbn [recordOutput executionData]. rewrite Hs.
    split; [now apply set_absent|]. split; [assumption|].
    intros j n Hj. apply Hfree.
    pose proof (runNodes_store_keys context world stopDuring p1 fresh j) as Hk.
    rewrite Hp1 in Hk. destruct (Hk Hj) as [[]|]; assumption. }
  assert (Hp2 : ~ In i1 p2).
  { apply NoDup_app_remove_l in Hnd. now inversion Hnd. }
  pose proof (runNodes_firstOfType context world stopDuring T i1
                (payload result) p2 _ this Hp2 Hfirst Hrun) as Hend.
  destruct (firstOfType_found context T i1 (payload result) node1 _
              Hfind Htype Hend) as [Hlookup Hget].
  split; assumption.
Qed.

Lemma C2_witness :
  exists before,
    runNodes sampleTwoProjects (everywhere offline) never [] fresh
    = (before, None)
    /\ JsMap.get "one"
         (executionData
            (fst (runNodes sampleTwoProjects (everywhere offline) never
                    ["one"; "two"] fresh)))
       = Some (payload (snd (executeNode sampleTwoProjects
                               (everywhere offline) never before
                               (projectNode "one" "First"))))
    /\ findPreviousData sampleTwoProjects
         (fst (runNodes sampleTwoProjects (everywhere offline) never
                 ["one"; "two"] fresh))
         "projectCreate"
       = payload (snd (executeNode sampleTwoProjects (everywhere offline)
                         never before (projectNode "one" "First"))).
Proof.
  apply (C2_first_executed_wins sampleTwoProjects (everywhere offline) never
           ["one"; "two"] [] "one" ["two"] (projectNode "one" "First")
           "projectCreate"
           (fst (runNodes sampleTwoProjects (everywhere offline) never
                   ["one"; "two"] fresh))).
  - repeat constructor; simpl; intuition discriminate.
  - reflexivity.
  - reflexivity.
  - reflexivity.
  - reflexivity.
  - intros j n [].
Defined.

(** C2 as stated fails: after the two project-create nodes "one" and "two"
    have run, in this order, the lookup by type - the one the completion node
    then makes - returns the payload of "one", not that of "two", the most
    recently executed. *)
Lemma C2_counterexample :
  let this := fst (runNodes sampleTwoProjects (everywhere offline) never
                     ["one"; "two"] fresh) in
  buildExecutionOrder (nodes sampleTwoProjects) (edges sampleTwoProjects)
  = Returned ["one"; "two"; "done"]
  /\ JsMap.get "one" (executionData this)
     = Some (VObj [("title", VStr "First"); ("description", VStr "");
                   ("timestamp", VStr (isoTime offline))])
  /\ JsMap.get "two" (executionData this)
     = Some (VObj [("title", VStr "Second"); ("description", VStr "");
                   ("timestamp", VStr (isoTime offline))])
  /\ findPreviousData sampleTwoProjects this "projectCreate"
     = VObj [("title", VStr "First"); ("description", VStr "");
             ("timestamp", VStr (isoTime offline))]
  /\ findPreviousData sampleTwoProjects this "projectCreate"
     <> VObj [("title", VStr "Second"); ("description", VStr "");
              ("timestamp", VStr (isoTime offline))].
Proof.
  cbv zeta. repeat split; try reflexivity.
  intros H. vm_compute in H. discriminate H.
Qed.

(* ================================================================== *)
(** ** Cycles and dangling edges in a run *)
(* ================================================================== *)

(** C5 (amended). For every graph whose edges reference only existing node
    ids and form a cycle, [buildExecutionOrder] fails: the sequence its loop
    produces is shorter than the node array and it reports a cycle;
    [execute] returns that failure without calling any handler and without
    changing any node's status. *)
Theorem C5_cycle_fails_run context world stopDuring finishedAt :
  wellFormed (nodes context) (edges context) ->
  cyclic (edges context) ->
  List.length (result (kahn (nodes context) (edges context)))
  < List.length (nodes context)
  /\ buildExecutionOrder (nodes context) (edges context)
     = Thrown "Workflow contains a cycle. Please check your connections."
  /\ execute context world stopDuring finishedAt
     = (fresh,
        failure "Workflow contains a cycle. Please check your connections.")
  /\ handlerCalls (trace (fst (execute context world stopDuring finishedAt)))
     = []
  /\ forall k,
       statusOf (trace (fst (execute context world stopDuring finishedAt))) k
       = Idle.
Proof.
  intros Hwf Hc.
  pose proof (buildExecutionOrder_cycle _ _ Hwf Hc) as Hb.
  assert (Hex : execute context world stopDuring finishedAt
                = (fresh, failure cycleMessage)).
  { unfold execute. rewrite Hb. reflexivity. }
  split; [now apply kahn_cycle_short|]. split; [exact Hb|].
  rewrite Hex. split; [reflexivity|]. split; reflexivity.
Qed.

Lemma C5_witness :
  List.length (result (kahn [plainNode "a" "compile"; plainNode "b" "deploy"]
                            [mkEdge "a" "b"; mkEdge "b" "a"])) < 2
  /\ buildExecutionOrder [plainNode "a" "compile"; plainNode "b" "deploy"]
                         [mkEdge "a" "b"; mkEdge "b" "a"]
     = Thrown "Workflow contains a cycle. Please check your connections."
  /\ execute (graphOf [plainNode "a" "compile"; plainNode "b" "deploy"]
                      [mkEdge "a" "b"; mkEdge "b" "a"])
             (everywhere offline) never "now"
     = (fresh,
        failure "Workflow contains a cycle. Please check your connections.")
  /\ handlerCalls
       (trace (fst (execute
                      (graphOf [plainNode "a" "compile"; plainNode "b" "deploy"]
                               [mkEdge "a" "b"; mkEdge "b" "a"])
                      (everywhere offline) never "now"))) = []
  /\ forall k,
       statusOf
         (trace (fst (execute
                        (graphOf [plainNode "a" "compile";
                                  plainNode "b" "deploy"]
                                 [mkEdge "a" "b"; mkEdge "b" "a"])
                        (everywhere offline) never "now"))) k = Idle.
Proof.
  apply (C5_cycle_fails_run
           (graphOf [plainNode "a" "compile"; plainNode "b" "deploy"]
                    [mkEdge "a" "b"; mkEdge "b" "a"])
           (everywhere offline) never "now").
  - intros e [<-|[<-|[]]]; simpl; tauto.
  - exists "a". apply t_trans with "b"; apply t_step.
    + exists (mkEdge "a" "b"). simpl. tauto.
    + exists (mkEdge "b" "a"). simpl. tauto.
Defined.

(** C5 as stated fails on a graph with a dangling edge: node "a" loops on
    itself, node "b" points to the id "y" that is no node; the loop outputs
    "b" and "y", as many ids as there are nodes, no cycle is reported, and the
    run calls the handler of "b" and succeeds. *)
Lemma C5_counterexample :
  cyclic (edges sampleLoopAndDangling)
  /\ buildExecutionOrder (nodes sampleLoopAndDangling)
                         (edges sampleLoopAndDangling)
     = Returned ["b"; "y"]
  /\ success (snd (execute sampleLoopAndDangling (everywhere offline)
                     never "now")) = true
  /\ handlerCalls
       (trace (fst (execute sampleLoopAndDangling (everywhere offline)
                      never "now"))) = ["b"]
  /\ statusOf
       (trace (fst (execute sampleLoopAndDangling (everywhere offline)
                      never "now"))) "b" = Success.
Proof.
  split; [|repeat split; reflexivity].
  exists "a". apply t_step. exists (mkEdge "a" "a"). simpl. tauto.
Qed.

(** Handlers read the store and the nodes, not the trace nor the edges. *)
Lemma runHandler_withEdges context world es es' this this' node :
  sameFields this this' ->
  snd (runHandler (withEdges context es) world this node)
  = snd (runHandler (withEdges context es') world this' node).
Proof.
  destruct this as [store s t], this' as [store' s' t'].
  intros [Hd Hs]. simpl in Hd, Hs. subst store' s'. reflexivity.
Qed.

Lemma generateSummary_withEdges context es es' this this' now :
  sameFields this this' ->
  generateSummary (withEdges context es) this now
  = generateSummary (withEdges context es') this' now.
Proof.
  destruct this as [store s t], this' as [store' s' t'].
  intros [Hd Hs]. simpl in Hd, Hs. subst store' s'. reflexivity.
Qed.

Lemma runNodes_withEdges context world stopDuring es es' order :
  forall this this',
    sameFields this this' ->
    sameFields (fst (runNodes (withEdges context es) world stopDuring
                       order this))
               (fst (runNodes (withEdges context es') world stopDuring
                       order this'))
    /\ snd (runNodes (withEdges context es) world stopDuring order this)
       = snd (runNodes (withEdges context es') world stopDuring order this').
Proof.
  induction order as [|nodeId order IH]; intros this this' Hsame.
  - now split.
  - rewrite !runNodes_cons.
    rewrite <- (proj2 Hsame). destruct (stopped this) eqn:Hs; [now split|].
    change (findNode (withEdges context es') nodeId)
      with (findNode (withEdges context es) nodeId).
    destruct (findNode (withEdges context es) nodeId) as [node|];
      [|now apply IH].
    pose proof (runHandler_withEdges context world es es' this this' node
                  Hsame) as Hres.
    pose proof (executeNode_result (withEdges context es) world stopDuring
                  this node) as R1.
    pose proof (executeNode_result (withEdges context es') world stopDuring
                  this' node) as R2.
    pose proof (executeNode_store (withEdges context es) world stopDuring
                  this node) as S1.
    pose proof (executeNode_store (withEdges context es') world stopDuring
                  this' node) as S2.
    pose proof (executeNode_stopped (withEdges context es) world stopDuring
                  this node) as T1.
    pose proof (executeNode_stopped (withEdges context es') world stopDuring
                  this' node) as T2.
    destruct (executeNode (withEdges context es) world stopDuring this node)
      as [this1 r1].
    destruct (executeNode (withEdges context es') world stopDuring this' node)
      as [this1' r1'].
    cbn [fst snd] in *.
    assert (Hr : r1 = r1') by congruence. clear R1 R2 Hres. subst r1'.
    destruct Hsame as [Hd Hst].
    assert (Hsame1 : sameFields this1 this1').
    { split; congruence. }
    destruct (negb (success r1)).
    + split; [exact Hsame1 | reflexivity].
    + apply IH. destruct Hsame1 as [Hd1 Hst1].
      split; cbn [recordOutput executionData stopped]; congruence.
Qed.

(** C9 (amended). Edge-endpoint existence is unenforced by the builder, and
    a missing in-degree is read as zero. An edge both of whose endpoints are
    absent from the node set is silently admitted: on a graph whose other
    edges reference existing nodes only, the in-degree map gets one more
    entry, 0 + 1, for the absent target, [buildExecutionOrder] returns what
    it returns without the edge, and the run has the same result. *)
Theorem C9_absent_endpoints_edge_admitted
  context world stopDuring finishedAt E1 E2 d :
  wellFormed (nodes context) (E1 ++ E2) ->
  ~ In (source d) (ids (nodes context)) ->
  ~ In (target d) (ids (nodes context)) ->
  JsMap.get (target d) (buildInDegree (nodes context) (E1 ++ d :: E2))
  = Some 1%Z
  /\ buildExecutionOrder (nodes context) (E1 ++ d :: E2)
     = buildExecutionOrder (nodes context) (E1 ++ E2)
  /\ snd (execute (withEdges context (E1 ++ d :: E2)) world stopDuring
            finishedAt)
     = snd (execute (withEdges context (E1 ++ E2)) world stopDuring
              finishedAt).
Proof.
  intros Hwf Hs Ht.
  assert (Hb : buildExecutionOrder (nodes context) (E1 ++ d :: E2)
               = buildExecutionOrder (nodes context) (E1 ++ E2)).
  { unfold buildExecutionOrder.
    now rewrite (kahn_absent_edge _ _ _ _ Hwf Hs Ht). }
  split; [|split; [exact Hb|]].
  - rewrite buildInDegree_absent_edge by assumption.
    assert (Hnone : JsMap.get (target d)
                      (buildInDegree (nodes context) (E1 ++ E2)) = None).
    { rewrite get_buildInDegree,
        (incoming_absent (nodes context) (E1 ++ E2)) by assumption.
      simpl. destruct (in_dec _ _ _); [contradiction | reflexivity]. }
    apply get_None in Hnone.
    rewrite <- (set_absent _ _ _ 1%Z Hnone). apply get_set_same.
  - unfold execute. cbn [withEdges nodes edges]. rewrite Hb.
    destruct (buildExecutionOrder (nodes context) (E1 ++ E2))
      as [order|e]; [|reflexivity].
    destruct (Nat.eqb (List.length order) 0); [reflexivity|].
    destruct (runNodes_withEdges context world stopDuring
                (E1 ++ d :: E2) (E1 ++ E2) order fresh fresh
                (conj eq_refl eq_refl)) as [Hsame Hres].
    fold (withEdges context (E1 ++ d :: E2)).
    fold (withEdges context (E1 ++ E2)).
    destruct (runNodes (withEdges context (E1 ++ d :: E2)) world stopDuring
                order fresh) as [this [failed|]];
      destruct (runNodes (withEdges context (E1 ++ E2)) world stopDuring
                  order fresh) as [this' [failed'|]];
      cbn [fst snd] in *; try discriminate.
    + now inversion Hres.
    + rewrite (generateSummary_withEdges context (E1 ++ d :: E2) (E1 ++ E2)
                 this this' finishedAt Hsame).
      destruct Hsame as [-> _]. reflexivity.
Qed.

Lemma C9_witness :
  JsMap.get "y"
    (buildInDegree (nodes sampleChain)
       ([mkEdge "one" "two"] ++ mkEdge "x" "y" :: [mkEdge "two" "three"]))
  = Some 1%Z
  /\ buildExecutionOrder (nodes sampleChain)
       ([mkEdge "one" "two"] ++ mkEdge "x" "y" :: [mkEdge "two" "three"])
     = buildExecutionOrder (nodes sampleChain)
         ([mkEdge "one" "two"] ++ [mkEdge "two" "three"])
  /\ snd (execute
            (withEdges sampleChain
               ([mkEdge "one" "two"] ++ mkEdge "x" "y"
                  :: [mkEdge "two" "three"]))
            (everywhere offline) never "now")
     = snd (execute
              (withEdges sampleChain
                 ([mkEdge "one" "two"] ++ [mkEdge "two" "three"]))
              (everywhere offline) never "now").
Proof.
  apply (C9_absent_endpoints_edge_admitted sampleChain (everywhere offline)
           never "now" [mkEdge "one" "two"] [mkEdge "two" "three"]
           (mkEdge "x" "y")).
  - intros e [<-|[<-|[]]]; simpl; tauto.
  - simpl. intuition discriminate.
  - simpl. intuition discriminate.
Defined.

(** C9 as stated fails when only one endpoint of the edge is absent: the
    single node "a" with an edge to the id "y" that is no node. Without the
    edge the builder returns "a"; with it the loop outputs "a" and "y", the
    builder reports a cycle and the run fails before any handler is called. *)
Lemma C9_counterexample :
  ~ In "y" (ids (nodes sampleDangling))
  /\ buildExecutionOrder (nodes sampleDangling) [] = Returned ["a"]
  /\ result (kahn (nodes sampleDangling) (edges sampleDangling)) = ["a"; "y"]
  /\ buildExecutionOrder (nodes sampleDangling) (edges sampleDangling)
     = Thrown "Workflow contains a cycle. Please check your connections."
  /\ execute sampleDangling (everywhere offline) never "now"
     = (fresh,
        failure "Workflow contains a cycle. Please check your connections.").
Proof.
  split; [simpl; intuition discriminate | repeat split; reflexivity].
Qed.

(* ================================================================== *)
(** ** The compile handler's error message *)
(* ================================================================== *)

Lemma join_concat sep items : join sep items = String.concat sep items.
Proof.
  induction items as [|x [|y items] IH]; simpl; auto.
Qed.

Lemma length_append (a b : string) :
  String.length (a +++ b) = String.length a + String.length b.
Proof.
  induction a as [|c a IH]; simpl; auto.
Qed.

(** [substring 0 n s] is the string of the first [n] characters of [s]. *)
Lemma substring_first n : forall s,
  n <= String.length s ->
  exists rest, s = substring 0 n s +++ rest
               /\ String.length (substring 0 n s) = n.
Proof.
  induction n as [|n IH]; intros s Hn.
  - exists s. destruct s; simpl; auto.
  - destruct s as [|c s]; simpl in *; [lia|].
    destruct (IH s) as (rest & Hs & Hl); [lia|].
    exists rest. split; [now rewrite <- Hs | now rewrite Hl].
Qed.

Lemma formatError_long err :
  500 < String.length err ->
  exists first rest,
    err = first +++ rest
    /\ String.length first = 500
    /\ formatError err = first +++ "... (truncated)".
Proof.
  intros H. unfold formatError.
  destruct (Nat.ltb_spec 500 (String.length err)); [|lia].
  destruct (substring_first 500 err) as (rest & Hs & Hl); [lia|].
  exists (substring 0 500 err), rest. auto.
Qed.

Lemma formatError_short err :
  String.length err <= 500 -> formatError err = err.
Proof.
  intros H. unfold formatError.
  destruct (Nat.ltb_spec 500 (String.length err)); [lia | reflexivity].
Qed.

(** C7. When the compile handler has its inputs (the contract code of an
    earlier contract-input node and a wallet address) and the compiler reports
    failure with a non-empty list of errors, the handler fails with the errors
    joined by blank lines, each error longer than 500 characters cut to its
    first 500 characters followed by the marker "... (truncated)", the others
    unchanged; an error of 1000 characters becomes 500 characters plus the
    marker. *)
Theorem C7_compile_errors_truncated context world this node address errs :
  truthy (field "contractCode" (findPreviousData context this "contractInput"))
  = true ->
  walletAddress (world (id node)) = Some address ->
  address <> "" ->
  compiled (compileContract (world (id node))
              (field "contractCode"
                 (findPreviousData context this "contractInput"))
              (orElse (field "contractName"
                         (findPreviousData context this "contractInput"))
                      (VStr "MyModule"))
              address) = false ->
  errors (compileContract (world (id node))
            (field "contractCode"
               (findPreviousData context this "contractInput"))
            (orElse (field "contractName"
                       (findPreviousData context this "contractInput"))
                    (VStr "MyModule"))
            address) = Some errs ->
  errs <> [] ->
  executeCompile context world this node
  = ret (failure (String.concat (newline +++ newline) (map formatError errs)))
  /\ (forall err, In err errs ->
        (500 < String.length err ->
         exists first rest,
           err = first +++ rest
           /\ String.length first = 500
           /\ formatError err = first +++ "... (truncated)")
        /\ (String.length err <= 500 -> formatError err = err))
  /\ (forall err, In err errs -> String.length err = 1000 ->
        String.length (formatError err)
        = 500 + String.length "... (truncated)").
Proof.
  intros Hcode Hwallet Haddr Hfail Herrs Hne.
  split; [|split].
  - unfold executeCompile. rewrite Hcode, Hwallet. cbn [negb].
    unfold present, ofOption, truthy.
    rewrite (proj2 (String.eqb_neq _ _) Haddr). cbn [negb].
    rewrite Hfail, Herrs. cbn [negb].
    destruct errs as [|e errs]; [congruence|].
    cbn [List.length Nat.ltb Nat.leb].
    now rewrite join_concat.
  - intros err _. split; [apply formatError_long | apply formatError_short].
  - intros err _ Hlen.
    destruct (formatError_long err) as (first & rest & _ & Hl & ->); [lia|].
    now rewrite length_append, Hl.
Qed.

Lemma C7_witness :
  executeCompile sampleCompile (everywhere rejecting) afterContractInput
    (plainNode "cc" "compile")
  = ret (failure (String.concat (newline +++ newline)
                    (map formatError [longError; "error[E1]: bad type"])))
  /\ (forall err, In err [longError; "error[E1]: bad type"] ->
        (500 < String.length err ->
         exists first rest,
           err = first +++ rest
           /\ String.length first = 500
           /\ formatError err = first +++ "... (truncated)")
        /\ (String.length err <= 500 -> formatError err = err))
  /\ (forall err, In err [longError; "error[E1]: bad type"] ->
        String.length err = 1000 ->
        String.length (formatError err)
        = 500 + String.length "... (truncated)").
Proof.
  apply (C7_compile_errors_truncated sampleCompile (everywhere rejecting)
           afterContractInput (plainNode "cc" "compile") "0x1"
           [longError; "error[E1]: bad type"]).
  - reflexivity.
  - reflexivity.
  - discriminate.
  - reflexivity.
  - reflexivity.
  - discriminate.
Defined.

(** The scenario of the claim, evaluated: the aggregated message is the
    first 500 characters of the long error, the marker, a blank line and the
    short error. *)
Lemma compile_truncation_example :
  message (nodeResult (snd (executeCompile sampleCompile (everywhere rejecting)
                              afterContractInput (plainNode "cc" "compile"))))
  = repeatString "e" 500 +++ "... (truncated)" +++ newline +++ newline
    +++ "error[E1]: bad type".
Proof. vm_compute. reflexivity. Qed.

(* ================================================================== *)
(** ** Further properties of the builder *)
(* ================================================================== *)

Lemma kahnLoop_idle fuel adj st : queue st = [] -> kahnLoop fuel adj st = st.
Proof. intros H. destruct fuel; simpl; [reflexivity | now rewrite H]. Qed.

Lemma kahn_no_nodes edges : kahn [] edges = kahnStart [] edges.
Proof.
  unfold kahn. apply kahnLoop_idle.
  destruct (queue (kahnStart [] edges)) as [|k q] eqn:E; [reflexivity|].
  assert (H : In k (queue (kahnStart [] edges))) by (rewrite E; now left).
  apply queue_kahnStart in H. destruct H as [[] _].
Qed.

(** X1. With no node at all, whatever the edges, [execute] fails with
    "No nodes to execute..." and makes no callback. *)
Theorem X1_execute_no_nodes context world stopDuring finishedAt :
  nodes context = [] ->
  execute context world stopDuring finishedAt
  = (fresh,
     failure "No nodes to execute. Please add nodes to your workflow.").
Proof.
  intros Hn. unfold execute, buildExecutionOrder.
  rewrite Hn, kahn_no_nodes. reflexivity.
Qed.

Lemma X1_witness :
  execute (graphOf [] [mkEdge "x" "y"; mkEdge "y" "x"]) (everywhere offline)
          never "now"
  = (fresh,
     failure "No nodes to execute. Please add nodes to your workflow.").
Proof.
  apply (X1_execute_no_nodes (graphOf [] [mkEdge "x" "y"; mkEdge "y" "x"])
           (everywhere offline) never "now").
  reflexivity.
Defined.

(** X2. On a graph with unique node ids whose edges reference existing
    nodes, [buildExecutionOrder] returns a schedule exactly when the edges
    form no cycle: the cycle error is never spurious there. *)
Theorem X2_schedule_iff_acyclic nodes edges :
  NoDup (ids nodes) -> wellFormed nodes edges ->
  ((exists order, buildExecutionOrder nodes edges = Returned order)
   <-> acyclic edges).
Proof.
  intros Hnd Hwf. split.
  - intros (order & Hb) v Hv.
    rewrite (buildExecutionOrder_cycle nodes edges Hwf (ex_intro _ v Hv)) in Hb.
    discriminate.
  - intros Hac. exists (result (kahn nodes edges)).
    pose proof (kahn_complete nodes edges Hwf Hac) as Hall.
    destruct (kahn_GraphInv nodes edges Hwf) as [_ (G1 & _)].
    rewrite kahn_queue_empty, app_nil_r in G1.
    unfold buildExecutionOrder.
    rewrite <- (length_map id nodes). fold (ids nodes).
    rewrite (same_length_of_mutual_incl _ _ (kahn_result_NoDup nodes edges)
               Hnd G1 Hall), Nat.eqb_refl.
    reflexivity.
Qed.

Lemma X2_witness :
  (exists order,
      buildExecutionOrder
        [plainNode "a" "compile"; plainNode "b" "deploy";
         plainNode "c" "contractInput"]
        [mkEdge "c" "a"; mkEdge "a" "b"] = Returned order)
  <-> acyclic [mkEdge "c" "a"; mkEdge "a" "b"].
Proof.
  apply (X2_schedule_iff_acyclic
           [plainNode "a" "compile"; plainNode "b" "deploy";
            plainNode "c" "contractInput"]
           [mkEdge "c" "a"; mkEdge "a" "b"]).
  - repeat constructor; simpl; intuition discriminate.
  - intros e [<-|[<-|[]]]; simpl; tauto.
Defined.

(** X3. On any input, a schedule [buildExecutionOrder] returns has as many
    ids as there are nodes, none twice, and each is the id of a node or the
    target of an edge. *)
Theorem X3_schedule_shape nodes edges order :
  buildExecutionOrder nodes edges = Returned order ->
  NoDup order
  /\ List.length order = List.length nodes
  /\ forall k, In k order ->
       In k (ids nodes) \/ exists e, In e edges /\ target e = k.
Proof.
  intros Hb. split; [now apply (buildExecutionOrder_NoDup nodes edges)|].
  unfold buildExecutionOrder in Hb.
  destruct (Nat.eqb_spec (List.length (result (kahn nodes edges)))
                         (List.length nodes)) as [Hlen|]; [|discriminate].
  inversion Hb; subst order. split; [exact Hlen|].
  intros k Hk. apply keys_buildInDegree.
  destruct (kahn_LoopInv nodes edges) as (_ & Hold & _).
  apply Hold. apply in_or_app. now left.
Qed.

Lemma X3_witness :
  NoDup ["b"; "y"]
  /\ List.length ["b"; "y"] = 2
  /\ forall k, In k ["b"; "y"] ->
       In k (ids (nodes sampleLoopAndDangling))
       \/ exists e, In e (edges sampleLoopAndDangling) /\ target e = k.
Proof.
  apply (X3_schedule_shape (nodes sampleLoopAndDangling)
           (edges sampleLoopAndDangling) ["b"; "y"]).
  reflexivity.
Defined.

(* ================================================================== *)
(** ** Further properties of a run *)
(* ================================================================== *)

Section MoreRunFacts.

Variable context : ExecutionContext.
Variable world : string -> Collaborators.
Variable stopDuring : string -> bool.
Variable finishedAt : string.

Local Abbreviation runNodes' := (runNodes context world stopDuring).
Local Abbreviation executeNode' := (executeNode context world stopDuring).
Local Abbreviation execute' := (execute context world stopDuring finishedAt).


(** Ids that resolve to no node are skipped without any callback. *)
Lemma runNodes_unresolved order : forall this k,
  findNode context k = None ->
  lifecycle (trace (fst (runNodes' order this))) k = lifecycle (trace this) k.
Proof.
  induction order as [|nodeId order IH]; intros this k Hk.
  - reflexivity.
  - rewrite runNodes_cons.
    destruct (stopped this); [reflexivity|].
    destruct (findNode context nodeId) as [node|] eqn:Hfind; [|now apply IH].
    pose proof (findNode_id _ _ _ Hfind) as Hid.
    destruct (executeNode_lifecycle context world stopDuring this node k)
      as (steps & Hlife & Hother & _).
    rewrite Hother, app_nil_r in Hlife by congruence.
    destruct (executeNode' this node) as [this1 result]; cbn [fst] in *.
    destruct (negb (success result)); cbn [fst]; [exact Hlife|].
    now rewrite IH.
Qed.

Lemma findNode_In nodeId node :
  findNode context nodeId = Some node -> In nodeId (ids (nodes context)).
Proof.
  intros H. pose proof (findNode_id _ _ _ H) as <-.
  unfold findNode in H. apply find_some in H.
  unfold ids. apply in_map. tauto.
Qed.

Lemma findNode_None nodeId :
  ~ In nodeId (ids (nodes context)) -> findNode context nodeId = None.
Proof.
  intros Hn. destruct (findNode context nodeId) as [node|] eqn:E; auto.
  exfalso. apply Hn. now apply findNode_In with node.
Qed.

(** X4. A run makes no status callback and calls no handler for an id that
    is not the id of a node, also when such an id is scheduled (as the
    target of a dangling edge): it is skipped silently. *)
Theorem X4_unknown_ids_skipped k :
  ~ In k (ids (nodes context)) ->
  lifecycle (trace (fst execute')) k = []
  /\ statusOf (trace (fst execute')) k = Idle
  /\ ~ In k (handlerCalls (trace (fst execute'))).
Proof.
  intros Hk. apply findNode_None in Hk.
  assert (H : lifecycle (trace (fst execute')) k = []).
  { unfold execute.
    destruct (buildExecutionOrder (nodes context) (edges context))
      as [order|e]; [|reflexivity].
    destruct (Nat.eqb (List.length order) 0); [reflexivity|].
    pose proof (runNodes_unresolved order fresh k Hk) as H.
    destruct (runNodes' order fresh) as [this [failed|]]; exact H. }
  split; [exact H|]. now apply untouched_idle.
Qed.




(** X6. A [stop()] that arrives while the last scheduled node is in flight
    comes too late: the flag is set but never read again, and the run
    reports success. *)
Theorem X6_stop_during_last_node_ignored order pre k node this :
  buildExecutionOrder (nodes context) (edges context) = Returned order ->
  order = pre ++ [k] ->
  findNode context k = Some node ->
  stopDuring k = true ->
  runNodes' order fresh = (this, None) ->
  stopped this = true
  /\ fst execute' = this
  /\ success (snd execute') = true
  /\ message (snd execute') = "Workflow executed successfully".
Proof.
  intros Hb Hord Hfind Hstop Hrun.
  assert (Hne : order <> []) by (subst; now destruct pre).
  rewrite (execute_run context world stopDuring finishedAt order Hb Hne), Hrun.
  cbn [fst snd]. split; [|repeat split].
  rewrite Hord in Hrun.
  destruct (runNodes_last context world stopDuring pre k node this Hfind Hrun)
    as (before & _ & _ & _ & ->).
  cbn [recordOutput stopped].
  rewrite executeNode_stopped, (findNode_id _ _ _ Hfind), Hstop.
  apply orb_true_r.
Qed.

End MoreRunFacts.


Lemma X6_witness :
  stopped (fst (runNodes sampleChain (everywhere offline)
                  (String.eqb "three") ["one"; "two"; "three"] fresh)) = true
  /\ fst (execute sampleChain (everywhere offline) (String.eqb "three") "now")
     = fst (runNodes sampleChain (everywhere offline)
              (String.eqb "three") ["one"; "two"; "three"] fresh)
  /\ success (snd (execute sampleChain (everywhere offline)
                     (String.eqb "three") "now")) = true
  /\ message (snd (execute sampleChain (everywhere offline)
                     (String.eqb "three") "now"))
     = "Workflow executed successfully".
Proof.
  apply (X6_stop_during_last_node_ignored sampleChain (everywhere offline)
           (String.eqb "three") "now" ["one"; "two"; "three"]
           ["one"; "two"] "three" (projectNode "three" "Third")
           (fst (runNodes sampleChain (everywhere offline)
                   (String.eqb "three") ["one"; "two"; "three"] fresh)));
    reflexivity.
Defined.

Lemma X4_witness :
  lifecycle (trace (fst (execute sampleLoopAndDangling (everywhere offline)
                           never "now"))) "y" = []
  /\ statusOf (trace (fst (execute sampleLoopAndDangling (everywhere offline)
                             never "now"))) "y" = Idle
  /\ ~ In "y" (handlerCalls
                 (trace (fst (execute sampleLoopAndDangling
                                (everywhere offline) never "now")))).
Proof.
  apply (X4_unknown_ids_skipped sampleLoopAndDangling (everywhere offline)
           never "now" "y").
  simpl. intuition discriminate.
Defined.

(* ================================================================== *)
(** ** Further properties of the handlers *)
(* ================================================================== *)

Lemma findPreviousData_none context T store :
  typeFree context T store -> findPreviousDataIn context store T = VNull.
Proof.
  induction store as [|[j d] store IH]; intros Hfree; simpl; [reflexivity|].
  assert (Hrest : typeFree context T store).
  { intros j' n Hj'. apply Hfree. now right. }
  destruct (findNode context j) as [n|] eqn:Hj; [|now apply IH].
  destruct (String.eqb_spec (type (data n)) T) as [Heq|_]; [|now apply IH].
  exfalso. apply (Hfree j n); auto. now left.
Qed.

(** X7. A handler whose predecessor never ran fails before it consults any
    collaborator: with no output of a contract-input, compile or
    generate-bytecode node in the store, the compile and AI-audit handlers
    fail for want of contract code, the ABI and bytecode handlers for want
    of a compilation result, the deploy handler for want of bytecode,
    whatever the collaborators would answer. *)
Theorem X7_missing_predecessor context world this node :
  typeFree context "contractInput" (executionData this) ->
  typeFree context "compile" (executionData this) ->
  typeFree context "generateBytecode" (executionData this) ->
  executeCompile context world this node
  = ret (failure
      "No contract code found. Please add a Contract Input node before compilation.")
  /\ executeAIAudit context world this node
     = ret (failure "No contract code found for analysis.")
  /\ executeGenerateABI context this node
     = ret (failure
         "No compilation result found. Please compile the contract first.")
  /\ executeGenerateBytecode context this node
     = ret (failure
         "No compilation result found. Please compile the contract first.")
  /\ executeDeploy context world this node
     = ret (failure
         "Bytecode is required. Please compile the contract and generate bytecode first. Check console for details.").
Proof.
  intros Hinput Hcompile Hbytecode.
  unfold executeCompile, executeAIAudit, executeGenerateABI,
    executeGenerateBytecode, executeDeploy, findPreviousData.
  rewrite (findPreviousData_none _ _ _ Hinput),
    (findPreviousData_none _ _ _ Hcompile),
    (findPreviousData_none _ _ _ Hbytecode).
  repeat split; reflexivity.
Qed.

Lemma X7_witness :
  executeCompile sampleCompile (everywhere rejecting) fresh
    (plainNode "cc" "compile")
  = ret (failure
      "No contract code found. Please add a Contract Input node before compilation.")
  /\ executeAIAudit sampleCompile (everywhere rejecting) fresh
       (plainNode "cc" "compile")
     = ret (failure "No contract code found for analysis.")
  /\ executeGenerateABI sampleCompile fresh (plainNode "cc" "compile")
     = ret (failure
         "No compilation result found. Please compile the contract first.")
  /\ executeGenerateBytecode sampleCompile fresh (plainNode "cc" "compile")
     = ret (failure
         "No compilation result found. Please compile the contract first.")
  /\ executeDeploy sampleCompile (everywhere rejecting) fresh
       (plainNode "cc" "compile")
     = ret (failure
         "Bytecode is required. Please compile the contract and generate bytecode first. Check console for details.").
Proof.
  apply (X7_missing_predecessor sampleCompile (everywhere rejecting) fresh
           (plainNode "cc" "compile")); intros j n [].
Defined.













(* ================================================================== *)
(** ** Constructor parameters *)
(* ================================================================== *)

Lemma isEmpty_true s : isEmpty s = true <-> s = "".
Proof. unfold isEmpty. apply String.eqb_eq. Qed.

Lemma isEmpty_false s : isEmpty s = false <-> s <> "".
Proof. unfold isEmpty. apply String.eqb_neq. Qed.

Lemma startsWith_0x value :
  startsWith value "0x" = true <-> exists h, value = "0x" +++ h.
Proof.
  split.
  - destruct value as [|c1 [|c2 h]]; simpl; try discriminate.
    + now rewrite andb_false_r.
    + destruct (Ascii.eqb_spec c1 "0") as [->|]; [|discriminate].
      destruct (Ascii.eqb_spec c2 "x") as [->|]; [|discriminate].
      intros _. now exists h.
  - intros (h & ->). reflexivity.
Qed.

(** X10. For the type [address] the validator accepts exactly the strings
    made of "0x" followed by one or more hexadecimal digits. *)
Theorem X10_address_accepted_iff parse value :
  fst (validateConstructorArg parse value "address") = true
  <-> exists h, value = "0x" +++ h /\ h <> ""
                /\ allChars isHexDigit h = true.
Proof.
  unfold validateConstructorArg, isHexAddress.
  change (String.eqb "address" "string") with false.
  change (String.eqb "address" "address") with true.
  cbn [negb andb]. rewrite andb_true_r. split.
  - destruct (isEmpty value) eqn:He; [discriminate|].
    destruct (startsWith value "0x") eqn:Hs; cbn [negb orb andb];
      [|discriminate].
    apply startsWith_0x in Hs. destruct Hs as (h & ->).
    change (drop 2 ("0x" +++ h)) with h.
    destruct (Nat.ltb _ 3); [discriminate|].
    destruct (isEmpty h) eqn:Hh; cbn [negb andb]; [discriminate|].
    destruct (allChars isHexDigit h) eqn:Hx; cbn [negb]; [|discriminate].
    intros _. exists h. split; [reflexivity|].
    split; [now apply isEmpty_false | assumption].
  - intros (h & -> & Hne & Hx).
    assert (Hs : startsWith ("0x" +++ h) "0x" = true).
    { apply startsWith_0x. now exists h. }
    rewrite Hs. change (drop 2 ("0x" +++ h)) with h.
    change (isEmpty ("0x" +++ h)) with false.
    rewrite (proj2 (isEmpty_false h) Hne), Hx.
    destruct h as [|c h]; [congruence|]. reflexivity.
Qed.

Lemma starts_with_u type :
  startsWith type "u" = true -> exists rest, type = String "u" rest.
Proof.
  destruct type as [|c rest]; simpl; [discriminate|].
  destruct (Ascii.eqb_spec c "u") as [->|]; [|discriminate].
  intros _. now exists rest.
Qed.

(** X11. For every type whose name starts with "u" (u8 ... u256, and any
    other such name) the validator accepts exactly the non-empty strings of
    decimal digits. *)
Theorem X11_unsigned_accepted_iff parse value type :
  startsWith type "u" = true ->
  (fst (validateConstructorArg parse value type) = true
   <-> value <> "" /\ allChars isDigit value = true).
Proof.
  intros Hu. destruct (starts_with_u type Hu) as (rest & ->).
  unfold validateConstructorArg, isDigits. rewrite Hu.
  change (String.eqb (String "u" rest) "string") with false.
  change (String.eqb (String "u" rest) "address") with false.
  cbn [negb andb orb]. rewrite andb_true_r.
  destruct (isEmpty value) eqn:He; cbn [negb andb].
  - apply isEmpty_true in He. split; [discriminate | tauto].
  - apply isEmpty_false in He.
    destruct (allChars isDigit value); cbn [negb fst]; split; auto.
    + intros [_ H]. discriminate.
Qed.

Lemma X11_witness :
  fst (validateConstructorArg (fun _ => Thrown "Unexpected token")
         "18446744073709551615" "u64") = true
  <-> "18446744073709551615" <> ""
      /\ allChars isDigit "18446744073709551615" = true.
Proof.
  apply (X11_unsigned_accepted_iff (fun _ => Thrown "Unexpected token")
           "18446744073709551615" "u64").
  reflexivity.
Defined.

(** X12. For the type [bool] the validator accepts exactly "true" and
    "false"; for the type [string] it accepts every value, the empty one
    too; for a type it does not know it accepts every non-empty value. *)
Theorem X12_bool_string_other parse value :
  (fst (validateConstructorArg parse value "bool") = true
   <-> value = "true" \/ value = "false")
  /\ validateConstructorArg parse value "string" = (true, None)
  /\ forall type,
       type <> "string" -> type <> "address" -> startsWith type "u" = false ->
       type <> "bool" -> type <> "vector" ->
       (fst (validateConstructorArg parse value type) = true <-> value <> "").
Proof.
  split; [|split].
  - unfold validateConstructorArg.
    change (String.eqb "bool" "string") with false.
    change (String.eqb "bool" "address") with false.
    change (startsWith "bool" "u") with false.
    change (startsWith "bool" "u64") with false.
    change (startsWith "bool" "u128") with false.
    change (startsWith "bool" "u256") with false.
    change (String.eqb "bool" "bool") with true.
    cbn [negb andb orb]. rewrite andb_true_r.
    destruct (isEmpty value) eqn:He.
    + apply isEmpty_true in He. subst. split; [discriminate|].
      intros [H|H]; discriminate.
    + destruct (String.eqb_spec value "true") as [->|Ht].
      * split; auto.
      * destruct (String.eqb_spec value "false") as [->|Hf].
        -- split; auto.
        -- cbn. split; [discriminate | tauto].
  - unfold validateConstructorArg.
    rewrite andb_false_r. reflexivity.
  - intros type Hs Ha Hu Hb Hv.
    unfold validateConstructorArg.
    assert (Hu' : forall p, startsWith type (String "u" p) = false).
    { intros p. destruct type as [|c t]; simpl in *; [reflexivity|].
      rewrite andb_true_r in Hu. now rewrite Hu. }
    rewrite (proj2 (String.eqb_neq _ _) Hs), (proj2 (String.eqb_neq _ _) Ha),
      (proj2 (String.eqb_neq _ _) Hb), (proj2 (String.eqb_neq _ _) Hv), Hu.
    change "u64" with (String "u" "64"). change "u128" with (String "u" "128").
    change "u256" with (String "u" "256"). rewrite !Hu'.
    cbn [negb andb orb]. rewrite andb_true_r.
    destruct (isEmpty value) eqn:He; cbn [fst].
    + apply isEmpty_true in He. split; [discriminate | tauto].
    + apply isEmpty_false in He. tauto.
Qed.

(** X13. The default of a type, asked without a parameter name, passes the
    validator of that type for address, the unsigned types, string and bool;
    for a type that is none of these nor vector the default is the empty
    string, which the validator rejects with "Value is required". *)
Theorem X13_default_validates parse nowMs type :
  (type = "address" \/ startsWith type "u" = true \/ type = "string"
   \/ type = "bool" ->
   validateConstructorArg parse (getDefaultValue nowMs type None) type
   = (true, None))
  /\ (type <> "address" -> startsWith type "u" = false -> type <> "string" ->
      type <> "bool" -> type <> "vector" ->
      getDefaultValue nowMs type None = ""
      /\ validateConstructorArg parse (getDefaultValue nowMs type None) type
         = (false, Some "Value is required")).
Proof.
  split.
  - intros [ -> | [ Hu | [ -> | -> ] ] ]; try reflexivity.
    destruct (starts_with_u type Hu) as (rest & ->).
    unfold getDefaultValue, defaultByType, validateConstructorArg.
    rewrite Hu.
    change (String.eqb (String "u" rest) "address") with false.
    change (String.eqb (String "u" rest) "string") with false.
    rewrite !orb_true_r. reflexivity.
  - intros Ha Hu Hs Hb Hv.
    assert (Hd : getDefaultValue nowMs type None = "").
    { unfold getDefaultValue, defaultByType.
      rewrite (proj2 (String.eqb_neq _ _) Ha), (proj2 (String.eqb_neq _ _) Hs),
        (proj2 (String.eqb_neq _ _) Hb), (proj2 (String.eqb_neq _ _) Hv), Hu.
      destruct (String.eqb_spec type "u64") as [->|_]; [discriminate|].
      destruct (String.eqb_spec type "u128") as [->|_]; [discriminate|].
      destruct (String.eqb_spec type "u256") as [->|_]; [discriminate|].
      reflexivity. }
    split; [exact Hd|]. rewrite Hd. unfold validateConstructorArg.
    now rewrite (proj2 (String.eqb_neq _ _) Hs).
Qed.

(** X14. A parameter name is stronger than the type: for the type [address]
    and any name that contains "supply" in whatever letter case, the default
    is "1000000", which the validator of [address] rejects. *)
Theorem X14_named_default_can_be_invalid parse nowMs name :
  name <> "" ->
  includes (toLowerCase name) "supply" = true ->
  getDefaultValue nowMs "address" (Some name) = "1000000"
  /\ validateConstructorArg parse
       (getDefaultValue nowMs "address" (Some name)) "address"
     = (false, Some "Invalid Aptos address").
Proof.
  intros Hne Hin.
  assert (Hd : getDefaultValue nowMs "address" (Some name) = "1000000").
  { unfold getDefaultValue.
    rewrite (proj2 (isEmpty_false name) Hne).
    change (String.eqb "address" "string") with false.
    rewrite !andb_false_r, Hin. reflexivity. }
  split; [exact Hd|]. rewrite Hd. reflexivity.
Qed.

Lemma X14_witness :
  getDefaultValue 1700000000000 "address" (Some "initialSUPPLY") = "1000000"
  /\ validateConstructorArg (fun _ => Thrown "Unexpected token")
       (getDefaultValue 1700000000000 "address" (Some "initialSUPPLY"))
       "address"
     = (false, Some "Invalid Aptos address").
Proof.
  apply (X14_named_default_can_be_invalid (fun _ => Thrown "Unexpected token")
           1700000000000 "initialSUPPLY").
  - discriminate.
  - reflexivity.
Defined.





(** X16. [extractConstructorParams] returns no parameter, whatever the ABI:
    not when the ABI or its function list is missing, not when no function
    name contains "init", not when one does, and not when reading the ABI
    throws. *)
Theorem X16_no_constructor_params abi : extractConstructorParams abi = [].
Proof.
  unfold extractConstructorParams.
  destruct (negb (truthy abi) || negb (truthy (field "functions" abi)));
    [reflexivity|].
  destruct (field "functions" abi); try reflexivity.
  destruct (findInit items) as [[initModule|]|e]; try reflexivity.
  destruct (negb (truthy initModule)); reflexivity.
Qed.

Lemma X13_witness :
  validateConstructorArg (fun _ => Thrown "Unexpected token")
    (getDefaultValue 1700000000000 "u64" None) "u64" = (true, None)
  /\ getDefaultValue 1700000000000 "u64" None = "0".
Proof.
  split; [|reflexivity].
  apply (proj1 (X13_default_validates (fun _ => Thrown "Unexpected token")
                  1700000000000 "u64")).
  right; left; reflexivity.
Defined.


(* ================================================================== *)
(** ** Strings: runs of a character class, prefixes, search *)
(* ================================================================== *)

Lemma append_assoc (a b c : string) : (a +++ b) +++ c = a +++ b +++ c.
Proof.
  induction a as [|x a IH]; simpl; [reflexivity|now rewrite IH].
Qed.

Lemma append_empty_r (a : string) : a +++ "" = a.
Proof.
  induction a as [|x a IH]; simpl; [reflexivity|now rewrite IH].
Qed.

Lemma takeWhile_dropWhile p s : s = takeWhile p s +++ dropWhile p s.
Proof.
  induction s as [|c s IH]; simpl; [reflexivity|].
  destruct (p c); simpl; [now rewrite <- IH|reflexivity].
Qed.

Lemma allChars_takeWhile p s : allChars p (takeWhile p s) = true.
Proof.
  induction s as [|c s IH]; simpl; [reflexivity|].
  destruct (p c) eqn:Hc; simpl; [now rewrite Hc|reflexivity].
Qed.

Lemma takeWhile_app p a b :
  allChars p a = true -> takeWhile p (a +++ b) = a +++ takeWhile p b.
Proof.
  induction a as [|c a IH]; simpl; [reflexivity|].
  intros H. apply andb_prop in H as [Hc Ha]. now rewrite Hc, IH.
Qed.

Lemma dropWhile_app p a b :
  allChars p a = true -> dropWhile p (a +++ b) = dropWhile p b.
Proof.
  induction a as [|c a IH]; simpl; [reflexivity|].
  intros H. apply andb_prop in H as [Hc Ha]. now rewrite Hc, IH.
Qed.

Lemma allChars_app p a b :
  allChars p (a +++ b) = allChars p a && allChars p b.
Proof.
  induction a as [|c a IH]; simpl; [reflexivity|].
  now rewrite IH, andb_assoc.
Qed.

Lemma startsWith_app p r : startsWith (p +++ r) p = true.
Proof.
  induction p as [|c p IH]; simpl; [reflexivity|].
  now rewrite Ascii.eqb_refl, IH.
Qed.

Lemma drop_app p r : drop (String.length p) (p +++ r) = r.
Proof.
  induction p as [|c p IH]; simpl; [reflexivity|exact IH].
Qed.

Lemma startsWith_split p : forall s,
  startsWith s p = true -> s = p +++ drop (String.length p) s.
Proof.
  induction p as [|c p IH]; intros s H; simpl in *; [reflexivity|].
  destruct s as [|d s]; [discriminate|].
  apply andb_prop in H as [Hc Hp]. apply Ascii.eqb_eq in Hc. subst d.
  simpl. now rewrite <- (IH s Hp).
Qed.

(** A prefix test looks at no more of the string than the prefix is long. *)
Lemma startsWith_within p : forall a b,
  String.length p <= String.length a ->
  startsWith (a +++ b) p = startsWith a p.
Proof.
  induction p as [|c p IH]; intros a b Hlen; simpl; [reflexivity|].
  destruct a as [|d a]; simpl in *; [lia|].
  rewrite (IH a b); [reflexivity|lia].
Qed.

Lemma includes_app_r needle : forall a b,
  includes b needle = true -> includes (a +++ b) needle = true.
Proof.
  induction a as [|c a IH]; intros b H; simpl; [exact H|].
  rewrite (IH b H). apply orb_true_r.
Qed.

Lemma includes_startsWith s needle :
  startsWith s needle = true -> includes s needle = true.
Proof.
  intros H. destruct s; simpl; rewrite H; reflexivity.
Qed.

Section Search.

Import ContractCompiler.

Variable A : Type.
Variable matchAt : string -> option A.

Lemma search_here s m : matchAt s = Some m -> search matchAt s = Some m.
Proof.
  intros H. destruct s; simpl; now rewrite H.
Qed.

(** A match found by the search begins somewhere in the string. *)
Lemma search_sound : forall s m,
  search matchAt s = Some m ->
  exists before rest, s = before +++ rest /\ matchAt rest = Some m.
Proof.
  induction s as [|c s IH]; intros m H; simpl in H.
  - destruct (matchAt "") eqn:E; [|discriminate].
    inversion H; subst. exists "", "". split; [reflexivity|exact E].
  - destruct (matchAt (String c s)) eqn:E.
    + inversion H; subst. exists "", (String c s). split; [reflexivity|exact E].
    + destruct (IH m H) as (before & rest & -> & Hm).
      exists (String c before), rest. split; [reflexivity|exact Hm].
Qed.

(** Where a match begins somewhere, the search finds one. *)
Lemma search_complete rest m : forall before,
  matchAt rest = Some m ->
  exists m', search matchAt (before +++ rest) = Some m'.
Proof.
  induction before as [|c before IH]; intros H; simpl.
  - exists m. now apply search_here.
  - destruct (matchAt (String c (before +++ rest))); eauto.
Qed.

(** The search skips a stretch in which no match begins. *)
Lemma search_skip rest : forall before,
  (forall skipped more, before = skipped +++ more -> more <> "" ->
     matchAt (more +++ rest) = None) ->
  search matchAt (before +++ rest) = search matchAt rest.
Proof.
  induction before as [|c before IH]; intros H; [reflexivity|].
  cbn [String.append search].
  change (String c (before +++ rest)) with (String c before +++ rest).
  rewrite (H "" (String c before) eq_refl) by discriminate.
  apply IH. intros skipped more -> Hmore.
  apply (H (String c skipped) more eq_refl Hmore).
Qed.

End Search.

(* ================================================================== *)
(** ** The compiler client: module declarations *)
(* ================================================================== *)

Module CompilerFacts.

Import ContractCompiler.

Lemma not_word_colon rest : takeWhile isWordChar ("::" +++ rest) = "".
Proof. reflexivity. Qed.

(** What a match at the head of the string says about the string. *)
Lemma declarationAt_sound s d :
  declarationAt s = Some d ->
  exists space,
    s = "module" +++ space +++ declAddress d +++ "::" +++ declName d
        +++ declRest d
    /\ space <> "" /\ allChars isWhiteSpace space = true
    /\ declAddress d <> "" /\ allChars isWordChar (declAddress d) = true
    /\ declName d <> "" /\ allChars isWordChar (declName d) = true.
Proof.
  unfold declarationAt. intros H.
  destruct (startsWith s "module") eqn:Hm; [|discriminate]. cbn [negb] in H.
  destruct (isEmpty (takeWhile isWhiteSpace (drop 6 s))) eqn:Hs;
    [discriminate|].
  destruct (isEmpty (takeWhile isWordChar
              (dropWhile isWhiteSpace (drop 6 s)))) eqn:Ha; [discriminate|].
  destruct (startsWith (dropWhile isWordChar
              (dropWhile isWhiteSpace (drop 6 s))) "::") eqn:Hc;
    [|discriminate].
  cbn [orb negb] in H.
  destruct (isEmpty (takeWhile isWordChar
              (drop 2 (dropWhile isWordChar
                 (dropWhile isWhiteSpace (drop 6 s)))))) eqn:Hn;
    [discriminate|].
  injection H as <-.
  set (s2 := dropWhile isWhiteSpace (drop 6 s)) in *.
  set (s4 := drop 2 (dropWhile isWordChar s2)) in *.
  change (exists space,
    s = "module" +++ space +++ takeWhile isWordChar s2 +++ "::"
        +++ takeWhile isWordChar s4 +++ dropWhile isWordChar s4
    /\ space <> "" /\ allChars isWhiteSpace space = true
    /\ takeWhile isWordChar s2 <> ""
    /\ allChars isWordChar (takeWhile isWordChar s2) = true
    /\ takeWhile isWordChar s4 <> ""
    /\ allChars isWordChar (takeWhile isWordChar s4) = true).
  exists (takeWhile isWhiteSpace (drop 6 s)).
  repeat split.
  - subst s2 s4. pose proof (startsWith_split "::" _ Hc) as Ec.
    pose proof (startsWith_split "module" s Hm) as Em.
    cbn [String.length] in Ec, Em.
    rewrite <- (takeWhile_dropWhile isWordChar (drop 2 _)), <- Ec.
    rewrite <- (takeWhile_dropWhile isWordChar).
    rewrite <- (takeWhile_dropWhile isWhiteSpace).
    exact Em.
  - now apply isEmpty_false.
  - apply allChars_takeWhile.
  - now apply isEmpty_false.
  - apply allChars_takeWhile.
  - now apply isEmpty_false.
  - apply allChars_takeWhile.
Qed.

Lemma takeWhile_stop p a c rest :
  allChars p a = true -> p c = false ->
  takeWhile p (a +++ String c rest) = a
  /\ dropWhile p (a +++ String c rest) = String c rest.
Proof.
  intros Ha Hc. rewrite takeWhile_app, dropWhile_app by exact Ha.
  simpl. rewrite Hc. now rewrite append_empty_r.
Qed.

Lemma word_not_space c : isWordChar c = true -> isWhiteSpace c = false.
Proof.
  unfold isWordChar, isWhiteSpace, isDigit, between, charCode.
  intros H.
  destruct (Nat.leb_spec 9 (nat_of_ascii c)), (Nat.leb_spec (nat_of_ascii c) 13),
    (Nat.eqb_spec (nat_of_ascii c) 32), (Nat.eqb_spec (nat_of_ascii c) 160);
    cbn [andb orb]; try reflexivity; exfalso;
    repeat match goal with
    | H : context [Nat.leb ?a ?b] |- _ => destruct (Nat.leb_spec a b)
    | H : context [Nat.eqb ?a ?b] |- _ => destruct (Nat.eqb_spec a b)
    end; cbn [andb orb] in H; try discriminate; lia.
Qed.

(** A declaration written at the head of the string is matched there, with
    the named address as written. *)
Lemma declarationAt_complete space a c rest :
  space <> "" -> allChars isWhiteSpace space = true ->
  a <> "" -> allChars isWordChar a = true ->
  isWordChar c = true ->
  exists d,
    declarationAt ("module" +++ space +++ a +++ "::" +++ String c rest)
    = Some d
    /\ declAddress d = a.
Proof.
  intros Hs Hsp Ha Hword Hc.
  destruct a as [|a0 a']; [congruence|].
  assert (Ha0 : isWhiteSpace a0 = false).
  { apply word_not_space. simpl in Hword. now apply andb_prop in Hword. }
  unfold declarationAt.
  change (startsWith ("module" +++ space +++ String a0 a' +++ "::"
                      +++ String c rest) "module") with true.
  cbn [negb].
  change (drop 6 ("module" +++ space +++ String a0 a' +++ "::"
                  +++ String c rest))
    with (space +++ String a0 (a' +++ "::" +++ String c rest)).
  destruct (takeWhile_stop isWhiteSpace space a0
              (a' +++ "::" +++ String c rest) Hsp Ha0) as [-> ->].
  rewrite (proj2 (isEmpty_false space) Hs).
  change (String a0 (a' +++ "::" +++ String c rest))
    with (String a0 a' +++ String ":" (":" +++ String c rest)).
  destruct (takeWhile_stop isWordChar (String a0 a') ":"
              (":" +++ String c rest) Hword eq_refl) as [-> ->].
  cbn [isEmpty String.eqb orb negb].
  change (startsWith (String ":" (":" +++ String c rest)) "::") with true.
  cbn [negb].
  change (drop 2 (String ":" (":" +++ String c rest))) with (String c rest).
  cbn [takeWhile]. rewrite Hc. cbn [isEmpty String.eqb].
  eexists. split; reflexivity.
Qed.

Lemma declares_of_search s d :
  search declarationAt s = Some d -> Declares s (declAddress d).
Proof.
  intros H. apply search_sound in H as (before & rest & -> & H).
  apply declarationAt_sound in H
    as (space & -> & Hs & Hsp & Ha & Hword & Hn & Hname).
  exists before, space, (declName d), (declRest d). repeat split; assumption.
Qed.

Lemma search_of_declares s a :
  Declares s a -> exists d, search declarationAt s = Some d.
Proof.
  intros (before & space & name & rest & -> & Hs & Hsp & Ha & Hword
          & Hn & Hname).
  destruct name as [|c name]; [congruence|].
  simpl in Hname. apply andb_prop in Hname as [Hc _].
  destruct (declarationAt_complete space a c (name +++ rest)
              Hs Hsp Ha Hword Hc) as (d & Hd & _).
  apply (search_complete _ declarationAt _ d before). exact Hd.
Qed.

Lemma includes_module s a : Declares s a -> includes s "module" = true.
Proof.
  intros (before & space & name & rest & -> & _).
  apply includes_app_r, includes_startsWith, startsWith_app.
Qed.

Lemma trimEnd_empty s :
  trimEnd s = "" <-> allChars isWhiteSpace s = true.
Proof.
  induction s as [|c s IH]; simpl; [tauto|].
  destruct (isEmpty (trimEnd s)) eqn:He.
  - apply isEmpty_true in He. destruct (isWhiteSpace c); simpl.
    + split; [intros _; now apply IH|reflexivity].
    + split; discriminate.
  - apply isEmpty_false in He. simpl. split; [discriminate|].
    intros H. apply andb_prop in H as [_ H]. apply IH in H. contradiction.
Qed.

Lemma allChars_dropWhile p s :
  allChars p (dropWhile p s) = allChars p s.
Proof.
  induction s as [|c s IH]; simpl; [reflexivity|].
  destruct (p c) eqn:Hc; simpl; [exact IH|now rewrite Hc].
Qed.

(** [sourceCode.trim().length === 0] holds of white space only. *)
Lemma trim_blank s :
  Nat.eqb (String.length (trim s)) 0 = allChars isWhiteSpace s.
Proof.
  unfold trim. rewrite <- (allChars_dropWhile isWhiteSpace s).
  destruct (allChars isWhiteSpace (dropWhile isWhiteSpace s)) eqn:H.
  - apply trimEnd_empty in H. now rewrite H.
  - destruct (trimEnd (dropWhile isWhiteSpace s)) eqn:E; [|reflexivity].
    apply trimEnd_empty in E. congruence.
Qed.

Lemma declares_not_blank s a :
  Declares s a -> isEmpty s || Nat.eqb (String.length (trim s)) 0 = false.
Proof.
  intros (before & space & name & rest & -> & _).
  rewrite trim_blank, allChars_app. simpl. rewrite andb_false_r, orb_false_r.
  apply isEmpty_false. destruct before; discriminate.
Qed.

End CompilerFacts.

Module CompilerVerdicts.

Import ContractCompiler CompilerFacts.

(** The verdict on a source whose leftmost declaration is known. *)
Lemma verdict_of_search s d :
  search declarationAt s = Some d ->
  validateMoveCode s
  = if String.eqb (declAddress d) "Deployer" then (true, None)
    else (false, Some (wrongAddress (declAddress d))).
Proof.
  intros H. pose proof (declares_of_search s d H) as Hd.
  unfold validateMoveCode.
  rewrite (declares_not_blank s _ Hd), (includes_module s _ Hd), H.
  cbn [negb]. now destruct (String.eqb (declAddress d) "Deployer").
Qed.

Lemma verdict_of_declares s :
  (exists a, Declares s a) ->
  validateMoveCode s = (true, None)
  \/ exists a, a <> "Deployer"
       /\ validateMoveCode s = (false, Some (wrongAddress a)).
Proof.
  intros (a & Ha). destruct (search_of_declares s a Ha) as (d & Hd).
  rewrite (verdict_of_search s d Hd).
  destruct (String.eqb_spec (declAddress d) "Deployer") as [E|E];
    [left; reflexivity|right; eauto].
Qed.

Lemma declares_of_accepted s :
  fst (validateMoveCode s) = true -> Declares s "Deployer".
Proof.
  unfold validateMoveCode.
  destruct (isEmpty s || Nat.eqb (String.length (trim s)) 0); [discriminate|].
  destruct (negb (includes s "module")); [discriminate|].
  destruct (search declarationAt s) as [d|] eqn:Hd; [|discriminate].
  destruct (String.eqb_spec (declAddress d) "Deployer") as [E|E];
    [|discriminate].
  intros _. rewrite <- E. now apply declares_of_search.
Qed.

Lemma definition_is_declaration s d :
  search definitionAt s = Some d ->
  exists d', search declarationAt s = Some d'.
Proof.
  intros H. apply search_sound in H as (before & rest & -> & H).
  unfold definitionAt in H.
  destruct (declarationAt rest) as [d'|] eqn:Hd; [|discriminate].
  exact (search_complete _ declarationAt rest d' before Hd).
Qed.

Lemma extracted_name s n :
  extractContractName s = Some n ->
  n <> "" /\ allChars isWordChar n = true
  /\ exists d, search declarationAt s = Some d.
Proof.
  unfold extractContractName.
  destruct (search definitionAt s) as [d|] eqn:H; [|discriminate].
  intros E. injection E as <-.
  split; [|split; [|exact (definition_is_declaration s d H)]];
    apply search_sound in H as (before & rest & -> & H);
    unfold definitionAt in H;
    destruct (declarationAt rest) as [d'|] eqn:Hd; try discriminate;
    destruct (startsWith _ "{"); try discriminate;
    injection H as <-;
    apply declarationAt_sound in Hd as (space & _ & _ & _ & _ & _ & Hn & Hw);
    assumption.
Qed.

End CompilerVerdicts.

(** X17. [validateMoveCode] accepts a source only if it declares a module
    at the named address Deployer: somewhere in it stands [module], white
    space, [Deployer::] and a module name. *)
Theorem X17_accepted_declares_deployer s :
  fst (ContractCompiler.validateMoveCode s) = true ->
  ContractCompiler.Declares s "Deployer".
Proof.
  apply CompilerVerdicts.declares_of_accepted.
Qed.

Lemma X17_witness :
  ContractCompiler.Declares "module Deployer::counter { }" "Deployer".
Proof.
  apply (X17_accepted_declares_deployer "module Deployer::counter { }").
  reflexivity.
Defined.

(** X18. The source holds a module declaration (of whatever named address)
    exactly when [validateMoveCode] either accepts it or rejects it for the
    named address it found; the complaints about an empty source, a missing
    [module] and an invalid declaration are kept for sources without one. *)
Theorem X18_declaration_iff_address_checked s :
  (exists a, ContractCompiler.Declares s a)
  <-> (ContractCompiler.validateMoveCode s = (true, None)
       \/ exists a, a <> "Deployer"
            /\ ContractCompiler.validateMoveCode s
               = (false, Some (ContractCompiler.wrongAddress a))).
Proof.
  split; [apply CompilerVerdicts.verdict_of_declares|].
  unfold ContractCompiler.validateMoveCode.
  destruct (isEmpty s || Nat.eqb (String.length (ContractCompiler.trim s)) 0).
  { intros [H|(a & _ & H)]; discriminate. }
  destruct (negb (includes s "module")).
  { intros [H|(a & _ & H)]; discriminate. }
  destruct (ContractCompiler.search ContractCompiler.declarationAt s)
    as [d|] eqn:Hd.
  - intros _. exists (ContractCompiler.declAddress d).
    now apply CompilerFacts.declares_of_search.
  - intros [H|(a & _ & H)]; discriminate.
Qed.

(** X19. A source is called empty exactly when it holds nothing but white
    space. *)
Theorem X19_empty_iff_blank s :
  ContractCompiler.validateMoveCode s = (false, Some "Source code is empty")
  <-> allChars isWhiteSpace s = true.
Proof.
  unfold ContractCompiler.validateMoveCode.
  rewrite CompilerFacts.trim_blank.
  destruct (allChars isWhiteSpace s) eqn:Hb.
  - rewrite orb_true_r. tauto.
  - rewrite orb_false_r. destruct (isEmpty s) eqn:He.
    + apply isEmpty_true in He. subst s. discriminate.
    + split; [|discriminate].
      destruct (negb (includes s "module")); [discriminate|].
      destruct (ContractCompiler.search ContractCompiler.declarationAt s);
        [|discriminate].
      destruct (negb (String.eqb _ "Deployer")); discriminate.
Qed.

(** X20. Only the first module declaration counts. When nothing before it
    begins the word [module], the verdict is read off its named address:
    accepted if that is Deployer, rejected with the address found
    otherwise, whatever follows the declaration. *)
Theorem X20_first_declaration_decides before space a c rest :
  includes (before +++ "modul") "module" = false ->
  space <> "" -> allChars isWhiteSpace space = true ->
  a <> "" -> allChars isWordChar a = true ->
  isWordChar c = true ->
  ContractCompiler.validateMoveCode
    (before +++ "module" +++ space +++ a +++ "::" +++ String c rest)
  = if String.eqb a "Deployer" then (true, None)
    else (false, Some (ContractCompiler.wrongAddress a)).
Proof.
  intros Hfree Hs Hsp Ha Hword Hc.
  destruct (CompilerFacts.declarationAt_complete space a c rest
              Hs Hsp Ha Hword Hc) as (d & Hd & <-).
  apply CompilerVerdicts.verdict_of_search.
  rewrite (search_skip _ ContractCompiler.declarationAt).
  - now apply search_here.
  - intros skipped more -> Hmore.
    unfold ContractCompiler.declarationAt.
    replace (startsWith (more +++ "module" +++ space
               +++ ContractCompiler.declAddress d +++ "::" +++ String c rest)
               "module")
      with false; [reflexivity|].
    symmetry.
    change (more +++ "module" +++ space +++ ContractCompiler.declAddress d
            +++ "::" +++ String c rest)
      with (more +++ "modul" +++ "e" +++ space
            +++ ContractCompiler.declAddress d +++ "::" +++ String c rest).
    rewrite <- append_assoc.
    rewrite startsWith_within.
    + destruct (startsWith (more +++ "modul") "module") eqn:E;
        [|reflexivity].
      rewrite append_assoc in Hfree.
      rewrite (includes_app_r "module" skipped _
                 (includes_startsWith _ _ E)) in Hfree.
      discriminate.
    + rewrite length_append. destruct more; [congruence|]. simpl. lia.
Qed.

Lemma X20_witness :
  ContractCompiler.validateMoveCode
    ("// a comment" +++ newline +++ "module" +++ " " +++ "0x1" +++ "::"
     +++ String "c" "oin { } module Deployer::coin { }")
  = (false, Some (ContractCompiler.wrongAddress "0x1")).
Proof.
  apply (X20_first_declaration_decides ("// a comment" +++ newline) " " "0x1"
           "c" "oin { } module Deployer::coin { }");
    solve [reflexivity | discriminate].
Defined.

(** X21. A name given by [extractContractName] is a non-empty word, and a
    source it names is one in which [validateMoveCode] finds a declaration:
    the verdict is acceptance, or the rejection of the named address. *)
Theorem X21_extracted_name_is_declared s n :
  ContractCompiler.extractContractName s = Some n ->
  n <> "" /\ allChars isWordChar n = true
  /\ (ContractCompiler.validateMoveCode s = (true, None)
      \/ exists a, a <> "Deployer"
           /\ ContractCompiler.validateMoveCode s
              = (false, Some (ContractCompiler.wrongAddress a))).
Proof.
  intros H.
  destruct (CompilerVerdicts.extracted_name s n H) as (Hn & Hw & d & Hd).
  split; [exact Hn|split; [exact Hw|]].
  apply CompilerVerdicts.verdict_of_declares.
  exists (ContractCompiler.declAddress d).
  now apply CompilerFacts.declares_of_search.
Qed.

Lemma X21_witness :
  "counter" <> "" /\ allChars isWordChar "counter" = true
  /\ (ContractCompiler.validateMoveCode "module 0x1::counter{" = (true, None)
      \/ exists a, a <> "Deployer"
           /\ ContractCompiler.validateMoveCode "module 0x1::counter{"
              = (false, Some (ContractCompiler.wrongAddress a))).
Proof.
  apply (X21_extracted_name_is_declared "module 0x1::counter{" "counter").
  reflexivity.
Defined.

(* ================================================================== *)
(** ** The compiler client: requests to the backend *)
(* ================================================================== *)

Module CompileFacts.

Import ContractCompiler.

Lemma failed_success errors : field "success" (failed errors) = VBool false.
Proof. reflexivity. Qed.

Lemma wallet_shape w :
  isWalletAddress w = true ->
  exists digits,
    w = "0x" +++ digits
    /\ 1 <= String.length digits <= 64
    /\ allChars isHexDigit digits = true.
Proof.
  unfold isWalletAddress. intros H.
  apply andb_prop in H as [H Hhex]. apply andb_prop in H as [H Hmax].
  apply andb_prop in H as [Hx Hmin].
  exists (drop 2 w). split; [exact (startsWith_split "0x" w Hx)|].
  apply Nat.leb_le in Hmin, Hmax. split; [lia|exact Hhex].
Qed.

(** The result of [compileContract] in terms of what it sent. *)
Lemma compile_cases fetch src m w :
  (fst (compileContract fetch src m w) = []
   /\ field "success" (snd (compileContract fetch src m w)) = VBool false
   /\ (isWalletAddress w = false \/ fst (validateMoveCode src) = false))
  \/ (fst (compileContract fetch src m w)
      = [{| sourceCode := src; moduleName := m; walletAddress := w |}]
      /\ isWalletAddress w = true /\ fst (validateMoveCode src) = true).
Proof.
  unfold compileContract.
  destruct (isEmpty w) eqn:He.
  { left. apply isEmpty_true in He. subst w. repeat split. now left. }
  destruct (isWalletAddress w) eqn:Hw; cbn [negb].
  2: { left. repeat split. now left. }
  destruct (fst (validateMoveCode src)) eqn:Hv; cbn [negb].
  2: { left. repeat split. now right. }
  right. repeat split.
Qed.

Section Batch.

Variable fetch : Request -> Outcome Response.
Variable w : string.

Local Abbreviation answer := (ContractCompiler.answer fetch w).
Local Abbreviation compiles := (ContractCompiler.compiles fetch w).

Lemma batchLoop_prefix c post : forall before results sent,
  Forall (fun p => compiles p = true) before ->
  compiles c = false ->
  batchLoop fetch (before ++ c :: post) w results sent
  = batchLoop fetch (before ++ [c]) w results sent.
Proof.
  induction before as [|p before IH]; intros results sent Hall Hc.
  - cbn [app batchLoop]. unfold ContractCompiler.compiles, ContractCompiler.answer in Hc.
    destruct (snd (compileContract fetch (contractSource c)
                     (contractModule c) w)) eqn:E; try reflexivity;
      cbn [negb] in *; rewrite Hc; reflexivity.
  - inversion Hall as [|? ? Hp Hrest]; subst.
    cbn [app batchLoop]. unfold ContractCompiler.compiles, ContractCompiler.answer in Hp.
    destruct (snd (compileContract fetch (contractSource p)
                     (contractModule p) w)) eqn:E; try discriminate;
      rewrite Hp; cbn [negb]; apply IH; assumption.
Qed.

Lemma batchLoop_last c : forall before results sent,
  Forall (fun p => compiles p = true) before ->
  compiles c = false ->
  answer c <> VNull -> answer c <> VUndefined ->
  exists results',
    snd (batchLoop fetch (before ++ [c]) w results sent) = Returned results'
    /\ JsMap.get (contractModule c) results' = Some (answer c).
Proof.
  induction before as [|p before IH]; intros results sent Hall Hc Hn Hu.
  - cbn [app batchLoop]. unfold ContractCompiler.compiles in Hc.
    change (snd (compileContract fetch (contractSource c) (contractModule c) w))
      with (ContractCompiler.answer fetch w c).
    exists (JsMap.set (contractModule c) (answer c) results).
    split; [|apply JsMapFacts.get_set_same].
    destruct (answer c) eqn:E; try congruence; rewrite Hc; reflexivity.
  - inversion Hall as [|? ? Hp Hrest]; subst.
    cbn [app batchLoop]. unfold ContractCompiler.compiles in Hp.
    change (snd (compileContract fetch (contractSource p) (contractModule p) w))
      with (ContractCompiler.answer fetch w p).
    destruct (answer p) eqn:E; try discriminate;
      rewrite Hp; cbn [negb]; apply IH; assumption.
Qed.

End Batch.

End CompileFacts.

(** X22. Whatever [compileContract] sends to the backend carries its three
    arguments unchanged, a wallet address made of 0x and one to 64
    hexadecimal digits, and a source that declares a module at Deployer;
    at most one request is sent. *)
Theorem X22_request_is_checked fetch src m w request :
  In request (fst (ContractCompiler.compileContract fetch src m w)) ->
  fst (ContractCompiler.compileContract fetch src m w) = [request]
  /\ request = {| ContractCompiler.sourceCode := src;
                  ContractCompiler.moduleName := m;
                  ContractCompiler.walletAddress := w |}
  /\ ContractCompiler.Declares src "Deployer"
  /\ exists digits,
       w = "0x" +++ digits
       /\ 1 <= String.length digits <= 64
       /\ allChars isHexDigit digits = true.
Proof.
  intros Hin.
  destruct (CompileFacts.compile_cases fetch src m w)
    as [(Hsent & _)|(Hsent & Hw & Hv)]; rewrite Hsent in Hin |- *.
  - destruct Hin.
  - destruct Hin as [<-|[]]. repeat split.
    + now apply CompilerVerdicts.declares_of_accepted.
    + now apply CompileFacts.wallet_shape.
Qed.

(** X23. [compileContract] reports success only with the backend behind it:
    a result whose [success] is truthy is the body of a response with an ok
    status to the one request made. Every answer the client makes up
    itself, for a bad wallet address, a rejected source, a failed request,
    an error status or an unreadable body, has [success] false. *)
Theorem X23_success_comes_from_backend fetch src m w :
  truthy (field "success"
            (snd (ContractCompiler.compileContract fetch src m w))) = true ->
  exists response,
    fetch {| ContractCompiler.sourceCode := src;
             ContractCompiler.moduleName := m;
             ContractCompiler.walletAddress := w |} = Returned response
    /\ ContractCompiler.ok response = true
    /\ ContractCompiler.body response
       = Returned (snd (ContractCompiler.compileContract fetch src m w)).
Proof.
  unfold ContractCompiler.compileContract.
  destruct (isEmpty w); [discriminate|].
  destruct (negb (ContractCompiler.isWalletAddress w)); [discriminate|].
  destruct (negb (fst (ContractCompiler.validateMoveCode src)));
    [discriminate|].
  cbn [snd].
  destruct (fetch _) as [response|e]; [|discriminate].
  destruct (ContractCompiler.ok response) eqn:Hok; cbn [negb].
  - destruct (ContractCompiler.body response) as [result|e] eqn:Hb;
      [|discriminate].
    intros _. exists response. repeat split; assumption.
  - destruct (ContractCompiler.firstError _); discriminate.
Qed.

(** X24. [batchCompileContracts] stops at the first contract that does not
    compile: the contracts after it change neither the requests sent nor
    the map returned, and the map holds the failing result under that
    contract's module name. *)
Theorem X24_batch_stops_at_failure fetch w before c post :
  Forall (fun p => ContractCompiler.compiles fetch w p = true) before ->
  ContractCompiler.compiles fetch w c = false ->
  ContractCompiler.batchCompileContracts fetch (before ++ c :: post) w
  = ContractCompiler.batchCompileContracts fetch (before ++ [c]) w
  /\ (ContractCompiler.answer fetch w c <> VNull ->
      ContractCompiler.answer fetch w c <> VUndefined ->
      exists results,
        snd (ContractCompiler.batchCompileContracts fetch
               (before ++ c :: post) w) = Returned results
        /\ JsMap.get (ContractCompiler.contractModule c) results
           = Some (ContractCompiler.answer fetch w c)).
Proof.
  intros Hall Hc. unfold ContractCompiler.batchCompileContracts.
  rewrite (CompileFacts.batchLoop_prefix fetch w c post before _ _ Hall Hc).
  split; [reflexivity|]. intros Hn Hu.
  exact (CompileFacts.batchLoop_last fetch w c before _ _ Hall Hc Hn Hu).
Qed.

Lemma X22_witness :
  fst (ContractCompiler.compileContract ContractCompiler.backendOk
         "module Deployer::counter { }" "counter" "0xA1")
  = [{| ContractCompiler.sourceCode := "module Deployer::counter { }";
        ContractCompiler.moduleName := "counter";
        ContractCompiler.walletAddress := "0xA1" |}]
  /\ {| ContractCompiler.sourceCode := "module Deployer::counter { }";
        ContractCompiler.moduleName := "counter";
        ContractCompiler.walletAddress := "0xA1" |}
     = {| ContractCompiler.sourceCode := "module Deployer::counter { }";
          ContractCompiler.moduleName := "counter";
          ContractCompiler.walletAddress := "0xA1" |}
  /\ ContractCompiler.Declares "module Deployer::counter { }" "Deployer"
  /\ exists digits,
       "0xA1" = "0x" +++ digits
       /\ 1 <= String.length digits <= 64
       /\ allChars isHexDigit digits = true.
Proof.
  apply (X22_request_is_checked ContractCompiler.backendOk
           "module Deployer::counter { }" "counter" "0xA1").
  left. reflexivity.
Defined.

Lemma X23_witness :
  exists response,
    ContractCompiler.backendOk
      {| ContractCompiler.sourceCode := "module Deployer::counter { }";
         ContractCompiler.moduleName := "counter";
         ContractCompiler.walletAddress := "0xA1" |} = Returned response
    /\ ContractCompiler.ok response = true
    /\ ContractCompiler.body response
       = Returned (snd (ContractCompiler.compileContract
                          ContractCompiler.backendOk
                          "module Deployer::counter { }" "counter" "0xA1")).
Proof.
  apply (X23_success_comes_from_backend ContractCompiler.backendOk
           "module Deployer::counter { }" "counter" "0xA1").
  reflexivity.
Defined.

Lemma X24_witness :
  ContractCompiler.batchCompileContracts ContractCompiler.backendOk
    ([ContractCompiler.counterContract]
     ++ ContractCompiler.strayContract :: [ContractCompiler.vaultContract])
    "0xA1"
  = ContractCompiler.batchCompileContracts ContractCompiler.backendOk
      ([ContractCompiler.counterContract] ++ [ContractCompiler.strayContract])
      "0xA1"
  /\ (ContractCompiler.answer ContractCompiler.backendOk "0xA1"
        ContractCompiler.strayContract <> VNull ->
      ContractCompiler.answer ContractCompiler.backendOk "0xA1"
        ContractCompiler.strayContract <> VUndefined ->
      exists results,
        snd (ContractCompiler.batchCompileContracts ContractCompiler.backendOk
               ([ContractCompiler.counterContract]
                ++ ContractCompiler.strayContract
                   :: [ContractCompiler.vaultContract]) "0xA1")
        = Returned results
        /\ JsMap.get (ContractCompiler.contractModule
                        ContractCompiler.strayContract) results
           = Some (ContractCompiler.answer ContractCompiler.backendOk "0xA1"
                     ContractCompiler.strayContract)).
Proof.
  apply (X24_batch_stops_at_failure ContractCompiler.backendOk "0xA1"
           [ContractCompiler.counterContract] ContractCompiler.strayContract
           [ContractCompiler.vaultContract]).
  - constructor; [reflexivity|constructor].
  - reflexivity.
Defined.

(* ================================================================== *)
(** ** Handlers with the compiler client in place *)
(* ================================================================== *)

(** X25. With the checks of the compiler client in place, a contract-input
    node succeeds only on code that declares a module at Deployer. The name
    it hands on is not empty: it is the node's own, and then nothing is
    updated, or else the word [extractContractName] reads off the code,
    which is then written back to the node. *)
Theorem X25_contract_input_needs_declaration world node r :
  snd (executeContractInput (fun i => withCompiler (world i)) node)
  = Returned r ->
  success r = true ->
  exists code name,
    contractCode (data node) = Some code
    /\ ContractCompiler.Declares code "Deployer"
    /\ name <> ""
    /\ r = succeeded "Contract code validated"
             (VObj [("contractCode", VStr code);
                    ("contractName", VStr name)])
    /\ ((contractName (data node) = Some name
         /\ fst (executeContractInput (fun i => withCompiler (world i)) node)
            = [])
        \/ (ContractCompiler.extractContractName code = Some name
            /\ allChars isWordChar name = true
            /\ fst (executeContractInput
                      (fun i => withCompiler (world i)) node)
               = [OnNodeUpdate (id node)
                    (VObj [("contractName", VStr name)])])).
Proof.
  unfold executeContractInput.
  cbn [withCompiler validateMoveCode extractContractName].
  destruct (contractCode (data node)) as [code|];
    [|intros H; injection H as <-; discriminate].
  destruct (negb (present (Some code)));
    [intros H; injection H as <-; discriminate|].
  destruct (fst (ContractCompiler.validateMoveCode code)) eqn:Hv;
    cbn [negb]; [|intros H; injection H as <-; discriminate].
  apply CompilerVerdicts.declares_of_accepted in Hv.
  destruct (contractName (data node)) as [given|] eqn:Hgiven.
  - unfold present. cbn [ofOption truthy].
    destruct (String.eqb_spec given "") as [E|E]; cbn [negb].
    + destruct (ContractCompiler.extractContractName code) as [n|] eqn:Hn.
      * destruct (CompilerVerdicts.extracted_name code n Hn)
          as (Hne & Hw & _).
        cbn [ofOption truthy].
        rewrite (proj2 (String.eqb_neq n "") Hne). cbn [negb fst snd].
        intros H _. injection H as <-.
        exists code, n. repeat (split; [solve [auto]|]).
        right. repeat split; auto.
      * cbn. intros H; injection H as <-; discriminate.
    + cbn [fst snd]. intros H _. injection H as <-.
      exists code, given. repeat (split; [solve [auto]|]).
      left. split; auto.
  - unfold present. cbn [ofOption truthy negb].
    destruct (ContractCompiler.extractContractName code) as [n|] eqn:Hn.
    + destruct (CompilerVerdicts.extracted_name code n Hn) as (Hne & Hw & _).
      cbn [ofOption truthy].
        rewrite (proj2 (String.eqb_neq n "") Hne). cbn [negb fst snd].
      intros H _. injection H as <-.
      exists code, n. repeat (split; [solve [auto]|]).
        right. repeat split; auto.
    + cbn. intros H; injection H as <-; discriminate.
Qed.

Lemma X25_witness :
  exists code name,
    contractCode (data (contractNode "c" "module Deployer::counter { }"))
    = Some code
    /\ ContractCompiler.Declares code "Deployer"
    /\ name <> ""
    /\ succeeded "Contract code validated"
         (VObj [("contractCode", VStr "module Deployer::counter { }");
                ("contractName", VStr "counter")])
       = succeeded "Contract code validated"
           (VObj [("contractCode", VStr code); ("contractName", VStr name)])
    /\ ((contractName (data (contractNode "c" "module Deployer::counter { }"))
         = Some name
         /\ fst (executeContractInput (fun i => withCompiler (everywhere offline i))
                   (contractNode "c" "module Deployer::counter { }"))
            = [])
        \/ (ContractCompiler.extractContractName code = Some name
            /\ allChars isWordChar name = true
            /\ fst (executeContractInput
                      (fun i => withCompiler (everywhere offline i))
                      (contractNode "c" "module Deployer::counter { }"))
               = [OnNodeUpdate
                    (id (contractNode "c" "module Deployer::counter { }"))
                    (VObj [("contractName", VStr name)])])).
Proof.
  apply (X25_contract_input_needs_declaration (everywhere offline)
           (contractNode "c" "module Deployer::counter { }")
           (succeeded "Contract code validated"
              (VObj [("contractCode", VStr "module Deployer::counter { }");
                     ("contractName", VStr "counter")])));
    reflexivity.
Defined.

(** X26. A compile node succeeds only if an earlier contract-input output
    holds the code, a wallet address is known, and the compiler itself
    reported success on that code under the handed-on name (MyModule when
    there is none) and that address; the node's result and its one update
    then carry the compiler's answer. *)
Theorem X26_compile_success_requires context world this node r :
  snd (executeCompile context world this node) = Returned r ->
  success r = true ->
  exists address,
    walletAddress (world (id node)) = Some address
    /\ address <> ""
    /\ truthy (field "contractCode"
                 (findPreviousData context this "contractInput")) = true
    /\ compiled
         (compileContract (world (id node))
            (field "contractCode"
               (findPreviousData context this "contractInput"))
            (orElse (field "contractName"
                       (findPreviousData context this "contractInput"))
                    (VStr "MyModule"))
            address) = true
    /\ r = succeeded "Contract compiled successfully"
             (compilationValue
                (compileContract (world (id node))
                   (field "contractCode"
                      (findPreviousData context this "contractInput"))
                   (orElse (field "contractName"
                              (findPreviousData context this "contractInput"))
                           (VStr "MyModule"))
                   address))
    /\ fst (executeCompile context world this node)
       = [OnNodeUpdate (id node)
            (VObj [("compilationResult",
                    compilationValue
                      (compileContract (world (id node))
                         (field "contractCode"
                            (findPreviousData context this "contractInput"))
                         (orElse
                            (field "contractName"
                               (findPreviousData context this "contractInput"))
                            (VStr "MyModule"))
                         address))])].
Proof.
  unfold executeCompile.
  destruct (truthy (field "contractCode"
              (findPreviousData context this "contractInput"))) eqn:Hcode;
    cbn [negb]; [|intros H; injection H as <-; discriminate].
  destruct (walletAddress (world (id node))) as [address|];
    [|intros H; injection H as <-; discriminate].
  unfold present. cbn [ofOption truthy].
  destruct (String.eqb_spec address "") as [E|E]; cbn [negb];
    [intros H; injection H as <-; discriminate|].
  destruct (compiled (compileContract (world (id node)) _ _ address)) eqn:Hc;
    cbn [negb]; [|intros H; injection H as <-; discriminate].
  cbn [fst snd]. intros H _. injection H as <-.
  exists address. repeat split; auto.
Qed.

Lemma X26_witness :
  exists address,
    walletAddress (everywhere compiling (id (plainNode "cc" "compile")))
    = Some address
    /\ address <> ""
    /\ truthy (field "contractCode"
                 (findPreviousData sampleCompile afterContractInput
                    "contractInput")) = true
    /\ compiled
         (compileContract (everywhere compiling (id (plainNode "cc" "compile")))
            (field "contractCode"
               (findPreviousData sampleCompile afterContractInput
                  "contractInput"))
            (orElse (field "contractName"
                       (findPreviousData sampleCompile afterContractInput
                          "contractInput"))
                    (VStr "MyModule"))
            address) = true
    /\ succeeded "Contract compiled successfully"
         (VObj [("success", VBool true); ("bytecode", VStr "0xa11ceb0b")])
       = succeeded "Contract compiled successfully"
             (compilationValue
                (compileContract
                   (everywhere compiling (id (plainNode "cc" "compile")))
                   (field "contractCode"
                      (findPreviousData sampleCompile afterContractInput
                         "contractInput"))
                   (orElse (field "contractName"
                              (findPreviousData sampleCompile
                                 afterContractInput "contractInput"))
                           (VStr "MyModule"))
                   address))
    /\ fst (executeCompile sampleCompile (everywhere compiling)
              afterContractInput (plainNode "cc" "compile"))
       = [OnNodeUpdate (id (plainNode "cc" "compile"))
            (VObj [("compilationResult",
                    compilationValue
                      (compileContract
                         (everywhere compiling
                            (id (plainNode "cc" "compile")))
                         (field "contractCode"
                            (findPreviousData sampleCompile
                               afterContractInput "contractInput"))
                         (orElse
                            (field "contractName"
                               (findPreviousData sampleCompile
                                  afterContractInput "contractInput"))
                            (VStr "MyModule"))
                         address))])].
Proof.
  apply (X26_compile_success_requires sampleCompile (everywhere compiling)
           afterContractInput (plainNode "cc" "compile")
           (succeeded "Contract compiled successfully"
              (VObj [("success", VBool true);
                     ("bytecode", VStr "0xa11ceb0b")])));
    reflexivity.
Defined.

(** More edges, more paths. *)
Lemma clos_trans_mono_edges (es es' : list Edge) :
  (forall e, In e es -> In e es') ->
  forall a b,
    clos_trans string (edgeRel es) a b -> clos_trans string (edgeRel es') a b.
Proof.
  intros Hsub a b H. induction H as [a b (e & He & Hs & Ht)|a b c _ IH1 _ IH2].
  - apply t_step. exists e. auto.
  - now apply t_trans with b.
Qed.

(* ================================================================== *)
(** ** Generated workflows *)
(* ================================================================== *)

(** On an acyclic graph with unique ids and no dangling edge there is a
    schedule, and it respects every edge. *)
Lemma acyclic_schedule nodes edges :
  NoDup (ids nodes) -> wellFormed nodes edges -> acyclic edges ->
  exists order,
    buildExecutionOrder nodes edges = Returned order
    /\ (forall k, In k order <-> In k (ids nodes))
    /\ forall e, In e edges -> precedes order (source e) (target e).
Proof.
  intros Hids Hwf Hac.
  destruct (kahn_GraphInv nodes edges Hwf) as [_ (G1 & G2 & G3 & G4)].
  pose proof (kahn_complete nodes edges Hwf Hac) as Hall.
  rewrite kahn_queue_empty, app_nil_r in G1.
  exists (result (kahn nodes edges)). split; [|split].
  - unfold buildExecutionOrder.
    rewrite <- (length_map id nodes). fold (ids nodes).
    rewrite (same_length_of_mutual_incl _ _ (kahn_result_NoDup nodes edges)
               Hids G1 Hall), Nat.eqb_refl.
    reflexivity.
  - intros k. split; auto.
  - intros e He. apply G4; auto. apply Hall. now apply Hwf.
Qed.

Module GeneratorFacts.

Import WorkflowGenerator.

Ltac distinct_ids :=
  repeat constructor; cbn; intuition discriminate.

Ltac each_edge e :=
  repeat match goal with
  | H : In e _ |- _ => destruct H as [<-|H]
  | H : _ \/ _ |- _ => destruct H as [<-|H]
  end.

Section Shape.

Variable nodeConfigs : string -> string.
Variable now : nat -> Z.
Variable template : ContractTemplate.t.

Local Abbreviation plain :=
  (generateWorkflowFromTemplate nodeConfigs now template).
Local Abbreviation audited :=
  (generateWorkflowWithAI nodeConfigs now template).

Lemma audited_eq :
  audited
  = (fst plain
       ++ [generated nodeConfigs (stamped now "ai" 7) "aiAudit"
             None None None None VUndefined
             (Some "Analyze this smart contract for security vulnerabilities and suggest improvements.")],
     snd plain ++ [mkEdge (stamped now "contract" 1) (stamped now "ai" 7)]).
Proof. reflexivity. Qed.

Lemma audited_ids : NoDup (ids (fst audited)).
Proof.
  rewrite audited_eq. unfold stamped.
  generalize (numToString (now 0)), (numToString (now 1)),
    (numToString (now 2)), (numToString (now 3)), (numToString (now 4)),
    (numToString (now 5)), (numToString (now 6)), (numToString (now 7)).
  intros. distinct_ids.
Qed.

Lemma audited_wellFormed : wellFormed (fst audited) (snd audited).
Proof.
  rewrite audited_eq. intros e He. cbn in He.
  each_edge e; try contradiction; cbn; auto 12.
Qed.

Lemma audited_acyclic : acyclic (snd audited).
Proof.
  rewrite audited_eq. unfold acyclic, onCycle, stamped.
  generalize (numToString (now 0)), (numToString (now 1)),
    (numToString (now 2)), (numToString (now 3)), (numToString (now 4)),
    (numToString (now 5)), (numToString (now 6)), (numToString (now 7)).
  intros.
  apply (ranked_no_cycle _ stage).
  intros a b (e & He & <- & <-). cbn in He.
  each_edge e; try contradiction; cbn; lia.
Qed.

Lemma plain_ids : NoDup (ids (fst plain)).
Proof.
  pose proof audited_ids as H. rewrite audited_eq in H. cbn [fst] in H.
  unfold ids in H. rewrite map_app in H. exact (NoDup_app_remove_r _ _ H).
Qed.

Lemma plain_wellFormed : wellFormed (fst plain) (snd plain).
Proof.
  intros e He. cbn in He.
  each_edge e; try contradiction; cbn; auto 12.
Qed.

Lemma plain_acyclic : acyclic (snd plain).
Proof.
  intros v Hv. apply (audited_acyclic v). rewrite audited_eq. cbn [snd].
  revert Hv. unfold onCycle. apply clos_trans_mono_edges.
  intros e He. apply in_or_app. now left.
Qed.

End Shape.

End GeneratorFacts.

(** X27. Whatever the template, the labels and the clock, the workflow of
    [generateWorkflowFromTemplate] can be scheduled: [buildExecutionOrder]
    returns an order that holds exactly the ids of the seven nodes and puts
    the source of every generated edge before its target; and every node
    has a type [executeNode] has a handler for. *)
Theorem X27_generated_workflow_schedulable nodeConfigs now template :
  exists order,
    buildExecutionOrder
      (fst (WorkflowGenerator.generateWorkflowFromTemplate
              nodeConfigs now template))
      (snd (WorkflowGenerator.generateWorkflowFromTemplate
              nodeConfigs now template)) = Returned order
    /\ (forall k,
          In k order
          <-> In k (ids (fst (WorkflowGenerator.generateWorkflowFromTemplate
                                nodeConfigs now template))))
    /\ (forall e,
          In e (snd (WorkflowGenerator.generateWorkflowFromTemplate
                       nodeConfigs now template)) ->
          precedes order (source e) (target e))
    /\ Forall (fun n => In (type (data n)) knownTypes)
         (fst (WorkflowGenerator.generateWorkflowFromTemplate
                 nodeConfigs now template)).
Proof.
  destruct (acyclic_schedule _ _
              (GeneratorFacts.plain_ids nodeConfigs now template)
              (GeneratorFacts.plain_wellFormed nodeConfigs now template)
              (GeneratorFacts.plain_acyclic nodeConfigs now template))
    as (order & Ho & Hin & Hprec).
  exists order. repeat (split; [assumption|]).
  repeat (apply Forall_cons; [cbn; auto 12|]). apply Forall_nil.
Qed.

(** X28. The same holds with the audit node of [generateWorkflowWithAI]:
    the eight nodes can be scheduled, every edge is respected, every type
    has a handler, and the audit node comes after the contract-input node
    whose code it reads. *)
Theorem X28_audited_workflow_schedulable nodeConfigs now template :
  exists order,
    buildExecutionOrder
      (fst (WorkflowGenerator.generateWorkflowWithAI
              nodeConfigs now template))
      (snd (WorkflowGenerator.generateWorkflowWithAI
              nodeConfigs now template)) = Returned order
    /\ (forall k,
          In k order
          <-> In k (ids (fst (WorkflowGenerator.generateWorkflowWithAI
                                nodeConfigs now template))))
    /\ (forall e,
          In e (snd (WorkflowGenerator.generateWorkflowWithAI
                       nodeConfigs now template)) ->
          precedes order (source e) (target e))
    /\ Forall (fun n => In (type (data n)) knownTypes)
         (fst (WorkflowGenerator.generateWorkflowWithAI
                 nodeConfigs now template))
    /\ precedes order (WorkflowGenerator.stamped now "contract" 1)
         (WorkflowGenerator.stamped now "ai" 7).
Proof.
  destruct (acyclic_schedule _ _
              (GeneratorFacts.audited_ids nodeConfigs now template)
              (GeneratorFacts.audited_wellFormed nodeConfigs now template)
              (GeneratorFacts.audited_acyclic nodeConfigs now template))
    as (order & Ho & Hin & Hprec).
  exists order. repeat (split; [assumption|]). split.
  - repeat (apply Forall_cons; [cbn; auto 12|]). apply Forall_nil.
  - apply (Hprec (mkEdge (WorkflowGenerator.stamped now "contract" 1)
                         (WorkflowGenerator.stamped now "ai" 7))).
    rewrite GeneratorFacts.audited_eq. cbn [snd].
    apply in_or_app. right. now left.
Qed.

Lemma generated_name_not_empty code :
  WorkflowGenerator.extractContractName code <> "".
Proof.
  unfold WorkflowGenerator.extractContractName.
  destruct (ContractCompiler.search ContractCompiler.declarationAt code)
    as [d|] eqn:H; [|discriminate].
  apply search_sound in H as (before & rest & _ & H).
  apply CompilerFacts.declarationAt_sound in H
    as (space & _ & _ & _ & _ & _ & Hn & _).
  exact Hn.
Qed.

(** X29. The contract-input node of a generated workflow never needs its
    name extracted while it runs: with the checks of the compiler client
    in place it makes no update, and it succeeds exactly when
    [validateMoveCode] accepts the template's code, handing on that code
    and the name the generator read off it. *)
Theorem X29_generated_contract_node world nodeConfigs now template node :
  find (WorkflowGenerator.hasType "contractInput")
    (fst (WorkflowGenerator.generateWorkflowFromTemplate
            nodeConfigs now template)) = Some node ->
  fst (executeContractInput (fun i => withCompiler (world i)) node) = []
  /\ exists r,
       snd (executeContractInput (fun i => withCompiler (world i)) node)
       = Returned r
       /\ (success r = true
           <-> fst (ContractCompiler.validateMoveCode
                      (ContractTemplate.code template)) = true)
       /\ (success r = true ->
           payload r
           = VObj [("contractCode", VStr (ContractTemplate.code template));
                   ("contractName",
                    VStr (WorkflowGenerator.extractContractName
                            (ContractTemplate.code template)))]).
Proof.
  intros Hfind. cbn in Hfind. injection Hfind as <-.
  unfold executeContractInput, WorkflowGenerator.generated.
  cbn [data id contractCode contractName withCompiler validateMoveCode
       extractContractName].
  unfold present. cbn [ofOption truthy].
  destruct (String.eqb_spec (ContractTemplate.code template) "") as [E|E];
    cbn [negb].
  - rewrite E. split; [reflexivity|]. eexists. split; [reflexivity|].
    split; [split|]; discriminate.
  - destruct (fst (ContractCompiler.validateMoveCode
                     (ContractTemplate.code template))) eqn:Hv; cbn [negb].
    + rewrite (proj2 (String.eqb_neq _ "")
                 (generated_name_not_empty (ContractTemplate.code template))).
      cbn [negb]. split; [reflexivity|]. eexists. split; [reflexivity|].
      split; [split; reflexivity|reflexivity].
    + split; [reflexivity|]. eexists. split; [reflexivity|].
      split; [split|]; discriminate.
Qed.

Lemma X29_witness :
  fst (executeContractInput (fun i => withCompiler (everywhere offline i))
         (WorkflowGenerator.generated (fun ty => ty)
            (WorkflowGenerator.stamped WorkflowGenerator.sampleClock
               "contract" 1)
            "contractInput" None None
            (Some "module Deployer::counter { }") (Some "counter")
            VUndefined None)) = []
  /\ exists r,
       snd (executeContractInput
              (fun i => withCompiler (everywhere offline i))
              (WorkflowGenerator.generated (fun ty => ty)
                 (WorkflowGenerator.stamped WorkflowGenerator.sampleClock
                    "contract" 1)
                 "contractInput" None None
                 (Some "module Deployer::counter { }") (Some "counter")
                 VUndefined None))
       = Returned r
       /\ (success r = true
           <-> fst (ContractCompiler.validateMoveCode
                      (ContractTemplate.code
                         WorkflowGenerator.counterTemplate)) = true)
       /\ (success r = true ->
           payload r
           = VObj [("contractCode",
                    VStr (ContractTemplate.code
                            WorkflowGenerator.counterTemplate));
                   ("contractName",
                    VStr (WorkflowGenerator.extractContractName
                            (ContractTemplate.code
                               WorkflowGenerator.counterTemplate)))]).
Proof.
  apply (X29_generated_contract_node (everywhere offline) (fun ty => ty)
           WorkflowGenerator.sampleClock WorkflowGenerator.counterTemplate).
  reflexivity.
Defined.
